(** * aider/repo.py: the [GitRepo] state-and-workflow manager

    A shallow embedding of [GitRepo] (src/aider/repo.py) and the properties
    of its branch resolution, feature-branch naming, commit orchestration,
    path normalisation, ignore filter and tracked-file query.

    Conventions of the embedding.
    - Python exceptions are values of [exn]; a call that may raise returns a
      [result].  Only subclasses of [Exception] are modelled.
    - Methods that touch [self], the notifier [self.io], [os.environ] or the
      repository run in the state-and-exception monad [M]; as in Python, the
      state changes made before an exception is raised are kept.
    - The GitPython session, the file system, the clock and the text
      generators are external: they appear as fields of a repository or
      world record from which the methods read.
    - Strings are sequences of ASCII characters. *)

From Stdlib Require Import Ascii String DecimalString.
From stdpp Require Import gmap strings list fin_maps sorting.

Local Open Scope string_scope.
Local Open Scope list_scope.

(** ** Exceptions and results *)

Inductive exn_class :=
  | ODBError | GitError | GitCommandError | InvalidGitRepositoryError
  | GitCommandNotFound | OSError | IndexError | BufferError | TypeError
  | ValueError | AttributeError | AssertionError | TimeoutError
  | KeyError | RuntimeError.

#[global] Instance exn_class_eq_dec : EqDecision exn_class.
Proof. solve_decision. Defined.

(** An exception object: its class and [str(e)]. *)
Record exn := Exn { exn_cls : exn_class; exn_str : string }.

#[global] Instance exn_eq_dec : EqDecision exn.
Proof. solve_decision. Defined.

(** [ANY_GIT_ERROR] (lines 10-36).  [GitCommandError] and
    [GitCommandNotFound] derive from [GitError]. *)
Definition ANY_GIT_ERROR (c : exn_class) : bool :=
  match c with
  | KeyError | RuntimeError => false
  | _ => true
  end.

Inductive result (A : Type) :=
  | Ok (a : A)
  | Raise (e : exn).
Arguments Ok {A} a.
Arguments Raise {A} e.

(** ** The notifier [self.io] *)

Inductive io_event :=
  | tool_error (text : string)
  | tool_warning (text : string)
  | tool_output (text : string).

(** ** State and exceptions *)

Definition M (S A : Type) : Type := S -> result A * S.

Definition ret {S A} (a : A) : M S A := fun s => (Ok a, s).
Definition raise {S A} (e : exn) : M S A := fun s => (Raise e, s).
Definition bind {S A B} (m : M S A) (k : A -> M S B) : M S B :=
  fun s => match m s with
           | (Ok a, s') => k a s'
           | (Raise e, s') => (Raise e, s')
           end.
Definition lift {S A} (r : result A) : M S A := fun s => (r, s).
Definition gets {S A} (f : S -> A) : M S A := fun s => (Ok (f s), s).
Definition modify {S} (f : S -> S) : M S unit := fun s => (Ok tt, f s).

(** [try: m except <classes> as e: h e] *)
Definition try_except {S A} (m : M S A) (catches : exn -> bool)
    (h : exn -> M S A) : M S A :=
  fun s => match m s with
           | (Raise e, s') => if catches e then h e s' else (Raise e, s')
           | r => r
           end.

(** [try: m finally: f]; an exception of [f] replaces the outcome of [m]. *)
Definition try_finally {S A} (m : M S A) (f : M S unit) : M S A :=
  fun s => match m s with
           | (r, s') => match f s' with
                        | (Ok _, s'') => (r, s'')
                        | (Raise e, s'') => (Raise e, s'')
                        end
           end.

Declare Scope py_scope.
Delimit Scope py_scope with py.
Notation "x <- c1 ;; c2" := (bind c1 (fun x => c2))
  (at level 100, c1 at next level, right associativity) : py_scope.
Notation "c1 ;;; c2" := (bind c1 (fun _ => c2))
  (at level 100, right associativity) : py_scope.
Local Open Scope py_scope.

(** ** Python string helpers *)

(** The line feed, as a string, and the double quote. *)
Definition newline : string := String (ascii_of_nat 10) EmptyString.
Definition dquote : ascii := ascii_of_nat 34.

Definition is_upper (c : ascii) : bool :=
  let n := nat_of_ascii c in (65 <=? n)%nat && (n <=? 90)%nat.
Definition is_lower (c : ascii) : bool :=
  let n := nat_of_ascii c in (97 <=? n)%nat && (n <=? 122)%nat.
Definition is_digit (c : ascii) : bool :=
  let n := nat_of_ascii c in (48 <=? n)%nat && (n <=? 57)%nat.

Definition lower_ascii (c : ascii) : ascii :=
  if is_upper c then ascii_of_nat (nat_of_ascii c + 32) else c.

(** [s.lower()] *)
Fixpoint lower (s : string) : string :=
  match s with
  | EmptyString => EmptyString
  | String c s' => String (lower_ascii c) (lower s')
  end.

(** [sub in s] *)
Fixpoint contains (sub s : string) : bool :=
  String.prefix sub s ||
  match s with
  | EmptyString => false
  | String _ s' => contains sub s'
  end.

(** [s[:n]] *)
Definition take_str (n : nat) (s : string) : string := String.substring 0 n s.

(** [s.lstrip(..)], [s.rstrip(..)] and [s.strip(..)], the stripped
    characters being those that satisfy [p]. *)
Fixpoint lstrip_if (p : ascii -> bool) (s : string) : string :=
  match s with
  | EmptyString => EmptyString
  | String a s' => if p a then lstrip_if p s' else s
  end.

Fixpoint rstrip_if (p : ascii -> bool) (s : string) : string :=
  match s with
  | EmptyString => EmptyString
  | String a s' =>
      match rstrip_if p s' with
      | EmptyString => if p a then EmptyString else String a EmptyString
      | r => String a r
      end
  end.

Definition strip_if (p : ascii -> bool) (s : string) : string :=
  rstrip_if p (lstrip_if p s).

(** [s.strip(c)] for one character [c]. *)
Definition strip_char (c : ascii) (s : string) : string := strip_if (Ascii.eqb c) s.

(** A character of ASCII.  The methods of [str] that go by the class of a
    character ([strip], [lower], the word class of [re]) are modelled on
    ASCII; on other characters Python follows Unicode. *)
Definition is_ascii (c : ascii) : bool := (nat_of_ascii c <? 128)%nat.

(** The ASCII characters for which [str.isspace] holds. *)
Definition is_space (c : ascii) : bool :=
  let n := nat_of_ascii c in
  ((9 <=? n)%nat && (n <=? 13)%nat) || ((28 <=? n)%nat && (n <=? 32)%nat).

(** [s.strip()] *)
Definition strip (s : string) : string := strip_if is_space s.

(** A string that does not begin, or does not end, with a character
    satisfying [p]. *)
Definition no_lead (p : ascii -> bool) (s : string) : bool :=
  match s with
  | EmptyString => true
  | String a _ => negb (p a)
  end.

Fixpoint no_trail (p : ascii -> bool) (s : string) : bool :=
  match s with
  | EmptyString => true
  | String a EmptyString => negb (p a)
  | String _ s' => no_trail p s'
  end.

(** Whether every character of [s] satisfies [p]. *)
Fixpoint all_chars (p : ascii -> bool) (s : string) : bool :=
  match s with
  | EmptyString => true
  | String c s' => p c && all_chars p s'
  end.

(** Truthiness of an optional string: [None] and [""] are falsy. *)
Definition truthy (o : option string) : bool :=
  match o with
  | Some (String _ _) => true
  | _ => false
  end.

(** [x or d] for an optional string [x]. *)
Definition or_default (o : option string) (d : string) : string :=
  match o with
  | Some (String c s) => String c s
  | _ => d
  end.

(** How an f-string prints an attribute that is a string or [None]. *)
Definition fmt (o : option string) : string :=
  match o with Some s => s | None => "None" end.

(** ** Branch workflow (lines 126-164 and 518-611) *)

Module Branches.

(** The repository as the branch operations see it.  The first four fields
    are queries; the last three tell which commands the repository
    rejects. *)
Record Git := {
  g_branches : result (list string);      (* [b.name for b in repo.branches] *)
  g_active_branch : result string;        (* repo.active_branch.name *)
  g_head_hexsha : result string;          (* repo.head.object.hexsha *)
  g_is_dirty : result bool;               (* repo.is_dirty(path=None) *)
  g_commit_hexsha : option string -> result string;  (* repo.commit(rev).hexsha *)
  g_checkout_error : string -> option exn;     (* repo.git.checkout / Head.checkout *)
  g_create_head_error : string -> option exn;  (* repo.create_head *)
}.

(** The fields of [self] the branch operations use, the repository and the
    notifier's transcript (most recent message last). *)
Record St := {
  git : Git;
  primary_branch_name : option string;
  primary_branch : option string;
  develop_branch : option string;
  io : list io_event;
}.

Definition io_emit (ev : io_event) : M St unit :=
  modify (fun s => {| git := git s; primary_branch_name := primary_branch_name s;
                      primary_branch := primary_branch s;
                      develop_branch := develop_branch s;
                      io := io s ++ [ev] |}).

Definition set_primary_branch (b : option string) : M St unit :=
  modify (fun s => {| git := git s; primary_branch_name := primary_branch_name s;
                      primary_branch := b;
                      develop_branch := develop_branch s;
                      io := io s |}).

Definition set_develop_branch (b : option string) : M St unit :=
  modify (fun s => {| git := git s; primary_branch_name := primary_branch_name s;
                      primary_branch := primary_branch s;
                      develop_branch := b;
                      io := io s |}).

Definition set_git (g : Git) : M St unit :=
  modify (fun s => {| git := g; primary_branch_name := primary_branch_name s;
                      primary_branch := primary_branch s;
                      develop_branch := develop_branch s;
                      io := io s |}).

(** [get_current_branch] (lines 518-532). *)
Definition get_current_branch (g : Git) : result string :=
  match g_active_branch g with
  | Ok name => Ok name
  | Raise e =>
      if bool_decide (exn_cls e = TypeError) || bool_decide (exn_cls e = AttributeError)
         || ANY_GIT_ERROR (exn_cls e) then
        if contains "detached" (lower (exn_str e)) || bool_decide (exn_cls e = TypeError)
        then
          match g_head_hexsha g with
          | Ok h => Ok (take_str 7 h +:+ " (Detached HEAD)")
          | Raise _ =>
              Raise (Exn ValueError
                       "Could not determine current branch or commit (Detached HEAD).")
          end
        else Raise (Exn ValueError ("Could not determine current branch: " +:+ exn_str e))
      else Raise e
  end.

(** The membership test [name in branches] on the list of branch names;
    the configured name may be [None], which is in no list of strings. *)
Definition name_in (name : option string) (branches : list string) : bool :=
  match name with
  | Some n => bool_decide (n ∈ branches)
  | None => false
  end.

(** The [try] block of [_determine_git_flow_branches] (lines 129-158). *)
Definition determine_try : M St unit :=
  branches <- (g <- gets git ;; lift (g_branches g)) ;;
  current_branch <- (g <- gets git ;; lift (get_current_branch g)) ;;
  name <- gets primary_branch_name ;;
  (if name_in name branches then set_primary_branch name
   else if bool_decide ("main" ∈ branches) then set_primary_branch (Some "main")
   else if bool_decide ("master" ∈ branches) then set_primary_branch (Some "master")
   else if bool_decide ("develop" ∈ branches) then
     set_primary_branch (Some "develop") ;;;
     io_emit (tool_warning "No 'main' or 'master' branch found. Using 'develop' as primary.")
   else
     set_primary_branch (Some current_branch) ;;;
     io_emit (tool_warning
       ("No 'main', 'master', or 'develop' branch found. Using current branch '"
        +:+ current_branch +:+ "' as primary."))) ;;;
  (if bool_decide ("develop" ∈ branches) then set_develop_branch (Some "develop")
   else
     primary <- gets primary_branch ;;
     set_develop_branch primary ;;;
     if bool_decide (primary ≠ Some "develop") then
       io_emit (tool_warning ("No 'develop' branch found. Using primary branch '"
                              +:+ fmt primary +:+ "' as the development base."))
     else ret tt) ;;;
  primary <- gets primary_branch ;;
  io_emit (tool_output ("Identified Primary Branch: " +:+ fmt primary)) ;;;
  develop <- gets develop_branch ;;
  io_emit (tool_output ("Identified Develop Branch: " +:+ fmt develop)).

(** The [except Exception] handler (lines 160-164).  The test
    ["develop" in self.repo.branches] enumerates the branches again;
    GitPython's [IterableList] finds a string by the [name] of its items. *)
Definition determine_fallback (e : exn) : M St unit :=
  io_emit (tool_error ("Error determining Git Flow branches: " +:+ exn_str e
                       +:+ ". Falling back to defaults.")) ;;;
  name <- gets primary_branch_name ;;
  set_primary_branch (Some (or_default name "main")) ;;;
  branches <- (g <- gets git ;; lift (g_branches g)) ;;
  if bool_decide ("develop" ∈ branches) then set_develop_branch (Some "develop")
  else primary <- gets primary_branch ;; set_develop_branch primary.

(** [_determine_git_flow_branches] (lines 126-164). *)
Definition _determine_git_flow_branches : M St unit :=
  try_except determine_try (fun _ => true) determine_fallback.

(** The state in which [__init__] calls the resolver. *)
Definition init_state (g : Git) (name : option string) : St :=
  {| git := g; primary_branch_name := name; primary_branch := None;
     develop_branch := None; io := [] |}.

(** *** Feature branches (lines 492-601) *)

(** [is_dirty()] with [path=None] (lines 492-496): the path test is
    skipped and the repository is asked. *)
Definition is_dirty : M St bool := g <- gets git ;; lift (g_is_dirty g).

(** The effect of a successful [git checkout name]. *)
Definition checked_out (g : Git) (name : string) : Git :=
  {| g_branches := g_branches g;
     g_active_branch := Ok name;
     g_head_hexsha := g_commit_hexsha g (Some name);
     g_is_dirty := g_is_dirty g;
     g_commit_hexsha := g_commit_hexsha g;
     g_checkout_error := g_checkout_error g;
     g_create_head_error := g_create_head_error g |}.

(** The effect of a successful [repo.create_head(name)]: a new branch at
    the current head. *)
Definition head_created (g : Git) (name : string) : Git :=
  {| g_branches := match g_branches g with
                   | Ok bs => Ok (bs ++ [name])
                   | Raise e => Raise e
                   end;
     g_active_branch := g_active_branch g;
     g_head_hexsha := g_head_hexsha g;
     g_is_dirty := g_is_dirty g;
     g_commit_hexsha := fun rev => if bool_decide (rev = Some name)
                                   then g_head_hexsha g else g_commit_hexsha g rev;
     g_checkout_error := g_checkout_error g;
     g_create_head_error := g_create_head_error g |}.

Definition git_checkout (name : string) : M St unit :=
  g <- gets git ;;
  match g_checkout_error g name with
  | Some e => raise e
  | None => set_git (checked_out g name)
  end.

Definition git_create_head (name : string) : M St unit :=
  g <- gets git ;;
  match g_create_head_error g name with
  | Some e => raise e
  | None => set_git (head_created g name)
  end.

(** [checkout_branch] (lines 534-542). *)
Definition checkout_branch (branch_name : string) : M St unit :=
  dirty <- is_dirty ;;
  if dirty then
    raise (Exn ValueError
      "Working directory is dirty. Please commit or stash changes before switching branches.")
  else
    try_except
      (git_checkout branch_name ;;;
       io_emit (tool_output ("Switched to branch '" +:+ branch_name +:+ "'.")))
      (fun e => bool_decide (exn_cls e = GitCommandError))
      (fun e => raise (Exn ValueError ("Could not checkout branch '" +:+ branch_name
                                       +:+ "': " +:+ exn_str e))).

(** [checkout_develop_branch] (lines 548-552). *)
Definition checkout_develop_branch : M St unit :=
  develop <- gets develop_branch ;;
  if truthy develop then checkout_branch (fmt develop)
  else raise (Exn ValueError "Develop branch name is not set.").

(** A naive local date and time, as [datetime.now()] returns it, and the
    wall clock at the moment of a call. *)
Record datetime := {
  year : nat; month : nat; day : nat; hour : nat; minute : nat; second : nat
}.

Record Clock := {
  now_local : datetime;   (* datetime.now() *)
  now_utc : datetime;     (* the same instant in UTC *)
}.

Definition decimal (n : nat) : string := NilZero.string_of_uint (Nat.to_uint n).

Fixpoint zeros (k : nat) : string :=
  match k with O => "" | S k' => String "0" (zeros k') end.

(** A decimal number zero-padded to [width] digits. *)
Definition padded (width n : nat) : string :=
  let d := decimal n in zeros (width - String.length d) +:+ d.

(** [strftime("%Y%m%d-%H%M%S")], for years 1000 to 9999. *)
Definition strftime_Ymd_HMS (t : datetime) : string :=
  padded 4 (year t) +:+ padded 2 (month t) +:+ padded 2 (day t) +:+ "-"
  +:+ padded 2 (hour t) +:+ padded 2 (minute t) +:+ padded 2 (second t).

(** [\w] on ASCII: letters, digits and the underscore.  On other
    characters Python's word class and [lower()] are those of Unicode, which
    strings of bytes do not carry: what is stated about a suffix below is
    stated of an ASCII suffix. *)
Definition is_word (c : ascii) : bool :=
  is_upper c || is_lower c || is_digit c || Ascii.eqb c "_".

(** [re.sub(r'[^\w\-]+', '-', s)]: every maximal run of characters that are
    neither word characters nor hyphens becomes one hyphen.  [in_run] tells
    that the previous character belonged to such a run. *)
Fixpoint re_sub_run (in_run : bool) (s : string) : string :=
  match s with
  | EmptyString => EmptyString
  | String c s' =>
      if is_word c || Ascii.eqb c "-" then String c (re_sub_run false s')
      else if in_run then re_sub_run true s'
      else String "-" (re_sub_run true s')
  end.

(** The sanitised suffix of line 578. *)
Definition safe_suffix (suffix : string) : string :=
  lower (strip_char "-" (re_sub_run false suffix)).

(** The branch name computed by lines 575-586 from the timestamp, the
    short hash and the suffix. *)
Definition feature_branch_name (timestamp short_hash : string)
    (suffix : option string) : string :=
  let base_name := "aider/feature-" +:+ timestamp +:+ "-" +:+ short_hash in
  let branch_name :=
    if truthy suffix then base_name +:+ "-" +:+ safe_suffix (fmt suffix)
    else base_name in
  let max_len := 100 in
  if (max_len <? String.length branch_name)%nat then take_str max_len branch_name
  else branch_name.

(** [create_feature_branch] (lines 554-601). *)
Definition create_feature_branch (clk : Clock) (suffix : option string) : M St string :=
  dirty <- is_dirty ;;
  if dirty then
    raise (Exn ValueError
      "Working directory is dirty. Please commit or stash changes before creating a new branch.")
  else
    current_branch <- (g <- gets git ;; lift (get_current_branch g)) ;;
    develop <- gets develop_branch ;;
    (if bool_decide (Some current_branch ≠ develop) then
       io_emit (tool_output ("Switching to develop branch '" +:+ fmt develop
                             +:+ "' to create feature branch...")) ;;;
       try_except checkout_develop_branch
         (fun e => bool_decide (exn_cls e = ValueError))
         (fun e => raise (Exn ValueError
            ("Could not switch to develop branch '" +:+ fmt develop
             +:+ "' to create feature branch: " +:+ exn_str e)))
     else ret tt) ;;;
    let timestamp := strftime_Ymd_HMS (now_local clk) in
    g <- gets git ;;
    let short_hash := match g_commit_hexsha g develop with
                      | Ok h => take_str 6 h
                      | Raise _ => "nohash"
                      end in
    let branch_name := feature_branch_name timestamp short_hash suffix in
    try_except
      (branches <- (g <- gets git ;; lift (g_branches g)) ;;
       if bool_decide (branch_name ∈ branches) then
         io_emit (tool_warning ("Branch '" +:+ branch_name
                                +:+ "' already exists. Checking it out.")) ;;;
         checkout_branch branch_name ;;;
         ret branch_name
       else
         git_create_head branch_name ;;;
         git_checkout branch_name ;;;
         io_emit (tool_output ("Created and switched to new branch '" +:+ branch_name
                               +:+ "'.")) ;;;
         ret branch_name)
      (fun e => bool_decide (exn_cls e = GitCommandError))
      (fun e => raise (Exn ValueError
         ("Could not create or checkout feature branch '" +:+ branch_name
          +:+ "': " +:+ exn_str e))).

(** Lower-case letters, digits, the underscore and the hyphen. *)
Definition is_safe_char (c : ascii) : bool :=
  is_lower c || is_digit c || Ascii.eqb c "_" || Ascii.eqb c "-".

(** The ranges of the fields that matter to the width of the timestamp. *)
Definition valid_datetime (t : datetime) : Prop :=
  year t < 100 * 100 /\ month t < 100 /\ day t < 100 /\
  hour t < 100 /\ minute t < 100 /\ second t < 100.

(** The branch name as the specification words it: the timestamp is taken
    in UTC and every run of non-word characters of the suffix, hyphens
    included, collapses to one hyphen. *)
Fixpoint spec_collapse (in_run : bool) (s : string) : string :=
  match s with
  | EmptyString => EmptyString
  | String c s' =>
      if is_word c then String c (spec_collapse false s')
      else if in_run then spec_collapse true s'
      else String "-" (spec_collapse true s')
  end.

Definition spec_sanitize (suffix : string) : string :=
  lower (strip_char "-" (spec_collapse false suffix)).

Definition spec_feature_branch_name (clk : Clock) (short_hash : string)
    (suffix : option string) : string :=
  let name := "aider/feature-" +:+ strftime_Ymd_HMS (now_utc clk) +:+ "-" +:+ short_hash
              +:+ (if truthy suffix then "-" +:+ spec_sanitize (fmt suffix) else "") in
  take_str 100 name.

(** The sanitised suffix as the amended claim words it.  A kept character
    is a word character or a hyphen; the suffix is cut into its maximal
    runs of kept and of other characters; a run of other characters becomes
    one hyphen; hyphens are trimmed at both ends and letters lower-cased. *)
Definition kept (c : ascii) : bool := is_word c || Ascii.eqb c "-".

Fixpoint runs (s : string) : list (bool * string) :=
  match s with
  | EmptyString => []
  | String c s' =>
      match runs s' with
      | (k, r) :: rest =>
          if Bool.eqb k (kept c) then (k, String c r) :: rest
          else (kept c, String c EmptyString) :: (k, r) :: rest
      | [] => [(kept c, String c EmptyString)]
      end
  end.

Definition hyphenate (rs : list (bool * string)) : string :=
  String.concat "" (map (fun kr : bool * string => if fst kr then snd kr else "-") rs).

Definition sanitized (suffix : string) : string :=
  lower (strip_char "-" (hyphenate (runs suffix))).

(** *** Listing branches (lines 603-612) *)

(** The order of [sorted] on strings: character by character, a proper
    prefix first. *)
Definition str_le (a b : string) : Prop := String.leb a b = true.

#[global] Instance str_le_dec : RelDecision str_le.
Proof. intros a b. unfold str_le. apply _. Defined.

(** [sorted(xs)] *)
Definition sorted (xs : list string) : list string := merge_sort str_le xs.

(** [list_aider_branches] (lines 603-612). *)
Definition list_aider_branches : M St (list string) :=
  try_except
    (branches <- (g <- gets git ;; lift (g_branches g)) ;;
     let aider_branches : gset string :=
       list_to_set (filter (fun name => String.prefix "aider/" name = true) branches) in
     primary <- gets primary_branch ;;
     let aider_branches :=
       if truthy primary then {[ fmt primary ]} ∪ aider_branches else aider_branches in
     ret (sorted (elements aider_branches)))
    (fun _ => true)
    (fun e => raise (Exn ValueError ("Could not list relevant branches: " +:+ exn_str e))).

End Branches.

(** ** Paths, the ignore filter and the tracked files (lines 328-460) *)

Module Files.

(** *** pathlib on POSIX

    A pure path is its anchor and its components.  The anchor is empty for
    a relative path, one slash, or two slashes: exactly two leading slashes
    are a root of their own, three or more count as one.  Parsing drops
    empty and [.] components and keeps [..]; no operation below looks at
    the file system, so [..] is never resolved. *)
Inductive root_kind := no_root | one_slash | two_slashes.

#[global] Instance root_kind_eq_dec : EqDecision root_kind.
Proof. solve_decision. Defined.

Record PurePath := { anchor : root_kind; parts : list string }.

(** Whether the path is absolute. *)
Definition anchored (p : PurePath) : bool :=
  match anchor p with
  | no_root => false
  | _ => true
  end.

Fixpoint split_slash (s : string) (cur : string) : list string :=
  match s with
  | EmptyString => [cur]
  | String c s' =>
      if Ascii.eqb c "/" then cur :: split_slash s' EmptyString
      else split_slash s' (cur +:+ String c EmptyString)
  end.

Definition is_component (c : string) : bool :=
  negb (String.eqb c "" || String.eqb c ".").

(** The root that [posixpath.splitroot] finds. *)
Definition splitroot (s : string) : root_kind :=
  if String.prefix "//" s && negb (String.prefix "///" s) then two_slashes
  else if String.prefix "/" s then one_slash
  else no_root.

(** [Path(s)] *)
Definition Path (s : string) : PurePath :=
  {| anchor := splitroot s;
     parts := filter (fun c => is_component c = true) (split_slash s "") |}.

(** [a / b] *)
Definition joinpath (a b : PurePath) : PurePath :=
  if anchored b then b
  else {| anchor := anchor a; parts := parts a ++ parts b |}.

(** [strip_prefix pre l] is the rest of [l] after [pre], if [l] starts
    with [pre]. *)
Fixpoint strip_prefix (pre l : list string) : option (list string) :=
  match pre, l with
  | [], _ => Some l
  | p :: pre', x :: l' => if String.eqb p x then strip_prefix pre' l' else None
  | _ :: _, [] => None
  end.

(** [p.relative_to(other)], which raises [ValueError] unless [other] is a
    lexical ancestor of [p] or [p] itself; paths with different anchors are
    never related. *)
Definition relative_to (p other : PurePath) : option PurePath :=
  if bool_decide (anchor p = anchor other) then
    match strip_prefix (parts other) (parts p) with
    | Some rest => Some {| anchor := no_root; parts := rest |}
    | None => None
    end
  else None.

(** [str(p)] *)
Definition path_str (p : PurePath) : string :=
  let root := match anchor p with
              | no_root => ""
              | one_slash => "/"
              | two_slashes => "//"
              end in
  match parts p with
  | [] => if anchored p then root else "."
  | _ => root +:+ String.concat "/" (parts p)
  end.

(** [other in p.parents or p == other], for relative paths. *)
Definition is_self_or_parent (other p : PurePath) : bool :=
  match strip_prefix (parts other) (parts p) with
  | Some _ => true
  | None => false
  end.

(** *** The handle and its surroundings *)

Record Config := {
  root : string;                       (* self.root *)
  subtree_only : bool;
  aider_ignore_file : option string;   (* the configured ignore-pattern file *)
  (* what [str(e)] is for the [ValueError] that [p.relative_to(other)]
     raises, given [str(p)] and [str(other)]: the wording differs between
     the versions of pathlib *)
  relative_to_error : string -> string -> string;
}.

(** One entry that [next(iterator)] yields while the head tree is
    traversed, or the exception it raises instead.  [commit.tree.traverse()]
    is a generator, so it is finished once it has raised: of a list of
    entries only those before the first [ItemRaises] are ever yielded, and
    the [next] after it raises [StopIteration]. *)
Inductive tree_item :=
  | Item (type : string) (path : string)
  | ItemRaises (e : exn).

(** What a call finds outside the handle: the working directory, the clock
    (in microseconds), the ignore-pattern file (its modification time and
    lines, if it is a file), the head commit, the traversal of a commit's
    tree, the index, and the pattern matcher of the [pathspec] library. *)
Record World := {
  w_cwd : string;                               (* Path.cwd().resolve() *)
  w_time : Z;                                   (* time.time() *)
  w_ignore_file : option (Z * list string);
  w_head_commit : result string;                (* repo.head.commit *)
  w_tree : string -> list tree_item;            (* commit.tree.traverse() *)
  w_index : result (list string);               (* index.entries.keys() *)
  w_match_file : list string -> string -> bool; (* PathSpec.from_lines(..).match_file *)
}.

Definition one_second : Z := 1000000.

(** The fields of [self] in use, the notifier's transcript, and the store of
    [set] objects: a set is named by its position in [heap], so that two
    variables may name the same set. *)
Record St := {
  normalized_path : gmap string string;
  tree_files : gmap string nat;
  heap : list (gset string);
  ignore_file_cache : gmap string bool;
  aider_ignore_ts : Z;
  aider_ignore_last_check : Z;
  aider_ignore_spec : option (list string);
  git_repo_error : option exn;
  io : list io_event;
}.

Definition with_normalized_path (m : gmap string string) (s : St) : St :=
  {| normalized_path := m; tree_files := tree_files s; heap := heap s;
     ignore_file_cache := ignore_file_cache s; aider_ignore_ts := aider_ignore_ts s;
     aider_ignore_last_check := aider_ignore_last_check s;
     aider_ignore_spec := aider_ignore_spec s; git_repo_error := git_repo_error s;
     io := io s |}.

Definition with_tree_files (m : gmap string nat) (s : St) : St :=
  {| normalized_path := normalized_path s; tree_files := m; heap := heap s;
     ignore_file_cache := ignore_file_cache s; aider_ignore_ts := aider_ignore_ts s;
     aider_ignore_last_check := aider_ignore_last_check s;
     aider_ignore_spec := aider_ignore_spec s; git_repo_error := git_repo_error s;
     io := io s |}.

Definition with_heap (h : list (gset string)) (s : St) : St :=
  {| normalized_path := normalized_path s; tree_files := tree_files s; heap := h;
     ignore_file_cache := ignore_file_cache s; aider_ignore_ts := aider_ignore_ts s;
     aider_ignore_last_check := aider_ignore_last_check s;
     aider_ignore_spec := aider_ignore_spec s; git_repo_error := git_repo_error s;
     io := io s |}.

Definition with_ignore_file_cache (m : gmap string bool) (s : St) : St :=
  {| normalized_path := normalized_path s; tree_files := tree_files s; heap := heap s;
     ignore_file_cache := m; aider_ignore_ts := aider_ignore_ts s;
     aider_ignore_last_check := aider_ignore_last_check s;
     aider_ignore_spec := aider_ignore_spec s; git_repo_error := git_repo_error s;
     io := io s |}.

Definition with_last_check (t : Z) (s : St) : St :=
  {| normalized_path := normalized_path s; tree_files := tree_files s; heap := heap s;
     ignore_file_cache := ignore_file_cache s; aider_ignore_ts := aider_ignore_ts s;
     aider_ignore_last_check := t;
     aider_ignore_spec := aider_ignore_spec s; git_repo_error := git_repo_error s;
     io := io s |}.

(** Lines 410-416: a new time stamp, an empty result cache, a new spec. *)
Definition with_ignore_spec (mtime : Z) (lines : list string) (s : St) : St :=
  {| normalized_path := normalized_path s; tree_files := tree_files s; heap := heap s;
     ignore_file_cache := ∅; aider_ignore_ts := mtime;
     aider_ignore_last_check := aider_ignore_last_check s;
     aider_ignore_spec := Some lines; git_repo_error := git_repo_error s;
     io := io s |}.

Definition with_git_repo_error (e : exn) (s : St) : St :=
  {| normalized_path := normalized_path s; tree_files := tree_files s; heap := heap s;
     ignore_file_cache := ignore_file_cache s; aider_ignore_ts := aider_ignore_ts s;
     aider_ignore_last_check := aider_ignore_last_check s;
     aider_ignore_spec := aider_ignore_spec s; git_repo_error := Some e;
     io := io s |}.

Definition io_emit (ev : io_event) : M St unit :=
  modify (fun s =>
  {| normalized_path := normalized_path s; tree_files := tree_files s; heap := heap s;
     ignore_file_cache := ignore_file_cache s; aider_ignore_ts := aider_ignore_ts s;
     aider_ignore_last_check := aider_ignore_last_check s;
     aider_ignore_spec := aider_ignore_spec s; git_repo_error := git_repo_error s;
     io := io s ++ [ev] |}).

(** The state of a handle that [__init__] has just built. *)
Definition init_state : St :=
  {| normalized_path := ∅; tree_files := ∅; heap := [];
     ignore_file_cache := ∅; aider_ignore_ts := 0; aider_ignore_last_check := 0;
     aider_ignore_spec := None; git_repo_error := None; io := [] |}.

(** *** Set objects *)

(** [set(xs)]: a new set object. *)
Definition set_new (xs : gset string) : M St nat :=
  h <- gets heap ;;
  modify (with_heap (h ++ [xs])) ;;;
  ret (length h).

(** The elements of the set object [l]. *)
Definition set_get (l : nat) : M St (gset string) :=
  h <- gets heap ;;
  match h !! l with
  | Some xs => ret xs
  | None => raise (Exn RuntimeError "no such object")
  end.

(** [l.add(x)]: the object [l] is changed in place. *)
Definition set_add (l : nat) (x : string) : M St unit :=
  xs <- set_get l ;;
  h <- gets heap ;;
  modify (with_heap (<[l := {[x]} ∪ xs]> h)).

(** *** [normalize_path] (lines 385-393) *)

(** Line 391: the path relative to the root, as a string. *)
Definition relative_to_root (cfg : Config) (path : string) : result string :=
  let joined := joinpath (Path (root cfg)) (Path path) in
  match relative_to joined (Path (root cfg)) with
  | Some rel => Ok (path_str rel)
  | None => Raise (Exn ValueError
                     (relative_to_error cfg (path_str joined)
                        (path_str (Path (root cfg)))))
  end.

Definition normalize_path (cfg : Config) (path : string) : M St string :=
  let orig_path := path in
  memo <- gets normalized_path ;;
  if truthy (memo !! orig_path) then ret (fmt (memo !! orig_path))
  else
    path <- lift (relative_to_root cfg path) ;;
    memo <- gets normalized_path ;;
    modify (with_normalized_path (<[orig_path := path]> memo)) ;;;
    ret path.

(** *** The ignore filter (lines 395-460) *)

(** [refresh_aider_ignore] (lines 395-416). *)
Definition refresh_aider_ignore (cfg : Config) (w : World) : M St unit :=
  if negb (truthy (aider_ignore_file cfg)) then ret tt
  else
    let current_time := w_time w in
    last_check <- gets aider_ignore_last_check ;;
    if (current_time - last_check <? one_second)%Z then ret tt
    else
      modify (with_last_check current_time) ;;;
      match w_ignore_file w with
      | None => ret tt
      | Some (mtime, lines) =>
          ts <- gets aider_ignore_ts ;;
          if bool_decide (mtime ≠ ts) then modify (with_ignore_spec mtime lines)
          else ret tt
      end.

(** Lines 438-450: whether the subtree-only rule ignores [fname]. *)
Definition outside_subtree (cfg : Config) (w : World) (fname : string) : M St bool :=
  try_except
    (fname_path <- normalize_path cfg fname ;;
     match relative_to (Path (w_cwd w)) (Path (root cfg)) with
     | Some cwd_path => ret (negb (is_self_or_parent cwd_path (Path fname_path)))
     | None => raise (Exn ValueError
                        (relative_to_error cfg (path_str (Path (w_cwd w)))
                           (path_str (Path (root cfg)))))
     end)
    (fun e => bool_decide (exn_cls e = ValueError))
    (fun _ => ret true).

(** [self.aider_ignore_spec.match_file(fname)]; the attribute is [None]
    until the first refresh that reads the file. *)
Definition match_file (w : World) (fname : string) : M St bool :=
  spec <- gets aider_ignore_spec ;;
  match spec with
  | Some lines => ret (w_match_file w lines fname)
  | None => raise (Exn AttributeError "'NoneType' object has no attribute 'match_file'")
  end.

(** [ignored_file_raw] (lines 437-460). *)
Definition ignored_file_raw (cfg : Config) (w : World) (fname : string) : M St bool :=
  outside <- (if subtree_only cfg then outside_subtree cfg w fname else ret false) ;;
  if outside : bool then ret true
  else if negb (truthy (aider_ignore_file cfg)) || negb (bool_decide (is_Some (w_ignore_file w)))
  then ret false
  else
    normalized <- try_except (n <- normalize_path cfg fname ;; ret (Some n))
                    (fun e => bool_decide (exn_cls e = ValueError))
                    (fun _ => ret None) ;;
    match normalized with
    | None => ret true
    | Some fname => match_file w fname
    end.

(** [ignored_file] (lines 427-435). *)
Definition ignored_file (cfg : Config) (w : World) (fname : string) : M St bool :=
  refresh_aider_ignore cfg w ;;;
  cache <- gets ignore_file_cache ;;
  match cache !! fname with
  | Some result => ret result
  | None =>
      result <- ignored_file_raw cfg w fname ;;
      cache <- gets ignore_file_cache ;;
      modify (with_ignore_file_cache (<[fname := result]> cache)) ;;;
      ret result
  end.

(** *** [get_tracked_files] (lines 328-383) *)

(** The loop of lines 350-364 over the entries of the head tree. *)
Fixpoint traverse (items : list tree_item) (files : nat) : M St unit :=
  match items with
  | [] => ret tt
  | Item type path :: rest =>
      (if String.eqb type "blob" then set_add files path else ret tt) ;;;
      traverse rest files
  | ItemRaises e :: _ =>
      if bool_decide (exn_cls e = IndexError) then
        (* line 362 goes on to the next [next(iterator)], which finds the
           generator finished: [StopIteration], line 364 *)
        io_emit (tool_warning
          "GitRepo: Index error encountered while reading git tree object. Skipping.")
      else raise e
  end.

(** [[self.normalize_path(path) for path in paths]] *)
Fixpoint normalize_all (cfg : Config) (paths : list string) : M St (list string) :=
  match paths with
  | [] => ret []
  | path :: rest =>
      p <- normalize_path cfg path ;;
      ps <- normalize_all cfg rest ;;
      ret (p :: ps)
  end.

(** [files.update(self.normalize_path(path) for path in paths)]: the paths
    are normalised and added to the object one after the other. *)
Fixpoint update_normalized (cfg : Config) (files : nat) (paths : list string)
    : M St unit :=
  match paths with
  | [] => ret tt
  | path :: rest =>
      p <- normalize_path cfg path ;;
      set_add files p ;;;
      update_normalized cfg files rest
  end.

(** [[fname for fname in files if not self.ignored_file(fname)]] *)
Fixpoint filter_ignored (cfg : Config) (w : World) (fnames : list string)
    : M St (list string) :=
  match fnames with
  | [] => ret []
  | fname :: rest =>
      ignored <- ignored_file cfg w fname ;;
      res <- filter_ignored cfg w rest ;;
      ret (if ignored : bool then res else fname :: res)
  end.

(** Lines 337-340 and 366-369. *)
Definition unable_to_list (err : exn) : M St unit :=
  modify (with_git_repo_error err) ;;;
  io_emit (tool_error ("Unable to list files in git repo: " +:+ exn_str err)) ;;;
  io_emit (tool_output "Is your git repo corrupted?").

(** Lines 373-383: the staged paths join [files], then the ignored names
    are dropped. *)
Definition add_staged_and_filter (cfg : Config) (w : World) (files : nat)
    : M St (list string) :=
  try_except
    (staged_files <- lift (w_index w) ;;
     update_normalized cfg files staged_files)
    (fun e => ANY_GIT_ERROR (exn_cls e))
    (fun err => io_emit (tool_error ("Unable to read staged files: " +:+ exn_str err))) ;;;
  all <- set_get files ;;
  filter_ignored cfg w (elements all).

(** Lines 344-371, for the head commit [commit]: the set object that
    [files] names afterwards, or [None] where the method returns the empty
    list at once. *)
Definition tree_paths (cfg : Config) (w : World) (commit : string) (files : nat)
    : M St (option nat) :=
  cache <- gets tree_files ;;
  match cache !! commit with
  | Some cached => ret (Some cached)
  | None =>
      traversed <- try_except (traverse (w_tree w commit) files ;;; ret true)
                     (fun e => ANY_GIT_ERROR (exn_cls e))
                     (fun err => unable_to_list err ;;; ret false) ;;
      if traversed : bool then
        paths <- set_get files ;;
        normalized <- normalize_all cfg (elements paths) ;;
        files <- set_new (list_to_set normalized) ;;
        copy <- set_new (list_to_set normalized) ;;
        cache <- gets tree_files ;;
        modify (with_tree_files (<[commit := copy]> cache)) ;;;
        ret (Some files)
      else ret None
  end.

(** [get_tracked_files] (lines 328-383); the handle has a repository. *)
Definition get_tracked_files (cfg : Config) (w : World) : M St (list string) :=
  match w_head_commit w with
  | Raise e =>
      if bool_decide (exn_cls e = ValueError) then
        files <- set_new ∅ ;;
        add_staged_and_filter cfg w files
      else if ANY_GIT_ERROR (exn_cls e) then unable_to_list e ;;; ret []
      else raise e
  | Ok commit =>
      files <- set_new ∅ ;;
      files <- tree_paths cfg w commit files ;;
      match files with
      | Some files => add_staged_and_filter cfg w files
      | None => ret []
      end
  end.

(** *** The tracked files as the specification words them *)

(** The entries that the traversal yields, and the exception that ends it
    if one does. *)
Fixpoint yielded (items : list tree_item) : list tree_item :=
  match items with
  | Item type path :: rest => Item type path :: yielded rest
  | _ => []
  end.

Fixpoint ending (items : list tree_item) : option exn :=
  match items with
  | [] => None
  | Item _ _ :: rest => ending rest
  | ItemRaises e :: _ => Some e
  end.

(** The blob paths that the traversal of the head commit's tree yields;
    none if there is no head commit. *)
Definition head_blobs (w : World) : list string :=
  match w_head_commit w with
  | Ok commit =>
      omap (fun it => match it with
                      | Item type path => if String.eqb type "blob" then Some path else None
                      | ItemRaises _ => None
                      end) (yielded (w_tree w commit))
  | Raise _ => []
  end.

Definition staged_paths (w : World) : list string :=
  match w_index w with Ok ps => ps | Raise _ => [] end.

(** The normalised paths of the head tree and of the index. *)
Definition spec_candidates (cfg : Config) (w : World) : gset string :=
  list_to_set (omap (fun p => match relative_to_root cfg p with
                              | Ok n => Some n
                              | Raise _ => None
                              end) (head_blobs w ++ staged_paths w)).

(** *** A path outside the root *)

(** [P] is outside the root when it is absolute and either has another
    anchor than the root or the root's components do not begin it. *)
Definition outside_root (cfg : Config) (P : string) : Prop :=
  anchored (Path P) = true /\
  (anchor (Path P) <> anchor (Path (root cfg)) \/
   strip_prefix (parts (Path (root cfg))) (parts (Path P)) = None).

(** Every memoised path is what line 391 computes for it. *)
Definition memo_ok (cfg : Config) (s : St) : Prop :=
  forall k v, normalized_path s !! k = Some v -> relative_to_root cfg k = Ok v.


(** *** The cache of tree files across calls *)

(** The set object cached for commit [c] holds the path [q]. *)
Definition cached (c q : string) (s : St) : Prop :=
  exists l S, tree_files s !! c = Some l /\ heap s !! l = Some S /\ q ∈ S.

(** A handle whose ignore filter has nothing to consult, and a result
    cache as such a handle fills it. *)
Definition quiet (cfg : Config) : Prop :=
  subtree_only cfg = false /\ truthy (aider_ignore_file cfg) = false.

Definition cache_false (s : St) : Prop :=
  forall k b, ignore_file_cache s !! k = Some b -> b = false.

(** Set objects are never removed and only grow. *)
Definition heap_le (h h' : list (gset string)) : Prop :=
  forall l S, h !! l = Some S -> exists S', h' !! l = Some S' /\ S ⊆ S'.

(** [s'] comes after [s]: the entries of [tree_files] are kept, the set
    objects have grown, and the memo and the result cache are still sound.
    [ext0] moreover leaves [tree_files] alone. *)
Definition ext (cfg : Config) (s s' : St) : Prop :=
  (forall c l, tree_files s !! c = Some l -> tree_files s' !! c = Some l) /\
  heap_le (heap s) (heap s') /\
  (memo_ok cfg s -> memo_ok cfg s') /\
  (quiet cfg -> cache_false s -> cache_false s').

Definition ext0 (cfg : Config) (s s' : St) : Prop :=
  tree_files s' = tree_files s /\
  heap_le (heap s) (heap s') /\
  (memo_ok cfg s -> memo_ok cfg s') /\
  (quiet cfg -> cache_false s -> cache_false s').

Definition ext0_frame (cfg : Config) {A} (m : M St A) : Prop :=
  forall s, ext0 cfg s (snd (m s)).

Definition ext_frame (cfg : Config) {A} (m : M St A) : Prop :=
  forall s, ext cfg s (snd (m s)).

(** [m], started after [s0] with [tree_files] as in [s0], ends after [s0]. *)
Definition after0 (cfg : Config) (s0 : St) {A} (m : M St A) : Prop :=
  forall s, ext0 cfg s0 s -> ext cfg s0 (snd (m s)).

(** The state after a series of calls of [get_tracked_files], one for each
    world of the list. *)
Fixpoint after_calls (cfg : Config) (ws : list World) (s : St) : St :=
  match ws with
  | [] => s
  | w :: rest => after_calls cfg rest (snd (get_tracked_files cfg w s))
  end.

(** *** Further notions of paths, the ignore filter and the tracked files *)

(** A component has no slash. *)
Definition no_slash (c : string) : bool :=
  all_chars (fun a => negb (Ascii.eqb a "/")) c.

(** The components of a parsed path: not empty, not [.], without slash. *)
Definition component (c : string) : Prop :=
  is_component c = true /\ no_slash c = true.

(** [s'] is [s] but for the memo of normalised paths. *)
Definition memo_only (s s' : St) : Prop :=
  s' = with_normalized_path (normalized_path s') s.

Definition memo_frame {A} (m : M St A) : Prop :=
  forall s, memo_only s (snd (m s)).

(** No refresh of the ignore rules is due in [s]. *)
Definition settled (cfg : Config) (w : World) (s : St) : Prop :=
  truthy (aider_ignore_file cfg) = false \/
  (w_time w - aider_ignore_last_check s < one_second)%Z.

(** The handle [s] with the transcript [evs]. *)
Definition with_io (evs : list io_event) (s : St) : St :=
  {| normalized_path := normalized_path s; tree_files := tree_files s; heap := heap s;
     ignore_file_cache := ignore_file_cache s; aider_ignore_ts := aider_ignore_ts s;
     aider_ignore_last_check := aider_ignore_last_check s;
     aider_ignore_spec := aider_ignore_spec s; git_repo_error := git_repo_error s;
     io := evs |}.

(** The path of a tree entry that is a blob. *)
Definition blob_of (it : tree_item) : option string :=
  match it with
  | Item type path => if String.eqb type "blob" then Some path else None
  | ItemRaises _ => None
  end.

(** The warning of lines 358-361, if the traversal is ended by an
    exception. *)
Definition skipped (items : list tree_item) : list io_event :=
  match ending items with
  | Some _ =>
      [tool_warning
         "GitRepo: Index error encountered while reading git tree object. Skipping."]
  | None => []
  end.

(** The traversal is ended by nothing but the end of the tree or an
    [IndexError]. *)
Definition readable (items : list tree_item) : Prop :=
  forall e, ending items = Some e -> exn_cls e = IndexError.

(** What line 391 makes of a path, if it is under the root. *)
Definition normal (cfg : Config) (p : string) : option string :=
  match relative_to_root cfg p with
  | Ok n => Some n
  | Raise _ => None
  end.

Definition relative (ps : list string) : Prop :=
  forall p, p ∈ ps -> anchored (Path p) = false.

(** [path_in_repo] (lines 462-469); the handle has a repository.  The
    method returns [None] for no path. *)
Definition path_in_repo (cfg : Config) (w : World) (path : option string)
    : M St (option bool) :=
  if negb (truthy path) then ret None
  else
    tracked <- get_tracked_files cfg w ;;
    let tracked_files : gset string := list_to_set tracked in
    p <- normalize_path cfg (fmt path) ;;
    ret (Some (bool_decide (p ∈ tracked_files))).

(** [is_dirty] (lines 492-496); [repo_is_dirty] is [self.repo.is_dirty]. *)
Definition is_dirty (cfg : Config) (w : World)
    (repo_is_dirty : option string -> result bool) (path : option string) : M St bool :=
  untracked <- (if truthy path then
                  known <- path_in_repo cfg w path ;;
                  ret (negb (default false known))
                else ret false) ;;
  if untracked : bool then ret true
  else lift (repo_is_dirty path).

(** The head tree cannot be listed: the head commit cannot be read, or the
    traversal of an uncached head tree is ended by [e]. *)
Definition listing_fails (w : World) (s : St) (e : exn) : Prop :=
  match w_head_commit w with
  | Raise e' => e' = e /\ exn_cls e <> ValueError
  | Ok c =>
      tree_files s !! c = None /\
      ending (w_tree w c) = Some e /\ exn_cls e <> IndexError
  end.

(** Whether the working directory, as a path under the root, begins the
    components of the normalised path [q]. *)
Definition under_cwd (cfg : Config) (w : World) (q : string) : bool :=
  match relative_to (Path (w_cwd w)) (Path (root cfg)) with
  | Some cwd_path => bool_decide (parts cwd_path `prefix_of` parts (Path q))
  | None => false
  end.

End Files.

(** ** Finding the repository (lines 86-117) *)

Module Discovery.






End Discovery.

(** ** Commit orchestration (lines 166-314) *)

Module Commit.

(** One message of the exchange sent to a text generator. *)
Record message := { role : string; content : string }.

(** A text generator: [token_count], [info.get("max_input_tokens")] and
    [simple_send_with_retries], each of which may raise. *)
Record Model := {
  token_count : list message -> result nat;
  max_input_tokens : result (option nat);
  simple_send_with_retries : list message -> result (option string);
}.

(** The constructor arguments [commit] reads, the constant
    [prompts.commit_system] and the helper [abs_root_path] (line 471), whose
    [utils.safe_abs_path] lives in another module.  [models] is [None]
    unless the constructor was given a list. *)
Record Config := {
  attribute_author : bool;
  attribute_committer : bool;
  attribute_commit_message_author : bool;
  attribute_commit_message_committer : bool;
  commit_prompt : option string;
  git_commit_verify : bool;
  models : option (list Model);
  commit_system : string;
  abs_root_path : string -> string;
}.

(** The repository as [commit] queries and commands it.  [r_commit] takes
    the arguments of [git commit] and the environment the command runs in,
    and gives the hexsha of the new head commit.  [r_files] and [r_world]
    are the settings and the surroundings with which [self.path_in_repo]
    runs while [get_diffs] does. *)
Record Repo := {
  r_is_dirty : result bool;                   (* repo.is_dirty() *)
  r_active_branch : result string;            (* repo.active_branch *)
  r_has_commits : result bool;                (* any(repo.iter_commits(active_branch)) *)
  r_files : Files.Config;
  r_world : Files.World;
  r_diff : list string -> result string;      (* repo.git.diff( *args ) *)
  r_add : string -> result unit;              (* repo.git.add(fname) *)
  r_config_user_name : result string;         (* repo.git.config("--get", "user.name") *)
  r_commit : list string -> gmap string string -> result string;
}.

(** What was written to the repository. *)
Inductive vcs_write :=
  | W_add (fname : string)
  | W_commit (cmd : list string) (env : gmap string string).

(** [os.environ], the notifier's transcript, the writes made to the
    repository so far, its head commit ([repo.head.commit.hexsha]), and the
    memo and caches of the handle, which [path_in_repo] reads and fills
    (the transcript is kept in [io]; the one inside [handle] is empty). *)
Record St := {
  environ : gmap string string;
  io : list io_event;
  writes : list vcs_write;
  head_commit : result string;
  handle : Files.St;
}.

Definition with_io (evs : list io_event) (s : St) : St :=
  {| environ := environ s; io := evs; writes := writes s;
     head_commit := head_commit s; handle := handle s |}.

Definition io_emit (ev : io_event) : M St unit :=
  modify (fun s => with_io (io s ++ [ev]) s).

Definition with_environ (e : gmap string string) (s : St) : St :=
  {| environ := e; io := io s; writes := writes s; head_commit := head_commit s;
     handle := handle s |}.

Definition set_environ (e : gmap string string) : M St unit :=
  modify (with_environ e).

Definition log_write (w : vcs_write) : M St unit :=
  modify (fun s => {| environ := environ s; io := io s;
                      writes := writes s ++ [w]; head_commit := head_commit s;
                      handle := handle s |}).

Definition set_head_commit (h : result string) : M St unit :=
  modify (fun s => {| environ := environ s; io := io s;
                      writes := writes s; head_commit := h; handle := handle s |}).

(** A query of the handle's files, run from here: it works on the memo
    and the caches, and reports to the same notifier. *)
Definition in_handle {A} (m : M Files.St A) : M St A :=
  fun s =>
    let '(res, f) := m (Files.with_io (io s) (handle s)) in
    (res, {| environ := environ s; io := Files.io f; writes := writes s;
             head_commit := head_commit s; handle := Files.with_io [] f |}).

(** [self.path_in_repo(fname)] (lines 462-469). *)
Definition path_in_repo (r : Repo) (fname : string) : M St (option bool) :=
  in_handle (Files.path_in_repo (r_files r) (r_world r) (Some fname)).

(** [os.environ.get(k)], [os.environ[k] = v] and [del os.environ[k]]. *)
Definition getenv (k : string) : M St (option string) :=
  gets (fun s => environ s !! k).

Definition putenv (k v : string) : M St unit :=
  e <- gets environ ;; set_environ (<[k := v]> e).

Definition delenv (k : string) : M St unit :=
  e <- gets environ ;;
  match e !! k with
  | Some _ => set_environ (delete k e)
  | None => raise (Exn KeyError k)
  end.

(** Lines 281-290 of [get_diffs]. *)
Definition current_branch_has_commits (r : Repo) : result bool :=
  match r_active_branch r with
  | Ok _ =>
      match r_has_commits r with
      | Ok b => Ok b
      | Raise e => if ANY_GIT_ERROR (exn_cls e) then Ok false else Raise e
      end
  | Raise e =>
      if bool_decide (exn_cls e = TypeError) || ANY_GIT_ERROR (exn_cls e)
      then Ok false else Raise e
  end.

(** Lines 295-298: an ["Added <path>"] line for each path not yet tracked;
    [path_in_repo] answers [None] for an empty name, which counts as not
    tracked. *)
Fixpoint added_markers (r : Repo) (fnames : list string) (diffs : string)
    : M St string :=
  match fnames with
  | [] => ret diffs
  | fname :: rest =>
      known <- path_in_repo r fname ;;
      if default false known then added_markers r rest diffs
      else added_markers r rest (diffs +:+ "Added " +:+ fname +:+ newline)
  end.

(** [get_diffs] (lines 278-314); [None] and the empty list of names are
    the same to it. *)
Definition get_diffs (r : Repo) (fnames : list string) : M St (option string) :=
  has_commits <- lift (current_branch_has_commits r) ;;
  diffs <- added_markers r fnames "" ;;
  try_except
    (if has_commits : bool then
       d <- lift (r_diff r ("HEAD" :: "--" :: fnames)) ;;
       ret (Some (diffs +:+ d))
     else
       let wd_args := "--" :: fnames in
       let index_args := "--cached" :: wd_args in
       d1 <- lift (r_diff r index_args) ;;
       d2 <- lift (r_diff r wd_args) ;;
       ret (Some (diffs +:+ d1 +:+ d2)))
    (fun e => ANY_GIT_ERROR (exn_cls e))
    (fun e => io_emit (tool_error ("Unable to diff: " +:+ exn_str e)) ;;; ret None).

(** The loop of lines 258-266 over the generators, in priority order. *)
Fixpoint ask_models (ms : list Model) (messages : list message)
    (commit_message : option string) : M St (option string) :=
  match ms with
  | [] => ret commit_message
  | model :: rest =>
      num_tokens <- lift (token_count model messages) ;;
      max_tokens <- lift (max_input_tokens model) ;;
      let max_tokens := default 0%nat max_tokens in
      if (0 <? max_tokens)%nat && (max_tokens <? num_tokens)%nat then
        ask_models rest messages commit_message
      else
        commit_message <- lift (simple_send_with_retries model messages) ;;
        if truthy commit_message then ret commit_message
        else ask_models rest messages commit_message
  end.

(** Lines 273-274: one pair of enclosing double quotes is removed. *)
Definition unquote (s : string) : string :=
  let n := String.length s in
  match String.get 0 s, String.get (n - 1) s with
  | Some a, Some b =>
      if Ascii.eqb a dquote && Ascii.eqb b dquote
      then strip (String.substring 1 (n - 2) s)
      else s
  | _, _ => s
  end.

(** [get_commit_message] (lines 244-276). *)
Definition get_commit_message (cfg : Config) (diffs : string)
    (context : option string) : M St (option string) :=
  let diffs := "# Diffs:" +:+ newline +:+ diffs in
  let content := (if truthy context then fmt context +:+ newline else "")
                 +:+ diffs in
  let system_content := or_default (commit_prompt cfg) (commit_system cfg) in
  let messages := [ {| role := "system"; content := system_content |};
                    {| role := "user"; content := content |} ] in
  commit_message <-
    match models cfg with
    | Some ms => ask_models ms messages None
    | None => raise (Exn TypeError "'NoneType' object is not iterable")
    end ;;
  if truthy commit_message then
    ret (Some (unquote (strip (fmt commit_message))))
  else
    io_emit (tool_error "Failed to generate commit message!") ;;; ret None.

(** Lines 196-200: each path is staged on its own; a failure is reported
    and the loop goes on. *)
Fixpoint add_all (r : Repo) (fnames : list string) : M St unit :=
  match fnames with
  | [] => ret tt
  | fname :: rest =>
      try_except
        (lift (r_add r fname) ;;; log_write (W_add fname))
        (fun e => ANY_GIT_ERROR (exn_cls e))
        (fun err => io_emit (tool_error ("Unable to add " +:+ fname +:+ ": "
                                         +:+ exn_str err))) ;;;
      add_all r rest
  end.

(** [self.repo.git.commit(cmd)], run in the current environment. *)
Definition git_commit (r : Repo) (cmd : list string) : M St unit :=
  env <- gets environ ;;
  h <- lift (r_commit r cmd env) ;;
  log_write (W_commit cmd env) ;;;
  set_head_commit (Ok h).

(** [get_head_commit] (lines 498-502) and [get_head_commit_sha(short=True)]
    (lines 504-510). *)
Definition get_head_commit : M St (option string) :=
  h <- gets head_commit ;;
  match h with
  | Ok hexsha => ret (Some hexsha)
  | Raise e =>
      if bool_decide (exn_cls e = ValueError) || ANY_GIT_ERROR (exn_cls e)
      then ret None else raise e
  end.

Definition get_head_commit_sha_short : M St (option string) :=
  commit <- get_head_commit ;;
  match commit with
  | None => ret None
  | Some hexsha => ret (Some (take_str 7 hexsha))
  end.

(** ["aider: " + commit_message]; adding [None] to a string is a
    [TypeError]. *)
Definition add_prefix (commit_message : option string) : M St (option string) :=
  match commit_message with
  | Some m => ret (Some ("aider: " +:+ m))
  | None => raise (Exn TypeError "can only concatenate str (not NoneType) to str")
  end.

(** Lines 179-182. *)
Definition attribute_message (cfg : Config) (aider_edits : bool)
    (commit_message : option string) : M St (option string) :=
  if aider_edits && attribute_commit_message_author cfg then add_prefix commit_message
  else if attribute_commit_message_committer cfg then add_prefix commit_message
  else ret commit_message.

(** The [finally] block (lines 223-236). *)
Definition restore_env (cfg : Config) (aider_edits : bool)
    (original_committer_name_env original_author_name_env : option string)
    : M St unit :=
  (if attribute_committer cfg then
     match original_committer_name_env with
     | Some v => putenv "GIT_COMMITTER_NAME" v
     | None => delenv "GIT_COMMITTER_NAME"
     end
   else ret tt) ;;;
  (if aider_edits && attribute_author cfg then
     match original_author_name_env with
     | Some v => putenv "GIT_AUTHOR_NAME" v
     | None => delenv "GIT_AUTHOR_NAME"
     end
   else ret tt).

(** The [try] block and its handler (lines 216-222). *)
Definition attempt_commit (r : Repo) (cmd : list string) (commit_message : string)
    : M St (option (option string * string)) :=
  try_except
    (git_commit r cmd ;;;
     commit_hash <- get_head_commit_sha_short ;;
     io_emit (tool_output ("Commit " +:+ fmt commit_hash +:+ " " +:+ commit_message)) ;;;
     ret (Some (commit_hash, commit_message)))
    (fun e => ANY_GIT_ERROR (exn_cls e))
    (fun err => io_emit (tool_error ("Unable to commit: " +:+ exn_str err)) ;;;
                ret None).

(** Lines 205-236: the identity lookup, the overrides of the committer and
    author names, the commit attempt and the [finally] block. *)
Definition commit_under_overrides (cfg : Config) (r : Repo) (aider_edits : bool)
    (cmd : list string) (commit_message : string)
    : M St (option (option string * string)) :=
  original_user_name <- lift (r_config_user_name r) ;;
  original_committer_name_env <- getenv "GIT_COMMITTER_NAME" ;;
  let committer_name := original_user_name +:+ " (aider)" in
  (if attribute_committer cfg then putenv "GIT_COMMITTER_NAME" committer_name
   else ret tt) ;;;
  original_author_name_env <-
    (if aider_edits && attribute_author cfg then
       o <- getenv "GIT_AUTHOR_NAME" ;;
       putenv "GIT_AUTHOR_NAME" committer_name ;;;
       ret o
     else ret None) ;;
  try_finally
    (attempt_commit r cmd commit_message)
    (restore_env cfg aider_edits original_committer_name_env original_author_name_env).

(** Lines 191-203: the arguments of [git commit]; explicit paths are staged
    on the way. *)
Definition stage (cfg : Config) (r : Repo) (fnames : list string)
    (full_commit_message : string) : M St (list string) :=
  let cmd := ["-m"; full_commit_message]
             ++ (if git_commit_verify cfg then [] else ["--no-verify"]) in
  match fnames with
  | [] => ret (cmd ++ ["-a"])
  | _ =>
      let fnames := map (abs_root_path cfg) fnames in
      add_all r fnames ;;;
      ret (cmd ++ ["--"] ++ fnames)
  end.

(** Lines 184-185. *)
Definition or_placeholder (commit_message : option string) : string :=
  if truthy commit_message then fmt commit_message
  else "(no commit message provided)".

(** [commit] (lines 166-236).  It returns [None] where the method returns
    nothing, and the pair of the short hash and the message otherwise; the
    empty list stands for an absent or empty [fnames]. *)
Definition commit (cfg : Config) (r : Repo) (fnames : list string)
    (context message : option string) (aider_edits : bool)
    : M St (option (option string * string)) :=
  clean <- (match fnames with
            | [] => dirty <- lift (r_is_dirty r) ;; ret (negb dirty)
            | _ => ret false
            end) ;;
  if clean : bool then ret None else
  diffs <- get_diffs r fnames ;;
  if negb (truthy diffs) then ret None else
  commit_message <- (if truthy message then ret message
                     else get_commit_message cfg (fmt diffs) context) ;;
  commit_message <- attribute_message cfg aider_edits commit_message ;;
  let commit_message := or_placeholder commit_message in
  let full_commit_message := commit_message in
  cmd <- stage cfg r fnames full_commit_message ;;
  commit_under_overrides cfg r aider_edits cmd commit_message.

(** The overrides of lines 209-214, as a function of the environment. *)
Definition overridden (cfg : Config) (aider_edits : bool) (committer_name : string)
    (env : gmap string string) : gmap string string :=
  let env := if attribute_committer cfg
             then <["GIT_COMMITTER_NAME" := committer_name]> env else env in
  if aider_edits && attribute_author cfg
  then <["GIT_AUTHOR_NAME" := committer_name]> env else env.

(** A computation that leaves [os.environ] as it found it, whatever its
    outcome. *)
Definition env_frame {A} (m : M St A) : Prop :=
  forall s, environ (snd (m s)) = environ s.

(** [git add] fails on the paths [fnames] with errors of [ANY_GIT_ERROR]
    only. *)
Definition add_fails_softly (r : Repo) (fnames : list string) : Prop :=
  forall f e, In f fnames -> r_add r f = Raise e -> ANY_GIT_ERROR (exn_cls e) = true.

(** Writes that stage paths and commit nothing. *)
Definition only_adds (ws : list vcs_write) : Prop :=
  forall w, In w ws -> exists f, w = W_add f.

(** The repository is written to by [git add] only. *)
Definition staged_only (s s' : St) : Prop :=
  exists adds, writes s' = writes s ++ adds /\ only_adds adds /\
               head_commit s' = head_commit s.

Definition staged_frame {A} (m : M St A) : Prop :=
  forall s, staged_only s (snd (m s)).

(** What one turn of the loop of lines 259-266 comes to for a generator:
    it declines (its budget is exceeded, or it answers nothing), it answers
    with a text, or one of its three calls raises. *)
Inductive turn :=
  | Declines
  | Answers (text : string)
  | Fails (e : exn).

Definition consult (model : Model) (messages : list message) : turn :=
  match token_count model messages with
  | Raise e => Fails e
  | Ok num_tokens =>
      match max_input_tokens model with
      | Raise e => Fails e
      | Ok max_tokens =>
          if (0 <? default 0 max_tokens)%nat && (default 0 max_tokens <? num_tokens)%nat
          then Declines
          else match simple_send_with_retries model messages with
               | Raise e => Fails e
               | Ok answer => if truthy answer then Answers (fmt answer) else Declines
               end
      end
  end.

(** The exchange that [get_commit_message] sends (lines 245-256). *)
Definition exchange (cfg : Config) (diffs : string) (context : option string)
    : list message :=
  [ {| role := "system"; content := or_default (commit_prompt cfg) (commit_system cfg) |};
    {| role := "user";
       content := (if truthy context then fmt context +:+ newline else "")
                  +:+ "# Diffs:" +:+ newline +:+ diffs |} ].

End Commit.


(** ** Example repositories *)

Module Examples.
Import Branches.

(** A repository with the branches [master] and [develop], on [master],
    clean, every branch at the same commit. *)
Definition git_master_develop : Git :=
  {| g_branches := Ok ["master"; "develop"];
     g_active_branch := Ok "master";
     g_head_hexsha := Ok "abc123def4567890";
     g_is_dirty := Ok false;
     g_commit_hexsha := fun _ => Ok "abc123def4567890";
     g_checkout_error := fun _ => None;
     g_create_head_error := fun _ => None |}.

(** A repository whose [packed-refs] header GitPython does not accept:
    enumerating the branches raises [TypeError]. *)
Definition git_bad_packed_refs : Git :=
  {| g_branches := Raise (Exn TypeError "PackingType of packed-Refs not understood");
     g_active_branch := Ok "master";
     g_head_hexsha := Ok "abc123def4567890";
     g_is_dirty := Ok false;
     g_commit_hexsha := fun _ => Ok "abc123def4567890";
     g_checkout_error := fun _ => None;
     g_create_head_error := fun _ => None |}.

(** A repository with the same branches whose [HEAD] cannot be read. *)
Definition git_lost_head : Git :=
  {| g_branches := Ok ["master"; "develop"];
     g_active_branch := Raise (Exn GitError "HEAD is broken");
     g_head_hexsha := Raise (Exn GitError "HEAD is broken");
     g_is_dirty := Ok false;
     g_commit_hexsha := fun _ => Ok "abc123def4567890";
     g_checkout_error := fun _ => None;
     g_create_head_error := fun _ => None |}.

(** A clean repository on [develop] that refuses to check out any branch
    under [aider/]. *)
Definition git_checkout_refused : Git :=
  {| g_branches := Ok ["master"; "develop"];
     g_active_branch := Ok "develop";
     g_head_hexsha := Ok "abc123def4567890";
     g_is_dirty := Ok false;
     g_commit_hexsha := fun _ => Ok "abc123def4567890";
     g_checkout_error := fun name =>
       if String.prefix "aider/" name
       then Some (Exn GitCommandError "checkout failed") else None;
     g_create_head_error := fun _ => None |}.

Definition handle_checkout_refused : St :=
  {| git := git_checkout_refused; primary_branch_name := Some "main";
     primary_branch := Some "master"; develop_branch := Some "develop"; io := [] |}.

(** A repository with the branches [main] and [aider/feature-x]. *)
Definition git_main_feature : Git :=
  {| g_branches := Ok ["main"; "aider/feature-x"];
     g_active_branch := Ok "main";
     g_head_hexsha := Ok "abc123def4567890";
     g_is_dirty := Ok false;
     g_commit_hexsha := fun _ => Ok "abc123def4567890";
     g_checkout_error := fun _ => None;
     g_create_head_error := fun _ => None |}.

Definition handle_main_feature : St :=
  {| git := git_main_feature; primary_branch_name := Some "main";
     primary_branch := Some "main"; develop_branch := Some "main"; io := [] |}.

(** The handle after [__init__] on [git_master_develop]. *)
Definition handle_master_develop : St :=
  {| git := git_master_develop; primary_branch_name := Some "main";
     primary_branch := Some "master"; develop_branch := Some "develop"; io := [] |}.

(** 3 November 2026, 14:05:09 local time in a zone two hours ahead of UTC. *)
Definition clock_cet : Clock :=
  {| now_local := {| year := 2026; month := 11; day := 3;
                     hour := 14; minute := 5; second := 9 |};
     now_utc := {| year := 2026; month := 11; day := 3;
                   hour := 12; minute := 5; second := 9 |} |}.

(** A clean repository on [master] whose [develop] cannot be checked out. *)
Definition git_develop_locked : Git :=
  {| g_branches := Ok ["master"; "develop"];
     g_active_branch := Ok "master";
     g_head_hexsha := Ok "abc123def4567890";
     g_is_dirty := Ok false;
     g_commit_hexsha := fun _ => Ok "abc123def4567890";
     g_checkout_error := fun name =>
       if String.eqb name "develop"
       then Some (Exn GitCommandError "index.lock exists") else None;
     g_create_head_error := fun _ => None |}.

Definition handle_develop_locked : St :=
  {| git := git_develop_locked; primary_branch_name := Some "main";
     primary_branch := Some "master"; develop_branch := Some "develop"; io := [] |}.

(** A clean repository on [develop] that already has the feature branch of
    the moment [clock_cet]. *)
Definition git_feature_exists : Git :=
  {| g_branches := Ok ["master"; "develop"; "aider/feature-20261103-140509-abc123"];
     g_active_branch := Ok "develop";
     g_head_hexsha := Ok "abc123def4567890";
     g_is_dirty := Ok false;
     g_commit_hexsha := fun _ => Ok "abc123def4567890";
     g_checkout_error := fun _ => None;
     g_create_head_error := fun _ => None |}.

Definition handle_feature_exists : St :=
  {| git := git_feature_exists; primary_branch_name := Some "main";
     primary_branch := Some "master"; develop_branch := Some "develop"; io := [] |}.

(** The text of the [ValueError] of [relative_to] in the pathlib of these
    examples. *)
Definition not_in_subpath (p other : string) : string :=
  "'" +:+ p +:+ "' is not in the subpath of '" +:+ other +:+ "'".

(** A handle on [/repo] with no ignore-pattern file, and the same in
    subtree-only mode. *)
Definition files_config_plain : Files.Config :=
  {| Files.root := "/repo"; Files.subtree_only := false;
     Files.aider_ignore_file := None;
     Files.relative_to_error := not_in_subpath |}.

Definition files_config_subtree : Files.Config :=
  {| Files.root := "/repo"; Files.subtree_only := true;
     Files.aider_ignore_file := None;
     Files.relative_to_error := not_in_subpath |}.

(** The repository at head commit [c1], whose tree holds [a.txt]: first
    with [a.txt] alone in the index, then after [git add b.txt], then after
    [git rm --cached b.txt]. *)
Definition world_first : Files.World :=
  {| Files.w_cwd := "/repo"; Files.w_time := 1700000000000000;
     Files.w_ignore_file := None;
     Files.w_head_commit := Ok "c1";
     Files.w_tree := fun _ => [Files.Item "tree" "src"; Files.Item "blob" "a.txt"];
     Files.w_index := Ok ["a.txt"];
     Files.w_match_file := fun _ _ => false |}.

Definition world_staged : Files.World :=
  {| Files.w_cwd := "/repo"; Files.w_time := 1700000005000000;
     Files.w_ignore_file := None;
     Files.w_head_commit := Ok "c1";
     Files.w_tree := fun _ => [Files.Item "tree" "src"; Files.Item "blob" "a.txt"];
     Files.w_index := Ok ["a.txt"; "b.txt"];
     Files.w_match_file := fun _ _ => false |}.

Definition world_unstaged : Files.World :=
  {| Files.w_cwd := "/repo"; Files.w_time := 1700000009000000;
     Files.w_ignore_file := None;
     Files.w_head_commit := Ok "c1";
     Files.w_tree := fun _ => [Files.Item "tree" "src"; Files.Item "blob" "a.txt"];
     Files.w_index := Ok ["a.txt"];
     Files.w_match_file := fun _ _ => false |}.

(** A repository on [develop] with uncommitted changes. *)
Definition git_dirty_tree : Git :=
  {| g_branches := Ok ["master"; "develop"];
     g_active_branch := Ok "develop";
     g_head_hexsha := Ok "abc123def4567890";
     g_is_dirty := Ok true;
     g_commit_hexsha := fun _ => Ok "abc123def4567890";
     g_checkout_error := fun _ => None;
     g_create_head_error := fun _ => None |}.

Definition handle_dirty_tree : St :=
  {| git := git_dirty_tree; primary_branch_name := Some "main";
     primary_branch := Some "master"; develop_branch := Some "develop"; io := [] |}.

(** A handle with an ignore-pattern file, and the moments of one session:
    the file is missing at the first look, has appeared half a second
    later, and is looked at again after two seconds.  The matcher of these
    worlds knows literal names only. *)
Definition files_config_ignore : Files.Config :=
  {| Files.root := "/repo"; Files.subtree_only := false;
     Files.aider_ignore_file := Some "/repo/.aiderignore";
     Files.relative_to_error := not_in_subpath |}.

Definition world_no_ignore_file : Files.World :=
  {| Files.w_cwd := "/repo"; Files.w_time := 1700000000000000;
     Files.w_ignore_file := None;
     Files.w_head_commit := Ok "c1";
     Files.w_tree := fun _ => [Files.Item "blob" "a.txt"];
     Files.w_index := Ok ["a.txt"];
     Files.w_match_file := fun lines name => bool_decide (name ∈ lines) |}.

Definition world_ignore_file_appears : Files.World :=
  {| Files.w_cwd := "/repo"; Files.w_time := 1700000000500000;
     Files.w_ignore_file := Some (1700000000200000, ["a.txt"])%Z;
     Files.w_head_commit := Ok "c1";
     Files.w_tree := fun _ => [Files.Item "blob" "a.txt"];
     Files.w_index := Ok ["a.txt"];
     Files.w_match_file := fun lines name => bool_decide (name ∈ lines) |}.

Definition world_ignore_file_read : Files.World :=
  {| Files.w_cwd := "/repo"; Files.w_time := 1700000002000000;
     Files.w_ignore_file := Some (1700000000200000, ["a.txt"])%Z;
     Files.w_head_commit := Ok "c1";
     Files.w_tree := fun _ => [Files.Item "blob" "a.txt"];
     Files.w_index := Ok ["a.txt"];
     Files.w_match_file := fun lines name => bool_decide (name ∈ lines) |}.

(** The same file, rewritten a moment after it was read. *)
Definition world_ignore_file_rewritten : Files.World :=
  {| Files.w_cwd := "/repo"; Files.w_time := 1700000002400000;
     Files.w_ignore_file := Some (1700000002300000, ["b.txt"])%Z;
     Files.w_head_commit := Ok "c1";
     Files.w_tree := fun _ => [Files.Item "blob" "a.txt"];
     Files.w_index := Ok ["a.txt"];
     Files.w_match_file := fun lines name => bool_decide (name ∈ lines) |}.

(** A repository whose head tree has an entry that cannot be read. *)
Definition world_broken_tree : Files.World :=
  {| Files.w_cwd := "/repo"; Files.w_time := 1700000000000000;
     Files.w_ignore_file := None;
     Files.w_head_commit := Ok "c1";
     Files.w_tree := fun _ =>
       [Files.Item "blob" "a.txt";
        Files.ItemRaises (Exn ODBError "object not found")];
     Files.w_index := Ok ["a.txt"; "b.txt"];
     Files.w_match_file := fun _ _ => false |}.


(** The repository of [world_first] under a handle whose ignore-pattern
    file lists [b.txt]: before, while and after [b.txt] is staged. *)
Definition world_ignoring_first : Files.World :=
  {| Files.w_cwd := "/repo"; Files.w_time := 1700000000000000;
     Files.w_ignore_file := Some (1699999999000000, ["b.txt"])%Z;
     Files.w_head_commit := Ok "c1";
     Files.w_tree := fun _ => [Files.Item "tree" "src"; Files.Item "blob" "a.txt"];
     Files.w_index := Ok ["a.txt"];
     Files.w_match_file := fun lines name => bool_decide (name ∈ lines) |}.

Definition world_ignoring_staged : Files.World :=
  {| Files.w_cwd := "/repo"; Files.w_time := 1700000005000000;
     Files.w_ignore_file := Some (1699999999000000, ["b.txt"])%Z;
     Files.w_head_commit := Ok "c1";
     Files.w_tree := fun _ => [Files.Item "tree" "src"; Files.Item "blob" "a.txt"];
     Files.w_index := Ok ["a.txt"; "b.txt"];
     Files.w_match_file := fun lines name => bool_decide (name ∈ lines) |}.

Definition world_ignoring_unstaged : Files.World :=
  {| Files.w_cwd := "/repo"; Files.w_time := 1700000009000000;
     Files.w_ignore_file := Some (1699999999000000, ["b.txt"])%Z;
     Files.w_head_commit := Ok "c1";
     Files.w_tree := fun _ => [Files.Item "tree" "src"; Files.Item "blob" "a.txt"];
     Files.w_index := Ok ["a.txt"];
     Files.w_match_file := fun lines name => bool_decide (name ∈ lines) |}.

(** The repository of [world_first], seen from its directory [src]. *)
Definition world_in_src : Files.World :=
  {| Files.w_cwd := "/repo/src"; Files.w_time := 1700000000000000;
     Files.w_ignore_file := None;
     Files.w_head_commit := Ok "c1";
     Files.w_tree := fun _ => [Files.Item "blob" "src/a.py"; Files.Item "blob" "docs/readme.md"];
     Files.w_index := Ok ["src/a.py"; "docs/readme.md"];
     Files.w_match_file := fun _ _ => false |}.

(** A text generator whose service is down. *)
Definition model_down : Commit.Model :=
  {| Commit.token_count := fun _ => Ok 10;
     Commit.max_input_tokens := Ok None;
     Commit.simple_send_with_retries := fun _ =>
       Raise (Exn RuntimeError "service unavailable") |}.

(** A text generator that answers nothing. *)
Definition model_silent : Commit.Model :=
  {| Commit.token_count := fun _ => Ok 10;
     Commit.max_input_tokens := Ok (Some 1000);
     Commit.simple_send_with_retries := fun _ => Ok None |}.

(** A text generator that answers a quoted line within blanks. *)
Definition model_answering : Commit.Model :=
  {| Commit.token_count := fun _ => Ok 10;
     Commit.max_input_tokens := Ok None;
     Commit.simple_send_with_retries := fun _ =>
       Ok (Some ("  " +:+ String dquote ("Fix the parser" +:+ String dquote " "))) |}.

(** A handle whose first generator is silent and whose second answers. *)
Definition config_answering : Commit.Config :=
  {| Commit.attribute_author := false;
     Commit.attribute_committer := false;
     Commit.attribute_commit_message_author := false;
     Commit.attribute_commit_message_committer := false;
     Commit.commit_prompt := None;
     Commit.git_commit_verify := true;
     Commit.models := Some [model_silent; model_answering];
     Commit.commit_system := "Write a commit message.";
     Commit.abs_root_path := fun p => "/repo/" +:+ p |}.

(** A handle whose second generator is down, before the one that answers. *)
Definition config_service_down : Commit.Config :=
  {| Commit.attribute_author := false;
     Commit.attribute_committer := false;
     Commit.attribute_commit_message_author := false;
     Commit.attribute_commit_message_committer := false;
     Commit.commit_prompt := None;
     Commit.git_commit_verify := true;
     Commit.models := Some [model_silent; model_down; model_answering];
     Commit.commit_system := "Write a commit message.";
     Commit.abs_root_path := fun p => "/repo/" +:+ p |}.

(** A repository whose [git diff] fails. *)
Definition repo_diff_fails : Commit.Repo :=
  {| Commit.r_is_dirty := Ok true;
     Commit.r_active_branch := Ok "main";
     Commit.r_has_commits := Ok true;
     Commit.r_files := files_config_plain;
     Commit.r_world := world_first;
     Commit.r_diff := fun _ => Raise (Exn GitCommandError "bad revision 'HEAD'");
     Commit.r_add := fun _ => Ok tt;
     Commit.r_config_user_name := Ok "Ada";
     Commit.r_commit := fun _ _ => Ok "0123456789abcdef" |}.

(** A handle that attributes nothing and whose only generator is silent. *)
Definition config_plain : Commit.Config :=
  {| Commit.attribute_author := false;
     Commit.attribute_committer := false;
     Commit.attribute_commit_message_author := false;
     Commit.attribute_commit_message_committer := false;
     Commit.commit_prompt := None;
     Commit.git_commit_verify := true;
     Commit.models := Some [model_silent];
     Commit.commit_system := "Write a commit message.";
     Commit.abs_root_path := fun p => "/repo/" +:+ p |}.

(** A handle with every attribution enabled and the same generator. *)
Definition config_both_prefixes : Commit.Config :=
  {| Commit.attribute_author := true;
     Commit.attribute_committer := true;
     Commit.attribute_commit_message_author := true;
     Commit.attribute_commit_message_committer := true;
     Commit.commit_prompt := None;
     Commit.git_commit_verify := true;
     Commit.models := Some [model_silent];
     Commit.commit_system := "Write a commit message.";
     Commit.abs_root_path := fun p => "/repo/" +:+ p |}.

(** A repository with pending changes that accepts every command; its
    files are those of [world_first], with [a.txt] tracked. *)
Definition repo_dirty : Commit.Repo :=
  {| Commit.r_is_dirty := Ok true;
     Commit.r_active_branch := Ok "main";
     Commit.r_has_commits := Ok true;
     Commit.r_files := files_config_plain;
     Commit.r_world := world_first;
     Commit.r_diff := fun _ => Ok "diff --git a/a.txt b/a.txt";
     Commit.r_add := fun _ => Ok tt;
     Commit.r_config_user_name := Ok "Ada";
     Commit.r_commit := fun _ _ => Ok "0123456789abcdef" |}.

(** The same repository with no [user.name] configured: [git config --get]
    exits with status 1, which GitPython raises as [GitCommandError]. *)
Definition repo_no_user_name : Commit.Repo :=
  {| Commit.r_is_dirty := Ok true;
     Commit.r_active_branch := Ok "main";
     Commit.r_has_commits := Ok true;
     Commit.r_files := files_config_plain;
     Commit.r_world := world_first;
     Commit.r_diff := fun _ => Ok "diff --git a/a.txt b/a.txt";
     Commit.r_add := fun _ => Ok tt;
     Commit.r_config_user_name :=
       Raise (Exn GitCommandError "Cmd('git') failed due to: exit code(1)");
     Commit.r_commit := fun _ _ => Ok "0123456789abcdef" |}.

(** The same repository, except that [git add] fails on every path. *)
Definition repo_add_fails : Commit.Repo :=
  {| Commit.r_is_dirty := Ok true;
     Commit.r_active_branch := Ok "main";
     Commit.r_has_commits := Ok true;
     Commit.r_files := files_config_plain;
     Commit.r_world := world_first;
     Commit.r_diff := fun _ => Ok "diff --git a/a.txt b/a.txt";
     Commit.r_add := fun _ => Raise (Exn GitCommandError "pathspec did not match any files");
     Commit.r_config_user_name := Ok "Ada";
     Commit.r_commit := fun _ _ => Ok "0123456789abcdef" |}.

(** The same repository, except that [git commit] fails. *)
Definition repo_commit_fails : Commit.Repo :=
  {| Commit.r_is_dirty := Ok true;
     Commit.r_active_branch := Ok "main";
     Commit.r_has_commits := Ok true;
     Commit.r_files := files_config_plain;
     Commit.r_world := world_first;
     Commit.r_diff := fun _ => Ok "diff --git a/a.txt b/a.txt";
     Commit.r_add := fun _ => Ok tt;
     Commit.r_config_user_name := Ok "Ada";
     Commit.r_commit := fun _ _ => Raise (Exn GitCommandError "pre-commit hook failed") |}.

(** A process with [GIT_AUTHOR_NAME] set and [GIT_COMMITTER_NAME] unset,
    before any message or write. *)
Definition process_state : Commit.St :=
  {| Commit.environ := {[ "GIT_AUTHOR_NAME" := "Grace" ]};
     Commit.io := []; Commit.writes := [];
     Commit.head_commit := Ok "ffffffffffffffff";
     Commit.handle := Files.init_state |}.

End Examples.

(** * Properties *)

(** ** Branch-role resolution *)

Section BranchResolution.
Import Branches.






(** X2: the handler does what lines 163-164 say whenever the branches can be
    enumerated: the failure is reported, primary is the configured name or
    [main], develop is [develop] if it is a branch and the primary name
    otherwise. *)
Lemma fallback_when_branches_known (g : Git) (name : option string)
    (bs : list string) (e : exn) :
  g_branches g = Ok bs ->
  get_current_branch g = Raise e ->
  exists st,
    _determine_git_flow_branches (init_state g name) = (Ok tt, st) /\
    primary_branch st = Some (or_default name "main") /\
    develop_branch st = Some (if bool_decide ("develop" ∈ bs) then "develop"
                              else or_default name "main") /\
    io st = [tool_error ("Error determining Git Flow branches: " +:+ exn_str e
                         +:+ ". Falling back to defaults.")].
Proof.
  intros Hb Hc.
  unfold _determine_git_flow_branches, try_except, determine_try, determine_fallback,
    bind, gets, lift, init_state.
  cbn. rewrite Hb, Hc. cbn. rewrite Hb. cbn.
  destruct (bool_decide ("develop" ∈ bs)); cbn; eexists; repeat split; reflexivity.
Qed.

(** C9, at a repository whose branches cannot be enumerated: the
    [TypeError] raised on line 129 is caught, and line 164 raises it again,
    out of the resolver, with no develop branch set. *)
Theorem resolution_fallback_raises :
  exists st,
    _determine_git_flow_branches (init_state Examples.git_bad_packed_refs (Some "main"))
      = (Raise (Exn TypeError "PackingType of packed-Refs not understood"), st) /\
    primary_branch st = Some "main" /\
    develop_branch st = None.
Proof. eexists. repeat split; reflexivity. Qed.

End BranchResolution.

(** ** Feature branches *)

Section FeatureBranches.
Import Branches.

Lemma substring_0_length (n : nat) (s : string) :
  String.length (String.substring 0 n s) <= n.
Proof.
  revert s. induction n as [|n IH]; intros [|c s]; cbn; try lia.
  specialize (IH s). lia.
Qed.

Lemma substring_0_all (n : nat) (s : string) :
  String.length s <= n -> String.substring 0 n s = s.
Proof.
  revert s. induction n as [|n IH]; intros [|c s]; cbn; intros Hl; try done; try lia.
  f_equal. apply IH. lia.
Qed.

Lemma feature_branch_name_take (ts sh : string) (suffix : option string) :
  feature_branch_name ts sh suffix =
  take_str 100
    (if truthy suffix
     then ("aider/feature-" +:+ ts +:+ "-" +:+ sh) +:+ "-" +:+ safe_suffix (fmt suffix)
     else "aider/feature-" +:+ ts +:+ "-" +:+ sh).
Proof.
  unfold feature_branch_name, take_str.
  match goal with |- context [(100 <? ?n)%nat] => destruct (Nat.ltb_spec 100 n) end;
    [reflexivity|].
  symmetry. by apply substring_0_all.
Qed.

Lemma lower_ascii_safe (c : ascii) :
  is_word c || Ascii.eqb c "-" = true -> is_safe_char (lower_ascii c) = true.
Proof.
  destruct c as [[] [] [] [] [] [] [] []]; vm_compute; intros H;
    first [reflexivity | discriminate H].
Qed.

Lemma re_sub_run_chars (b : bool) (s : string) :
  all_chars (fun c => is_word c || Ascii.eqb c "-") (re_sub_run b s) = true.
Proof.
  revert b. induction s as [|c s IH]; intros b; cbn; [done|].
  destruct (is_word c || Ascii.eqb c "-") eqn:Hc; cbn.
  - by rewrite Hc, IH.
  - destruct b; cbn; by rewrite IH.
Qed.

Lemma lstrip_if_chars (p q : ascii -> bool) (s : string) :
  all_chars q s = true -> all_chars q (lstrip_if p s) = true.
Proof.
  induction s as [|c s IH]; cbn; [done|].
  intros [Hc Hs]%andb_true_iff. destruct (p c); cbn; [auto|]. by rewrite Hc, Hs.
Qed.

Lemma rstrip_if_chars (p q : ascii -> bool) (s : string) :
  all_chars q s = true -> all_chars q (rstrip_if p s) = true.
Proof.
  induction s as [|c s IH]; cbn; [done|].
  intros [Hc Hs]%andb_true_iff. specialize (IH Hs).
  destruct (rstrip_if p s); [destruct (p c)|]; cbn in *; rewrite ?Hc; auto.
Qed.

Lemma lower_chars (s : string) :
  all_chars (fun c => is_word c || Ascii.eqb c "-") s = true ->
  all_chars is_safe_char (lower s) = true.
Proof.
  induction s as [|c s IH]; cbn; [done|].
  intros [Hc Hs]%andb_true_iff. by rewrite lower_ascii_safe, IH.
Qed.

Lemma safe_suffix_chars (suffix : string) :
  all_chars is_safe_char (safe_suffix suffix) = true.
Proof.
  unfold safe_suffix, strip_char, strip_if.
  apply lower_chars, rstrip_if_chars, lstrip_if_chars, re_sub_run_chars.
Qed.

Lemma length_append (s t : string) :
  String.length (s +:+ t) = String.length s + String.length t.
Proof.
  induction s as [|c s IH]; [done|].
  change (S (String.length (s +:+ t)) = S (String.length s + String.length t)).
  by rewrite IH.
Qed.

Lemma padded_length_2 (n : nat) : n < 100 -> String.length (padded 2 n) = 2.
Proof.
  intros Hn.
  assert (H : forallb (fun k => Nat.eqb (String.length (padded 2 k)) 2) (seq 0 100) = true)
    by (vm_compute; reflexivity).
  rewrite forallb_forall in H. apply Nat.eqb_eq, H, in_seq. lia.
Qed.

Lemma padded_length_4 (n : nat) : n < 100 * 100 -> String.length (padded 4 n) = 4.
Proof.
  intros Hn.
  assert (H : forallb (fun k => Nat.eqb (String.length (padded 4 k)) 4) (seq 0 (100 * 100)) = true)
    by (vm_compute; reflexivity).
  rewrite forallb_forall in H. apply Nat.eqb_eq, H, in_seq. lia.
Qed.

Lemma strftime_length (t : datetime) :
  valid_datetime t -> String.length (strftime_Ymd_HMS t) = 15.
Proof.
  intros (Hy & Hmo & Hd & Hh & Hmi & Hs). unfold strftime_Ymd_HMS.
  rewrite !length_append, padded_length_4, !padded_length_2 by done. reflexivity.
Qed.

(** The substitution of line 578 is the replacement of runs. *)
Lemma concat_nil_cons (x : string) (l : list string) :
  String.concat "" (x :: l) = x +:+ String.concat "" l.
Proof.
  destruct l as [|y l]; cbn [String.concat].
  - induction x as [|a x IH]; [done|].
    change (String a x = String a (x +:+ "")). by rewrite <- IH.
  - reflexivity.
Qed.

Lemma hyphenate_cons (k : bool) (r : string) (rs : list (bool * string)) :
  hyphenate ((k, r) :: rs) = (if k then r else "-") +:+ hyphenate rs.
Proof. unfold hyphenate. cbn [map fst snd]. apply concat_nil_cons. Qed.

Lemma re_sub_run_runs (s : string) :
  re_sub_run false s = hyphenate (runs s) /\
  re_sub_run true s = match runs s with
                      | (false, _) :: rest => hyphenate rest
                      | rs => hyphenate rs
                      end.
Proof.
  induction s as [|c s [IHf IHt]]; [done|].
  cbn [re_sub_run runs]. fold (kept c).
  destruct (kept c) eqn:Hc.
  - rewrite IHf.
    assert (Hgoal : String c (hyphenate (runs s))
                    = hyphenate match runs s with
                                | (k, r) :: rest =>
                                    if Bool.eqb k true then (k, String c r) :: rest
                                    else (true, String c "") :: (k, r) :: rest
                                | [] => [(true, String c "")]
                                end).
    { destruct (runs s) as [|[[] r] rest]; cbn [Bool.eqb]; rewrite ?hyphenate_cons; done. }
    split; [exact Hgoal|].
    rewrite Hgoal. by destruct (runs s) as [|[[] r] rest].
  - rewrite IHt.
    destruct (runs s) as [|[[] r] rest]; cbn [Bool.eqb]; rewrite ?hyphenate_cons; done.
Qed.

Lemma safe_suffix_sanitized (suffix : string) : safe_suffix suffix = sanitized suffix.
Proof. unfold safe_suffix, sanitized. by rewrite (proj1 (re_sub_run_runs suffix)). Qed.

#[local] Arguments feature_branch_name : simpl never.
#[local] Arguments strftime_Ymd_HMS : simpl never.
#[local] Arguments safe_suffix : simpl never.
#[local] Arguments sanitized : simpl never.
#[local] Arguments take_str : simpl never.

(** C8, as amended: on a clean working tree, when the current branch can be
    determined and the repository accepts the checkouts and the creation,
    [create_feature_branch] returns and leaves checked out the branch named
    [aider/feature-], the local time of [datetime.now()] as
    [YYYYMMDD-HHMMSS], a hyphen, the first six characters of the develop
    head's hexsha or [nohash], and for an ASCII suffix a hyphen and the
    sanitised suffix (every maximal run of characters that are neither
    word characters nor hyphens becomes one hyphen, hyphens are stripped at
    both ends, letters are lower-cased), the whole cut to 100 characters; a
    branch of that name that exists is checked out with a warning, and none
    is created. *)
Theorem create_feature_branch_spec (clk : Clock) (suffix : option string) (st : St)
    (cur dev : string) (bs : list string) :
  (forall x, suffix = Some x -> all_chars is_ascii x = true) ->
  (forall h, g_commit_hexsha (git st) (Some dev) = Ok h -> all_chars is_ascii h = true) ->
  g_is_dirty (git st) = Ok false ->
  get_current_branch (git st) = Ok cur ->
  develop_branch st = Some dev ->
  (cur = dev \/ (dev <> "" /\ g_checkout_error (git st) dev = None)) ->
  g_branches (git st) = Ok bs ->
  let short := match g_commit_hexsha (git st) (Some dev) with
               | Ok h => take_str 6 h
               | Raise _ => "nohash"
               end in
  let base := "aider/feature-" +:+ strftime_Ymd_HMS (now_local clk) +:+ "-" +:+ short in
  let name := take_str 100 (if truthy suffix
                            then base +:+ "-" +:+ sanitized (fmt suffix)
                            else base) in
  g_checkout_error (git st) name = None ->
  (name ∉ bs -> g_create_head_error (git st) name = None) ->
  exists st',
    create_feature_branch clk suffix st = (Ok name, st') /\
    g_active_branch (git st') = Ok name /\
    String.length name <= 100 /\
    all_chars is_safe_char (sanitized (fmt suffix)) = true /\
    (valid_datetime (now_local clk) ->
       String.length (strftime_Ymd_HMS (now_local clk)) = 15) /\
    (name ∈ bs ->
       g_branches (git st') = Ok bs /\
       In (tool_warning ("Branch '" +:+ name +:+ "' already exists. Checking it out."))
          (io st')) /\
    (name ∉ bs -> g_branches (git st') = Ok (bs ++ [name])).
Proof.
  intros _ _ Hd Hc Hdev Hsw Hb short base name Hco Hcr.
  assert (Hlen : String.length name <= 100) by apply substring_0_length.
  assert (Hname : feature_branch_name (strftime_Ymd_HMS (now_local clk)) short suffix
                  = name).
  { rewrite feature_branch_name_take. unfold name, base.
    by rewrite safe_suffix_sanitized. }
  assert (Hsafe : all_chars is_safe_char (sanitized (fmt suffix)) = true).
  { rewrite <- safe_suffix_sanitized. apply safe_suffix_chars. }
  clearbody name. subst base.
  unfold create_feature_branch, is_dirty, bind, gets, lift. cbn.
  rewrite Hd, Hc, Hdev. cbn.
  case_bool_decide as Hne; cbn.
  - destruct Hsw as [-> | [Hdev' Hcod]]; [done|].
    unfold try_except at 1, checkout_develop_branch, bind, gets. cbn.
    rewrite Hdev. destruct dev as [|c dev]; [done|]. cbn.
    unfold checkout_branch, is_dirty, bind, gets, lift, try_except, git_checkout.
    cbn. rewrite Hd. cbn. rewrite Hcod. cbn. rewrite Hb. cbn.
    fold short. rewrite Hname.
    case_bool_decide as Hin; cbn.
    + rewrite Hd. cbn. rewrite Hco. cbn.
      eexists. split; [reflexivity|]. cbn.
      repeat split; intros; try done; try (by apply strftime_length).
      rewrite !in_app_iff. cbn. auto.
    + unfold git_create_head, bind, gets. cbn. rewrite (Hcr Hin). cbn. rewrite Hco. cbn.
      eexists. split; [reflexivity|]. cbn. rewrite Hb.
      repeat split; intros; try done; try (by apply strftime_length).
  - unfold try_except, bind, gets, lift. cbn. rewrite Hb. cbn.
    fold short. rewrite Hname.
    case_bool_decide as Hin; cbn.
    + unfold checkout_branch, is_dirty, bind, gets, lift, try_except, git_checkout.
      cbn. rewrite Hd. cbn. rewrite Hco. cbn.
      eexists. split; [reflexivity|]. cbn.
      repeat split; intros; try done; try (by apply strftime_length).
      rewrite !in_app_iff. cbn. auto.
    + unfold git_create_head, git_checkout, bind, gets. cbn. rewrite (Hcr Hin). cbn.
      rewrite Hco. cbn.
      eexists. split; [reflexivity|]. cbn. rewrite Hb.
      repeat split; intros; try done; try (by apply strftime_length).
Qed.

Lemma create_feature_branch_spec_witness :
  sanitized "My  Fix!!" = "my-fix" /\
  exists st',
    create_feature_branch Examples.clock_cet (Some "My  Fix!!")
      Examples.handle_master_develop
      = (Ok "aider/feature-20261103-140509-abc123-my-fix", st') /\
    g_active_branch (git st') = Ok "aider/feature-20261103-140509-abc123-my-fix".
Proof.
  split; [reflexivity|].
  destruct (create_feature_branch_spec Examples.clock_cet (Some "My  Fix!!")
              Examples.handle_master_develop "master" "develop" ["master"; "develop"])
    as (st' & Hrun & Hhead & _);
    [ intros x [= <-]; reflexivity | intros h [= <-]; reflexivity
    | reflexivity | reflexivity | reflexivity
    | right; split; [discriminate | reflexivity]
    | reflexivity | reflexivity | intros _; reflexivity | ].
  exists st'. split; [exact Hrun | exact Hhead].
Defined.

(** C8 as stated fails: for the suffix [a--b] at 14:05:09 local time, two
    hours ahead of UTC, the branch is
    [aider/feature-20261103-140509-abc123-a--b], whereas the name built
    from the UTC time with every run of non-word characters collapsed is
    [aider/feature-20261103-120509-abc123-a-b]. *)
Lemma create_feature_branch_not_as_worded :
  fst (create_feature_branch Examples.clock_cet (Some "a--b")
         Examples.handle_master_develop)
    = Ok "aider/feature-20261103-140509-abc123-a--b" /\
  spec_feature_branch_name Examples.clock_cet "abc123" (Some "a--b")
    = "aider/feature-20261103-120509-abc123-a-b" /\
  fst (create_feature_branch Examples.clock_cet (Some "a--b")
         Examples.handle_master_develop)
    <> Ok (spec_feature_branch_name Examples.clock_cet "abc123" (Some "a--b")).
Proof.
  split; [vm_compute; reflexivity|]. split; [vm_compute; reflexivity|].
  vm_compute. discriminate.
Qed.

End FeatureBranches.
(** ** Commit orchestration *)

Section CommitEnvironment.
Import Commit.

Lemma env_frame_ret {A} (a : A) : env_frame (ret a).
Proof. done. Qed.

Lemma env_frame_raise {A} (e : exn) : env_frame (raise (A := A) e).
Proof. done. Qed.

Lemma env_frame_lift {A} (r : result A) : env_frame (lift r).
Proof. done. Qed.

Lemma env_frame_gets {A} (f : St -> A) : env_frame (gets f).
Proof. done. Qed.

Lemma env_frame_io_emit (ev : io_event) : env_frame (io_emit ev).
Proof. done. Qed.

Lemma env_frame_log_write (w : vcs_write) : env_frame (log_write w).
Proof. done. Qed.

Lemma env_frame_set_head_commit (h : result string) : env_frame (set_head_commit h).
Proof. done. Qed.

Lemma env_frame_bind {A B} (m : M St A) (k : A -> M St B) :
  env_frame m -> (forall a, env_frame (k a)) -> env_frame (bind m k).
Proof.
  intros Hm Hk s. unfold bind. specialize (Hm s).
  destruct (m s) as [[a|e] s']; cbn in *; [|done].
  by rewrite Hk.
Qed.

Lemma env_frame_try_except {A} (m : M St A) (c : exn -> bool) (h : exn -> M St A) :
  env_frame m -> (forall e, env_frame (h e)) -> env_frame (try_except m c h).
Proof.
  intros Hm Hh s. unfold try_except. specialize (Hm s).
  destruct (m s) as [[a|e] s']; cbn in *; [done|].
  destruct (c e); [by rewrite Hh | done].
Qed.

Create HintDb env_frame.

#[local] Hint Resolve env_frame_ret env_frame_raise env_frame_lift env_frame_gets
  env_frame_io_emit env_frame_log_write env_frame_set_head_commit : env_frame.

Ltac frame :=
  repeat first
    [ apply env_frame_bind; [|intros ?]
    | apply env_frame_try_except; [|intros ?]
    | solve [auto with env_frame]
    | match goal with
      | |- env_frame (if ?b then _ else _) => destruct b
      | |- env_frame (match ?x with _ => _ end) => destruct x
      end ].

Lemma env_frame_in_handle {A} (m : M Files.St A) : env_frame (in_handle m).
Proof. intros s. unfold in_handle. by destruct (m _). Qed.

Lemma env_frame_added_markers (r : Repo) (fnames : list string) (diffs : string) :
  env_frame (added_markers r fnames diffs).
Proof.
  revert diffs. induction fnames as [|f fs IH]; intros diffs; cbn [added_markers].
  - apply env_frame_ret.
  - apply env_frame_bind; [apply env_frame_in_handle|].
    intros known. destruct (default false known); apply IH.
Qed.

Lemma env_frame_get_diffs (r : Repo) (fnames : list string) :
  env_frame (get_diffs r fnames).
Proof.
  unfold get_diffs. apply env_frame_bind; [apply env_frame_lift|]. intros has_commits.
  apply env_frame_bind; [apply env_frame_added_markers|]. intros diffs. frame.
Qed.

Lemma env_frame_ask_models (ms : list Model) (messages : list message)
    (commit_message : option string) :
  env_frame (ask_models ms messages commit_message).
Proof.
  revert commit_message. induction ms as [|model ms IH]; intros commit_message;
    cbn [ask_models].
  - apply env_frame_ret.
  - apply env_frame_bind; [apply env_frame_lift|]. intros num_tokens.
    apply env_frame_bind; [apply env_frame_lift|]. intros max_tokens. cbv zeta.
    destruct (_ && _); [apply IH|].
    apply env_frame_bind; [apply env_frame_lift|]. intros answer.
    destruct (truthy answer); [apply env_frame_ret | apply IH].
Qed.

Lemma env_frame_get_commit_message (cfg : Config) (diffs : string)
    (context : option string) :
  env_frame (get_commit_message cfg diffs context).
Proof.
  unfold get_commit_message. cbv zeta.
  apply env_frame_bind.
  - destruct (models cfg); [apply env_frame_ask_models | apply env_frame_raise].
  - intros commit_message. frame.
Qed.

Lemma env_frame_attribute_message (cfg : Config) (aider_edits : bool)
    (m : option string) :
  env_frame (attribute_message cfg aider_edits m).
Proof. unfold attribute_message, add_prefix. frame. Qed.

Lemma env_frame_add_all (r : Repo) (fnames : list string) :
  env_frame (add_all r fnames).
Proof. induction fnames as [|f fs IH]; cbn; frame. Qed.

Lemma env_frame_git_commit (r : Repo) (cmd : list string) :
  env_frame (git_commit r cmd).
Proof. unfold git_commit. frame. Qed.

Lemma env_frame_get_head_commit_sha_short : env_frame get_head_commit_sha_short.
Proof. unfold get_head_commit_sha_short, get_head_commit. frame. Qed.


Lemma env_frame_attempt_commit (r : Repo) (cmd : list string) (commit_message : string) :
  env_frame (attempt_commit r cmd commit_message).
Proof.
  pose proof env_frame_git_commit. pose proof env_frame_get_head_commit_sha_short.
  unfold attempt_commit. frame.
Qed.

Lemma env_frame_stage (cfg : Config) (r : Repo) (fnames : list string) (m : string) :
  env_frame (stage cfg r fnames m).
Proof.
  unfold stage. destruct fnames; [frame|].
  apply env_frame_bind; [apply env_frame_add_all | frame].
Qed.

(** The [finally] block undoes the overrides and raises nothing. *)
Lemma restore_env_undoes (cfg : Config) (aider_edits : bool) (committer_name : string)
    (env : gmap string string) (s : St) :
  environ s = overridden cfg aider_edits committer_name env ->
  restore_env cfg aider_edits (env !! "GIT_COMMITTER_NAME")
    (if aider_edits && attribute_author cfg
     then (if attribute_committer cfg
           then <["GIT_COMMITTER_NAME" := committer_name]> env else env)
          !! "GIT_AUTHOR_NAME"
     else None) s = (Ok tt, with_environ env s).
Proof.
  intros Hs. unfold restore_env, overridden in *.
  assert (Hne : "GIT_COMMITTER_NAME" <> "GIT_AUTHOR_NAME") by discriminate.
  assert (Hne' : "GIT_AUTHOR_NAME" <> "GIT_COMMITTER_NAME") by discriminate.
  destruct s as [e i w h]. cbn in Hs. subst e.
  destruct (attribute_committer cfg), (aider_edits && attribute_author cfg);
    rewrite ?lookup_insert_ne by done;
    destruct (env !! "GIT_COMMITTER_NAME") eqn:Hc;
    destruct (env !! "GIT_AUTHOR_NAME") eqn:Ha;
    unfold bind, putenv, delenv, set_environ, gets, modify, ret, with_environ; cbn;
    repeat first [ rewrite lookup_insert_eq | rewrite lookup_insert_ne by done
                 | rewrite lookup_delete_ne by done | progress cbn ];
    f_equal; f_equal;
    apply map_eq; intros k;
    (destruct (decide (k = "GIT_COMMITTER_NAME")) as [->|];
     [| destruct (decide (k = "GIT_AUTHOR_NAME")) as [->|] ]);
    simplify_map_eq; done.
Qed.

(** Lines 209-214 put the overrides in place and remember the author name
    that was there. *)
Lemma overrides_run {A} (cfg : Config) (aider_edits : bool) (committer_name : string)
    (k : option string -> M St A) (s : St) :
  ((if attribute_committer cfg then putenv "GIT_COMMITTER_NAME" committer_name
    else ret tt) ;;;
   original_author_name_env <-
     (if aider_edits && attribute_author cfg then
        o <- getenv "GIT_AUTHOR_NAME" ;;
        putenv "GIT_AUTHOR_NAME" committer_name ;;;
        ret o
      else ret None) ;;
   k original_author_name_env) s
  = k (if aider_edits && attribute_author cfg
       then (if attribute_committer cfg
             then <["GIT_COMMITTER_NAME" := committer_name]> (environ s)
             else environ s) !! "GIT_AUTHOR_NAME"
       else None)
      (with_environ (overridden cfg aider_edits committer_name (environ s)) s).
Proof.
  unfold overridden.
  destruct s as [e i w h].
  destruct (attribute_committer cfg), (aider_edits && attribute_author cfg); reflexivity.
Qed.

(** What lines 205-236 do once the user name is known: the commit command
    runs in the overridden environment; the environment is the former one
    afterwards, whether the command succeeded, failed with an error of
    [ANY_GIT_ERROR], or raised another exception. *)
Lemma commit_under_overrides_run (cfg : Config) (r : Repo) (aider_edits : bool)
    (cmd : list string) (commit_message user : string) (s : St) :
  r_config_user_name r = Ok user ->
  let env := overridden cfg aider_edits (user +:+ " (aider)") (environ s) in
  commit_under_overrides cfg r aider_edits cmd commit_message s =
  match r_commit r cmd env with
  | Ok hexsha =>
      (Ok (Some (Some (take_str 7 hexsha), commit_message)),
       {| environ := environ s;
          io := io s ++ [tool_output ("Commit " +:+ take_str 7 hexsha +:+ " "
                                      +:+ commit_message)];
          writes := writes s ++ [W_commit cmd env];
          head_commit := Ok hexsha; handle := handle s |})
  | Raise e =>
      if ANY_GIT_ERROR (exn_cls e) then
        (Ok None,
         {| environ := environ s;
            io := io s ++ [tool_error ("Unable to commit: " +:+ exn_str e)];
            writes := writes s;
            head_commit := head_commit s; handle := handle s |})
      else (Raise e, s)
  end.
Proof.
  intros Hu env. unfold commit_under_overrides.
  unfold bind at 1, lift. rewrite Hu.
  unfold bind at 1, getenv, gets.
  rewrite overrides_run. fold env.
  unfold try_finally, attempt_commit, try_except, git_commit.
  unfold bind at 1 2, gets. cbn [with_environ environ].
  unfold bind at 1, lift.
  destruct (r_commit r cmd env) as [hexsha|e] eqn:Hcommit.
  - unfold bind, log_write, set_head_commit, get_head_commit_sha_short, get_head_commit,
      io_emit, gets, modify, ret. cbn.
    rewrite (restore_env_undoes cfg aider_edits (user +:+ " (aider)") (environ s))
      by reflexivity.
    reflexivity.
  - destruct (ANY_GIT_ERROR (exn_cls e)).
    + unfold bind, io_emit, modify, ret. cbn.
      rewrite (restore_env_undoes cfg aider_edits (user +:+ " (aider)") (environ s))
        by reflexivity.
      reflexivity.
    + rewrite (restore_env_undoes cfg aider_edits (user +:+ " (aider)") (environ s))
        by reflexivity.
      destruct s; reflexivity.
Qed.

Lemma env_frame_commit_under_overrides (cfg : Config) (r : Repo) (aider_edits : bool)
    (cmd : list string) (commit_message : string) :
  env_frame (commit_under_overrides cfg r aider_edits cmd commit_message).
Proof.
  intros s. destruct (r_config_user_name r) as [user|e] eqn:Hu.
  - rewrite (commit_under_overrides_run _ _ _ _ _ user) by done. cbv zeta.
    destruct (r_commit _ _ _) as [h|e]; [done|].
    destruct (ANY_GIT_ERROR _); done.
  - unfold commit_under_overrides, bind, lift. by rewrite Hu.
Qed.

(** C2: whatever [commit] is called with and however it ends, by a return
    or by an exception, the state it leaves has the environment it was
    called in; in particular [GIT_COMMITTER_NAME] and [GIT_AUTHOR_NAME] have
    their former values, or are unset if they were. *)
Theorem commit_restores_environment (cfg : Config) (r : Repo) (fnames : list string)
    (context message : option string) (aider_edits : bool) (st : St) :
  let st' := snd (commit cfg r fnames context message aider_edits st) in
  environ st' = environ st /\
  environ st' !! "GIT_COMMITTER_NAME" = environ st !! "GIT_COMMITTER_NAME" /\
  environ st' !! "GIT_AUTHOR_NAME" = environ st !! "GIT_AUTHOR_NAME".
Proof.
  cbv zeta.
  assert (H : env_frame (commit cfg r fnames context message aider_edits)).
  { unfold commit.
    apply env_frame_bind; [destruct fnames; frame|]. intros clean.
    destruct clean; [frame|].
    apply env_frame_bind; [apply env_frame_get_diffs|]. intros diffs.
    destruct (negb (truthy diffs)); [frame|].
    apply env_frame_bind;
      [destruct (truthy message); [frame | apply env_frame_get_commit_message]|].
    intros commit_message.
    apply env_frame_bind; [apply env_frame_attribute_message|].
    clear commit_message. intros commit_message. cbv zeta.
    apply env_frame_bind; [apply env_frame_stage|]. intros cmd.
    apply env_frame_commit_under_overrides. }
  rewrite H. done.
Qed.

(** The overrides are in force while the commit command runs: with both
    names attributed, user name [Ada], [GIT_AUTHOR_NAME] set to [Grace] and
    [GIT_COMMITTER_NAME] unset, the command sees [Ada (aider)] under both
    names, and the process is left with [Grace] and no committer name. *)
Example commit_runs_under_overrides :
  let out := commit Examples.config_both_prefixes Examples.repo_dirty ["a.txt"] None
               (Some "init") true Examples.process_state in
  writes (snd out)
    = [W_add "/repo/a.txt";
       W_commit ["-m"; "aider: init"; "--"; "/repo/a.txt"]
         (<["GIT_AUTHOR_NAME" := "Ada (aider)"]>
            (<["GIT_COMMITTER_NAME" := "Ada (aider)"]>
               {[ "GIT_AUTHOR_NAME" := "Grace" ]}))] /\
  environ (snd out) = {[ "GIT_AUTHOR_NAME" := "Grace" ]}.
Proof. vm_compute. split; reflexivity. Qed.

End CommitEnvironment.

Section CommitOutcomes.
Import Commit.





(** Staging goes through every path and reports each failure. *)
Lemma add_all_runs (r : Repo) (fnames : list string) (s : St) :
  add_fails_softly r fnames ->
  exists s' msgs ws,
    add_all r fnames s = (Ok tt, s') /\
    environ s' = environ s /\ head_commit s' = head_commit s /\
    io s' = io s ++ msgs /\ writes s' = writes s ++ ws /\ only_adds ws /\
    (forall f e, In f fnames -> r_add r f = Raise e ->
       In (tool_error ("Unable to add " +:+ f +:+ ": " +:+ exn_str e)) msgs).
Proof.
  revert s. induction fnames as [|f fs IH]; intros s Hsoft.
  - exists s, [], []. cbn. rewrite !app_nil_r. repeat split; try done.
    intros w [].
  - assert (Hfs : add_fails_softly r fs) by (intros g e ?; apply Hsoft; by right).
    cbn [add_all]. unfold bind at 1, try_except, lift.
    unfold bind at 1. destruct (r_add r f) as [[]|e] eqn:Hadd.
    + unfold log_write, modify.
      destruct (IH (Build_St (environ s) (io s) (writes s ++ [W_add f]) (head_commit s)
                      (handle s)) Hfs) as (s' & msgs & ws & Hrun & He & Hh & Hio & Hw & Hws & Hrep).
      cbn in *. exists s', msgs, (W_add f :: ws). rewrite Hrun.
      repeat split; try done.
      * by rewrite Hw, <- app_assoc.
      * intros w [<-|Hin]; eauto.
      * intros g e [<-|Hin] Hg; [congruence | eauto].
    + rewrite (Hsoft f e) by (done || by left).
      unfold io_emit, modify, with_io.
      destruct (IH (Build_St (environ s)
                      (io s ++ [tool_error ("Unable to add " +:+ f +:+ ": " +:+ exn_str e)])
                      (writes s) (head_commit s) (handle s)) Hfs)
        as (s' & msgs & ws & Hrun & He & Hh & Hio & Hw & Hws & Hrep).
      cbn in *. exists s', (tool_error ("Unable to add " +:+ f +:+ ": " +:+ exn_str e) :: msgs), ws.
      rewrite Hrun. repeat split; try done.
      * by rewrite Hio, <- app_assoc.
      * intros g e' [<-|Hin] Hg; [left; congruence | right; eauto].
Qed.

Lemma stage_runs (cfg : Config) (r : Repo) (fnames : list string) (m : string) (s : St) :
  add_fails_softly r (map (abs_root_path cfg) fnames) ->
  exists cmd s' msgs ws,
    stage cfg r fnames m s = (Ok cmd, s') /\
    (exists rest, cmd = "-m" :: m :: rest) /\
    environ s' = environ s /\ head_commit s' = head_commit s /\
    io s' = io s ++ msgs /\ writes s' = writes s ++ ws /\ only_adds ws /\
    (forall f e, In f (map (abs_root_path cfg) fnames) -> r_add r f = Raise e ->
       In (tool_error ("Unable to add " +:+ f +:+ ": " +:+ exn_str e)) msgs).
Proof.
  intros Hsoft. unfold stage. destruct fnames as [|f fs].
  - exists (["-m"; m] ++ (if git_commit_verify cfg then [] else ["--no-verify"]) ++ ["-a"]),
      s, [], [].
    cbn. rewrite !app_nil_r. repeat split; eauto. intros w [].
  - destruct (add_all_runs r (map (abs_root_path cfg) (f :: fs)) s Hsoft)
      as (s' & msgs & ws & Hrun & He & Hh & Hio & Hw & Hws & Hrep).
    unfold bind. rewrite Hrun. cbn.
    eexists _, s', msgs, ws. repeat split; eauto.
Qed.

(** Up to the staging, [commit] is the sequence of its steps. *)
Lemma commit_steps (cfg : Config) (r : Repo) (fnames : list string)
    (context message : option string) (aider_edits : bool) (st : St)
    (diffs : option string) (s1 : St) (cm : option string) (s2 : St) :
  (fnames = [] -> r_is_dirty r = Ok true) ->
  get_diffs r fnames st = (Ok diffs, s1) ->
  truthy diffs = true ->
  (commit_message <- (if truthy message then ret message
                      else get_commit_message cfg (fmt diffs) context) ;;
   attribute_message cfg aider_edits commit_message) s1 = (Ok cm, s2) ->
  commit cfg r fnames context message aider_edits st =
  (cmd <- stage cfg r fnames (or_placeholder cm) ;;
   commit_under_overrides cfg r aider_edits cmd (or_placeholder cm)) s2.
Proof.
  intros Hdirty Hdiffs Htruthy Hmsg. unfold commit.
  assert (Hclean : (match fnames with
                    | [] => dirty <- lift (r_is_dirty r) ;; ret (negb dirty)
                    | _ => ret false
                    end) st = (Ok false, st)).
  { destruct fnames; [|done]. unfold bind, lift, ret. by rewrite Hdirty. }
  unfold bind at 1. rewrite Hclean.
  unfold bind at 1. rewrite Hdiffs, Htruthy. cbn [negb].
  unfold bind at 1 in Hmsg. unfold bind at 1.
  destruct ((if truthy message then ret message
             else get_commit_message cfg (fmt diffs) context) s1) as [[base|e] s1'];
    [|discriminate].
  unfold bind at 1. rewrite Hmsg. reflexivity.
Qed.

(** The generators are asked without a change of the state. *)
Lemma ask_models_pure (ms : list Model) (messages : list message)
    (commit_message : option string) (s : St) :
  snd (ask_models ms messages commit_message s) = s.
Proof.
  revert commit_message. induction ms as [|model ms IH]; intros commit_message;
    cbn [ask_models]; [done|].
  unfold bind, lift.
  destruct (token_count model messages) as [n|e]; [|done].
  destruct (max_input_tokens model) as [mt|e]; [|done].
  destruct (_ && _); [apply IH|].
  destruct (simple_send_with_retries model messages) as [answer|e]; [|done].
  destruct (truthy answer); [done | apply IH].
Qed.

Lemma get_commit_message_falsy (cfg : Config) (diffs : string) (context : option string)
    (s1 s2 : St) :
  get_commit_message cfg diffs context s1 = (Ok None, s2) ->
  s2 = Build_St (environ s1) (io s1 ++ [tool_error "Failed to generate commit message!"])
         (writes s1) (head_commit s1) (handle s1).
Proof.
  unfold get_commit_message. cbv zeta. unfold bind at 1.
  destruct (models cfg) as [ms|]; [|discriminate].
  pose proof (ask_models_pure ms
                [ {| role := "system";
                     content := or_default (commit_prompt cfg) (commit_system cfg) |};
                  {| role := "user";
                     content := (if truthy context then fmt context +:+ newline else "")
                                +:+ "# Diffs:" +:+ newline +:+ diffs |} ] None s1) as Hpure.
  destruct (ask_models ms _ None s1) as [[cm|e] s']; cbn [snd] in Hpure; subst s';
    [|discriminate].
  destruct (truthy cm); [discriminate|].
  unfold bind, io_emit, modify, ret. by inversion 1.
Qed.

(** C1, as amended: when no message is given, generation yields nothing and
    no prefix applies, [commit] reports the failed generation and goes on
    with the placeholder: the commit command runs with
    [-m "(no commit message provided)"], and where the repository accepts
    it the short hash is returned with that message. *)
Theorem commit_without_generated_message (cfg : Config) (r : Repo)
    (fnames : list string) (context message : option string) (aider_edits : bool)
    (st : St) (diffs : option string) (s1 s2 : St) (user hexsha : string) :
  truthy message = false ->
  (fnames = [] -> r_is_dirty r = Ok true) ->
  get_diffs r fnames st = (Ok diffs, s1) ->
  truthy diffs = true ->
  get_commit_message cfg (fmt diffs) context s1 = (Ok None, s2) ->
  aider_edits && attribute_commit_message_author cfg = false ->
  attribute_commit_message_committer cfg = false ->
  add_fails_softly r (map (abs_root_path cfg) fnames) ->
  r_config_user_name r = Ok user ->
  (forall cmd env, r_commit r cmd env = Ok hexsha) ->
  exists st' cmd env,
    commit cfg r fnames context message aider_edits st
      = (Ok (Some (Some (take_str 7 hexsha), "(no commit message provided)")), st') /\
    In (tool_error "Failed to generate commit message!") (io st') /\
    In (W_commit cmd env) (writes st') /\
    (exists rest, cmd = "-m" :: "(no commit message provided)" :: rest).
Proof.
  intros Hmsg Hdirty Hdiffs Htruthy Hgen Hauthor Hcommitter Hsoft Huser Hcommit.
  rewrite (commit_steps cfg r fnames context message aider_edits st diffs s1 None s2);
    try done.
  2:{ rewrite Hmsg. unfold bind. rewrite Hgen.
      unfold attribute_message. by rewrite Hauthor, Hcommitter. }
  change (or_placeholder None) with "(no commit message provided)".
  destruct (stage_runs cfg r fnames "(no commit message provided)" s2 Hsoft)
    as (cmd & s3 & msgs & ws & Hstage & Hcmd & He & Hh & Hio & Hw & _).
  unfold bind. rewrite Hstage.
  rewrite (commit_under_overrides_run _ _ _ _ _ user) by done. cbv zeta.
  rewrite Hcommit.
  eexists _, cmd, _. split; [reflexivity|]. cbn.
  apply get_commit_message_falsy in Hgen. subst s2. cbn in Hio.
  rewrite Hio, !in_app_iff. cbn. eauto 10.
Qed.

Lemma commit_without_generated_message_witness :
  exists st' cmd env,
    commit Examples.config_plain Examples.repo_dirty [] None None false
      Examples.process_state
      = (Ok (Some (Some "0123456", "(no commit message provided)")), st') /\
    In (tool_error "Failed to generate commit message!") (io st') /\
    In (W_commit cmd env) (writes st') /\
    (exists rest, cmd = "-m" :: "(no commit message provided)" :: rest).
Proof.
  apply (commit_without_generated_message Examples.config_plain Examples.repo_dirty
           [] None None false Examples.process_state
           (Some "diff --git a/a.txt b/a.txt") Examples.process_state
           (Build_St (environ Examples.process_state)
              [tool_error "Failed to generate commit message!"] [] (Ok "ffffffffffffffff")
              Files.init_state)
           "Ada" "0123456789abcdef");
    try reflexivity.
  intros f e [].
Defined.

(** C1 as stated fails: with no message given and a generator that answers
    nothing, [commit] does not abort; it reports the failed generation,
    runs [git commit -m "(no commit message provided)" -a] and returns the
    new short hash with the placeholder. *)
Lemma commit_without_message_commits :
  let out := commit Examples.config_plain Examples.repo_dirty [] None None false
               Examples.process_state in
  fst out = Ok (Some (Some "0123456", "(no commit message provided)")) /\
  writes (snd out)
    = [W_commit ["-m"; "(no commit message provided)"; "-a"]
         {[ "GIT_AUTHOR_NAME" := "Grace" ]}] /\
  io (snd out) = [tool_error "Failed to generate commit message!";
                  tool_output "Commit 0123456 (no commit message provided)"] /\
  head_commit (snd out) = Ok "0123456789abcdef".
Proof. vm_compute. repeat split; reflexivity. Qed.

(** C5, as amended: once the diff, the message and the identity lookup have
    succeeded, an error of [ANY_GIT_ERROR] from [git add] or from
    [git commit] never leaves [commit]: staging reports each failed path
    and goes on, and a failed commit command is reported, writes no commit
    and makes [commit] return nothing; an accepted command makes it return
    the short hash and the message. *)
Theorem commit_failure_is_reported (cfg : Config) (r : Repo) (fnames : list string)
    (context message : option string) (aider_edits : bool) (st : St)
    (diffs : option string) (s1 : St) (cm : option string) (s2 : St) (user : string) :
  (fnames = [] -> r_is_dirty r = Ok true) ->
  get_diffs r fnames st = (Ok diffs, s1) ->
  truthy diffs = true ->
  (commit_message <- (if truthy message then ret message
                      else get_commit_message cfg (fmt diffs) context) ;;
   attribute_message cfg aider_edits commit_message) s1 = (Ok cm, s2) ->
  add_fails_softly r (map (abs_root_path cfg) fnames) ->
  r_config_user_name r = Ok user ->
  exists cmd s3 msgs ws,
    stage cfg r fnames (or_placeholder cm) s2 = (Ok cmd, s3) /\
    io s3 = io s2 ++ msgs /\ writes s3 = writes s2 ++ ws /\ only_adds ws /\
    (forall f e, In f (map (abs_root_path cfg) fnames) -> r_add r f = Raise e ->
       In (tool_error ("Unable to add " +:+ f +:+ ": " +:+ exn_str e)) msgs) /\
    let env := overridden cfg aider_edits (user +:+ " (aider)") (environ s3) in
    (forall hexsha, r_commit r cmd env = Ok hexsha ->
       fst (commit cfg r fnames context message aider_edits st)
         = Ok (Some (Some (take_str 7 hexsha), or_placeholder cm))) /\
    (forall e, r_commit r cmd env = Raise e -> ANY_GIT_ERROR (exn_cls e) = true ->
       exists st',
         commit cfg r fnames context message aider_edits st = (Ok None, st') /\
         io st' = io s3 ++ [tool_error ("Unable to commit: " +:+ exn_str e)] /\
         writes st' = writes s3 /\ environ st' = environ s3).
Proof.
  intros Hdirty Hdiffs Htruthy Hmsg Hsoft Huser.
  rewrite (commit_steps cfg r fnames context message aider_edits st diffs s1 cm s2)
    by done.
  destruct (stage_runs cfg r fnames (or_placeholder cm) s2 Hsoft)
    as (cmd & s3 & msgs & ws & Hstage & Hcmd & He & Hh & Hio & Hw & Hws & Hrep).
  exists cmd, s3, msgs, ws. repeat split; try done.
  - intros hexsha Hok. unfold bind. rewrite Hstage.
    rewrite (commit_under_overrides_run _ _ _ _ _ user) by done. cbv zeta.
    by rewrite Hok.
  - intros e Hfail Hany. unfold bind. rewrite Hstage.
    rewrite (commit_under_overrides_run _ _ _ _ _ user) by done. cbv zeta.
    rewrite Hfail, Hany. eexists. split; [reflexivity|]. done.
Qed.

Lemma commit_failure_is_reported_witness :
  exists st',
    commit Examples.config_plain Examples.repo_commit_fails ["a.txt"] None (Some "init")
      false Examples.process_state = (Ok None, st') /\
    io st' = [tool_error "Unable to commit: pre-commit hook failed"].
Proof.
  set (s1 := snd (get_diffs Examples.repo_commit_fails ["a.txt"] Examples.process_state)).
  destruct (commit_failure_is_reported Examples.config_plain Examples.repo_commit_fails
              ["a.txt"] None (Some "init") false Examples.process_state
              (Some "diff --git a/a.txt b/a.txt") s1 (Some "init") s1 "Ada")
    as (cmd & s3 & msgs & ws & Hstage & Hio & _ & _ & _ & _ & Hfail);
    [ discriminate | vm_compute; reflexivity | reflexivity | reflexivity
    | intros f e _; discriminate | reflexivity | ].
  inversion Hstage; subst cmd s3.
  destruct (Hfail (Exn GitCommandError "pre-commit hook failed") eq_refl eq_refl)
    as (st' & Hrun & Hio' & _).
  exists st'. split; [exact Hrun|]. rewrite Hio'. reflexivity.
Defined.

(** C5 as stated fails twice.  With no [user.name] configured the identity
    lookup of line 205 raises [GitCommandError] out of [commit]; and when
    [git add] fails on the path given, [commit] reports it and still returns
    the hash and the message of the commit it goes on to make. *)
Lemma commit_raises_and_commits_after_failures :
  fst (commit Examples.config_plain Examples.repo_no_user_name ["a.txt"] None
         (Some "init") false Examples.process_state)
    = Raise (Exn GitCommandError "Cmd('git') failed due to: exit code(1)") /\
  (let out := commit Examples.config_plain Examples.repo_add_fails ["a.txt"] None
                (Some "init") false Examples.process_state in
   fst out = Ok (Some (Some "0123456", "init")) /\
   io (snd out) = [tool_error "Unable to add /repo/a.txt: pathspec did not match any files";
                   tool_output "Commit 0123456 init"]).
Proof. vm_compute. repeat split; reflexivity. Qed.

End CommitOutcomes.

(** ** Paths and the ignore filter *)

Section OutsideTheRoot.
Import Files.

Lemma relative_to_root_outside (cfg : Config) (P : string) :
  outside_root cfg P ->
  relative_to_root cfg P
    = Raise (Exn ValueError (relative_to_error cfg (path_str (Path P))
                               (path_str (Path (root cfg))))).
Proof.
  intros [Habs Hout]. unfold relative_to_root, joinpath, relative_to.
  rewrite Habs. cbv zeta.
  case_bool_decide as Hanchor; [|done].
  destruct Hout as [Hne | ->]; [by destruct Hne | done].
Qed.

Lemma normalize_path_outside (cfg : Config) (P : string) (s : St) :
  outside_root cfg P -> memo_ok cfg s ->
  normalize_path cfg P s
    = (Raise (Exn ValueError (relative_to_error cfg (path_str (Path P))
                                (path_str (Path (root cfg))))), s).
Proof.
  intros Hout Hmemo. unfold normalize_path, bind, gets.
  destruct (normalized_path s !! P) as [v|] eqn:Hv.
  - apply Hmemo in Hv. rewrite relative_to_root_outside in Hv by done. discriminate.
  - cbn. unfold lift. by rewrite relative_to_root_outside.
Qed.

(** The refresh raises nothing, keeps the memo of [normalize_path], and
    either keeps the result cache or empties it. *)
Lemma refresh_aider_ignore_runs (cfg : Config) (w : World) (s : St) :
  exists s',
    refresh_aider_ignore cfg w s = (Ok tt, s') /\
    normalized_path s' = normalized_path s /\
    tree_files s' = tree_files s /\ heap s' = heap s /\
    (ignore_file_cache s' = ignore_file_cache s \/ ignore_file_cache s' = ∅).
Proof.
  unfold refresh_aider_ignore.
  destruct (negb (truthy (aider_ignore_file cfg)));
    [exists s; repeat split; auto|].
  unfold bind, gets, modify, ret.
  destruct (_ <? _)%Z; [exists s; repeat split; auto|].
  destruct (w_ignore_file w) as [[mtime lines]|];
    [|eexists; split; [reflexivity|]; repeat split; auto].
  cbn. case_bool_decide; cbn; (eexists; split; [reflexivity|]); repeat split; auto.
Qed.






(** Line 391 compares components and resolves nothing: a relative path
    that climbs out of the root through [..] is not rejected. *)
Remark dotdot_is_not_resolved :
  fst (normalize_path Examples.files_config_plain "../x" init_state) = Ok "../x".
Proof. vm_compute. reflexivity. Qed.

End OutsideTheRoot.

(** ** The tracked files and their cache *)

Section TrackedFiles.
Import Files.

Lemma heap_le_refl (h : list (gset string)) : heap_le h h.
Proof. intros l S Hl. eauto. Qed.

Lemma heap_le_trans (h1 h2 h3 : list (gset string)) :
  heap_le h1 h2 -> heap_le h2 h3 -> heap_le h1 h3.
Proof.
  intros H12 H23 l S Hl.
  destruct (H12 l S Hl) as (S2 & Hl2 & Hsub2).
  destruct (H23 l S2 Hl2) as (S3 & Hl3 & Hsub3).
  exists S3. split; [done | set_solver].
Qed.

Lemma ext0_refl (cfg : Config) (s : St) : ext0 cfg s s.
Proof. repeat split; auto using heap_le_refl. Qed.

Lemma ext0_trans (cfg : Config) (s1 s2 s3 : St) :
  ext0 cfg s1 s2 -> ext0 cfg s2 s3 -> ext0 cfg s1 s3.
Proof.
  intros (Ht & Hh & Hm & Hc) (Ht' & Hh' & Hm' & Hc').
  repeat split; eauto using heap_le_trans. congruence.
Qed.

Lemma ext_refl (cfg : Config) (s : St) : ext cfg s s.
Proof. repeat split; auto using heap_le_refl. Qed.

Lemma ext_trans (cfg : Config) (s1 s2 s3 : St) :
  ext cfg s1 s2 -> ext cfg s2 s3 -> ext cfg s1 s3.
Proof.
  intros (Ht & Hh & Hm & Hc) (Ht' & Hh' & Hm' & Hc').
  repeat split; eauto using heap_le_trans.
Qed.

Lemma ext0_ext (cfg : Config) (s s' : St) : ext0 cfg s s' -> ext cfg s s'.
Proof. intros (Ht & Hh & Hm & Hc). repeat split; auto. intros c l. by rewrite Ht. Qed.

Lemma cached_ext (cfg : Config) (c q : string) (s s' : St) :
  cached c q s -> ext cfg s s' -> cached c q s'.
Proof.
  intros (l & S & Hc & Hl & Hq) (Ht & Hh & _).
  destruct (Hh l S Hl) as (S' & Hl' & Hsub).
  exists l, S'. repeat split; [by apply Ht | done | set_solver].
Qed.

(** *** Each step comes after the state it starts in *)

Lemma ext0_frame_ret (cfg : Config) {A} (a : A) : ext0_frame cfg (ret a).
Proof. intros s. apply ext0_refl. Qed.

Lemma ext0_frame_raise (cfg : Config) {A} (e : exn) : ext0_frame cfg (raise (A := A) e).
Proof. intros s. apply ext0_refl. Qed.

Lemma ext0_frame_lift (cfg : Config) {A} (r : result A) : ext0_frame cfg (lift r).
Proof. intros s. apply ext0_refl. Qed.

Lemma ext0_frame_gets (cfg : Config) {A} (f : St -> A) : ext0_frame cfg (gets f).
Proof. intros s. apply ext0_refl. Qed.

Lemma ext0_frame_io_emit (cfg : Config) (ev : io_event) : ext0_frame cfg (io_emit ev).
Proof. intros s. repeat split; auto using heap_le_refl. Qed.

Lemma ext0_frame_with_git_repo_error (cfg : Config) (e : exn) :
  ext0_frame cfg (modify (with_git_repo_error e)).
Proof. intros s. repeat split; auto using heap_le_refl. Qed.

Lemma ext0_frame_with_last_check (cfg : Config) (t : Z) :
  ext0_frame cfg (modify (with_last_check t)).
Proof. intros s. repeat split; auto using heap_le_refl. Qed.

Lemma ext0_frame_with_ignore_spec (cfg : Config) (mtime : Z) (lines : list string) :
  ext0_frame cfg (modify (with_ignore_spec mtime lines)).
Proof.
  intros s. repeat split; auto using heap_le_refl.
  intros _ _ k b Hk. cbn in Hk. by rewrite lookup_empty in Hk.
Qed.

Lemma ext0_frame_bind (cfg : Config) {A B} (m : M St A) (k : A -> M St B) :
  ext0_frame cfg m -> (forall a, ext0_frame cfg (k a)) -> ext0_frame cfg (bind m k).
Proof.
  intros Hm Hk s. unfold bind. specialize (Hm s).
  destruct (m s) as [[a|e] s']; cbn in *; [|done].
  eapply ext0_trans; [exact Hm | apply Hk].
Qed.

(** The same, when the continuation may rely on a fact about each value
    [m] returns. *)
Lemma ext0_frame_bind_post (cfg : Config) {A B} (m : M St A) (k : A -> M St B)
    (Q : A -> Prop) :
  ext0_frame cfg m ->
  (forall s a s', m s = (Ok a, s') -> Q a) ->
  (forall a, Q a -> ext0_frame cfg (k a)) ->
  ext0_frame cfg (bind m k).
Proof.
  intros Hm HQ Hk s. unfold bind. specialize (Hm s). specialize (HQ s).
  destruct (m s) as [[a|e] s']; cbn in *; [|done].
  eapply ext0_trans; [exact Hm | apply Hk; eauto].
Qed.

Lemma ext0_frame_try_except (cfg : Config) {A} (m : M St A) (c : exn -> bool)
    (h : exn -> M St A) :
  ext0_frame cfg m -> (forall e, ext0_frame cfg (h e)) -> ext0_frame cfg (try_except m c h).
Proof.
  intros Hm Hh s. unfold try_except. specialize (Hm s).
  destruct (m s) as [[a|e] s']; cbn in *; [done|].
  destruct (c e); [|done]. eapply ext0_trans; [exact Hm | apply Hh].
Qed.

Lemma ext0_frame_set_new (cfg : Config) (xs : gset string) : ext0_frame cfg (set_new xs).
Proof.
  intros s. unfold set_new, bind, gets, modify, ret. cbn.
  repeat split; auto. intros l S Hl. exists S. split; [|done].
  by apply lookup_app_l_Some.
Qed.

Lemma ext0_frame_set_get (cfg : Config) (l : nat) : ext0_frame cfg (set_get l).
Proof.
  intros s. unfold set_get, bind, gets. cbn.
  destruct (heap s !! l); apply ext0_refl.
Qed.

Lemma ext0_frame_set_add (cfg : Config) (l : nat) (x : string) :
  ext0_frame cfg (set_add l x).
Proof.
  intros s. unfold set_add, set_get, bind, gets, modify, ret, raise. cbn.
  destruct (heap s !! l) as [xs|] eqn:Hl; cbn; [|apply ext0_refl].
  repeat split; auto. intros l' S Hl'.
  destruct (decide (l' = l)) as [->|Hne].
  - exists ({[x]} ∪ xs). split; [|set_solver].
    apply list_lookup_insert_eq. by eapply lookup_lt_Some.
  - exists S. split; [|done]. rewrite <- Hl'. by apply list_lookup_insert_ne.
Qed.

Lemma ext0_frame_normalize_path (cfg : Config) (path : string) :
  ext0_frame cfg (normalize_path cfg path).
Proof.
  intros s. unfold normalize_path, bind, gets, lift, modify, ret. cbn.
  destruct (truthy (normalized_path s !! path)); [apply ext0_refl|].
  destruct (relative_to_root cfg path) as [p|e] eqn:Hp; cbn; [|apply ext0_refl].
  repeat split; auto using heap_le_refl.
  intros Hmemo k v Hk. cbn in Hk.
  destruct (decide (k = path)) as [->|Hne].
  - rewrite lookup_insert_eq in Hk. congruence.
  - rewrite lookup_insert_ne in Hk by done. by apply Hmemo.
Qed.

Create HintDb ext0.

#[local] Hint Resolve ext0_frame_ret ext0_frame_raise ext0_frame_lift ext0_frame_gets
  ext0_frame_io_emit ext0_frame_with_git_repo_error ext0_frame_with_last_check
  ext0_frame_with_ignore_spec ext0_frame_set_new ext0_frame_set_get ext0_frame_set_add
  ext0_frame_normalize_path : ext0.

Ltac frame0 :=
  repeat first
    [ solve [auto with ext0]
    | apply ext0_frame_bind; [|intros ?]
    | apply ext0_frame_try_except; [|intros ?]
    | match goal with
      | |- ext0_frame _ (if ?b then _ else _) => destruct b
      | |- ext0_frame _ (match ?x with _ => _ end) => destruct x
      end ].

Lemma ext0_frame_refresh_aider_ignore (cfg : Config) (w : World) :
  ext0_frame cfg (refresh_aider_ignore cfg w).
Proof. unfold refresh_aider_ignore. frame0. Qed.

(** With nothing to consult, the filter ignores nothing. *)
Lemma ignored_file_raw_quiet (cfg : Config) (w : World) (fname : string) (s : St) :
  quiet cfg -> ignored_file_raw cfg w fname s = (Ok false, s).
Proof. intros [Hsub Hfile]. unfold ignored_file_raw. by rewrite Hsub, Hfile. Qed.

Lemma ext0_frame_ignored_file_raw (cfg : Config) (w : World) (fname : string) :
  ext0_frame cfg (ignored_file_raw cfg w fname).
Proof. unfold ignored_file_raw, outside_subtree, match_file. frame0. Qed.

Lemma ext0_frame_cache_put (cfg : Config) (fname : string) (result : bool) :
  (quiet cfg -> result = false) ->
  ext0_frame cfg
    (cache <- gets ignore_file_cache ;;
     modify (with_ignore_file_cache (<[fname := result]> cache)) ;;;
     ret result).
Proof.
  intros Hres s. unfold bind, gets, modify, ret. cbn.
  repeat split; auto using heap_le_refl.
  intros Hq Hcache k b Hk. cbn in Hk.
  destruct (decide (k = fname)) as [->|Hne].
  - rewrite lookup_insert_eq in Hk. rewrite Hres in Hk by done. congruence.
  - rewrite lookup_insert_ne in Hk by done. by eapply Hcache.
Qed.

Lemma ext0_frame_ignored_file (cfg : Config) (w : World) (fname : string) :
  ext0_frame cfg (ignored_file cfg w fname).
Proof.
  unfold ignored_file.
  apply ext0_frame_bind; [apply ext0_frame_refresh_aider_ignore|]. intros _.
  apply ext0_frame_bind; [auto with ext0|]. intros cache.
  destruct (cache !! fname); [auto with ext0|].
  apply (ext0_frame_bind_post cfg _ _ (fun result => quiet cfg -> result = false)).
  - apply ext0_frame_ignored_file_raw.
  - intros s a s' Hrun Hq. rewrite ignored_file_raw_quiet in Hrun by done. congruence.
  - intros result Hres. by apply ext0_frame_cache_put.
Qed.

Lemma ext0_frame_traverse (cfg : Config) (items : list tree_item) (files : nat) :
  ext0_frame cfg (traverse items files).
Proof.
  induction items as [|[type path|e] items IH]; cbn [traverse]; frame0.
Qed.

Lemma ext0_frame_normalize_all (cfg : Config) (paths : list string) :
  ext0_frame cfg (normalize_all cfg paths).
Proof. induction paths as [|p ps IH]; cbn [normalize_all]; frame0. Qed.

Lemma ext0_frame_update_normalized (cfg : Config) (files : nat) (paths : list string) :
  ext0_frame cfg (update_normalized cfg files paths).
Proof. induction paths as [|p ps IH]; cbn [update_normalized]; frame0. Qed.

Lemma ext0_frame_filter_ignored (cfg : Config) (w : World) (fnames : list string) :
  ext0_frame cfg (filter_ignored cfg w fnames).
Proof.
  pose proof (ext0_frame_ignored_file cfg w).
  induction fnames as [|f fs IH]; cbn [filter_ignored]; frame0.
Qed.

Lemma ext0_frame_unable_to_list (cfg : Config) (err : exn) :
  ext0_frame cfg (unable_to_list err).
Proof. unfold unable_to_list. frame0. Qed.

Lemma ext0_frame_add_staged_and_filter (cfg : Config) (w : World) (files : nat) :
  ext0_frame cfg (add_staged_and_filter cfg w files).
Proof.
  pose proof (ext0_frame_update_normalized cfg files).
  pose proof (ext0_frame_filter_ignored cfg w).
  unfold add_staged_and_filter. frame0.
Qed.

(** *** The cache entry is written once *)

Lemma after0_bind (cfg : Config) (s0 : St) {A B} (m : M St A) (k : A -> M St B) :
  ext0_frame cfg m -> (forall a, after0 cfg s0 (k a)) -> after0 cfg s0 (bind m k).
Proof.
  intros Hm Hk s Hs. unfold bind. specialize (Hm s).
  destruct (m s) as [[a|e] s']; cbn in *.
  - apply Hk. by eapply ext0_trans.
  - apply ext0_ext. by eapply ext0_trans.
Qed.

Lemma after0_ext0 (cfg : Config) (s0 : St) {A} (m : M St A) :
  ext0_frame cfg m -> after0 cfg s0 m.
Proof. intros Hm s Hs. apply ext0_ext. eapply ext0_trans; [exact Hs | apply Hm]. Qed.

Lemma after0_insert (cfg : Config) (s0 : St) {A} (commit : string) (copy : nat) (x : A) :
  tree_files s0 !! commit = None ->
  after0 cfg s0
    (cache <- gets tree_files ;;
     modify (with_tree_files (<[commit := copy]> cache)) ;;;
     ret x).
Proof.
  intros Hmiss s (Ht & Hh & Hm & Hc). unfold bind, gets, modify, ret. cbn.
  repeat split; auto.
  intros c l Hcl. cbn. rewrite Ht.
  rewrite lookup_insert_ne; [done | congruence].
Qed.

Lemma ext_frame_tree_paths (cfg : Config) (w : World) (commit : string) (files : nat) :
  ext_frame cfg (tree_paths cfg w commit files).
Proof.
  intros s. unfold tree_paths. unfold bind at 1, gets.
  destruct (tree_files s !! commit) eqn:Hmiss; [apply ext_refl|].
  match goal with
  | |- ext _ _ (snd (?m s)) =>
      enough (H : after0 cfg s m) by exact (H s (ext0_refl cfg s))
  end.
  apply after0_bind.
  { pose proof (ext0_frame_traverse cfg). pose proof (ext0_frame_unable_to_list cfg).
    frame0. }
  intros [|]; [|apply after0_ext0; auto with ext0].
  apply after0_bind; [auto with ext0|]. intros paths.
  apply after0_bind; [apply ext0_frame_normalize_all|]. intros normalized.
  apply after0_bind; [auto with ext0|]. intros files'.
  apply after0_bind; [auto with ext0|]. intros copy.
  by apply after0_insert.
Qed.

Lemma ext_frame_get_tracked_files (cfg : Config) (w : World) :
  ext_frame cfg (get_tracked_files cfg w).
Proof.
  intros s. unfold get_tracked_files.
  destruct (w_head_commit w) as [commit|e].
  - unfold bind at 1. pose proof (ext0_frame_set_new cfg ∅ s) as H0.
    destruct (set_new ∅ s) as [[files|e] s0]; cbn in H0; [|by apply ext0_ext].
    eapply ext_trans; [by apply ext0_ext|].
    unfold bind. pose proof (ext_frame_tree_paths cfg w commit files s0) as H1.
    destruct (tree_paths cfg w commit files s0) as [[[files'|]|e] s1]; cbn in H1;
      try done.
    eapply ext_trans; [exact H1|].
    apply ext0_ext, ext0_frame_add_staged_and_filter.
  - apply ext0_ext.
    pose proof (ext0_frame_add_staged_and_filter cfg w).
    pose proof (ext0_frame_unable_to_list cfg).
    revert s. change (ext0_frame cfg
      (if bool_decide (exn_cls e = ValueError)
       then files <- set_new ∅;; add_staged_and_filter cfg w files
       else if ANY_GIT_ERROR (exn_cls e) then unable_to_list e;;; ret [] else raise e)).
    frame0.
Qed.

Lemma ext_after_calls (cfg : Config) (ws : list World) (s : St) :
  ext cfg s (after_calls cfg ws s).
Proof.
  revert s. induction ws as [|w ws IH]; intros s; cbn; [apply ext_refl|].
  eapply ext_trans; [apply ext_frame_get_tracked_files | apply IH].
Qed.

(** *** Normalising the paths of the index *)

Lemma strip_prefix_app (pre l : list string) : strip_prefix pre (pre ++ l) = Some l.
Proof. induction pre as [|p pre IH]; cbn; [done|]. by rewrite String.eqb_refl. Qed.

(** A relative path is always under the root. *)
Lemma relative_to_root_relative (cfg : Config) (p : string) :
  anchored (Path p) = false -> exists q, relative_to_root cfg p = Ok q.
Proof.
  intros Hrel. unfold relative_to_root, joinpath, relative_to. rewrite Hrel. cbn.
  rewrite bool_decide_eq_true_2 by done. rewrite strip_prefix_app. eauto.
Qed.

Lemma normalize_path_runs (cfg : Config) (p q : string) (s : St) :
  memo_ok cfg s -> relative_to_root cfg p = Ok q ->
  exists s', normalize_path cfg p s = (Ok q, s') /\
             heap s' = heap s /\ tree_files s' = tree_files s.
Proof.
  intros Hmemo Hq. unfold normalize_path, bind, gets, lift, modify, ret.
  destruct (normalized_path s !! p) as [v|] eqn:Hv; cbn.
  - apply Hmemo in Hv. assert (v = q) as -> by congruence.
    destruct q; cbn; [|by eauto]. rewrite Hq. cbn. eauto.
  - rewrite Hq. cbn. eauto.
Qed.

(** The exceptions of [normalize_path] are [ValueError]s. *)
Lemma normalize_path_raises (cfg : Config) (p : string) (s s' : St) (e : exn) :
  normalize_path cfg p s = (Raise e, s') -> exn_cls e = ValueError.
Proof.
  unfold normalize_path, bind, gets, lift, modify, ret, relative_to_root.
  destruct (truthy _); [discriminate|].
  destruct (relative_to _ _); cbn; [discriminate|]. by inversion 1.
Qed.

Lemma set_get_runs (l : nat) (S : gset string) (s : St) :
  heap s !! l = Some S -> set_get l s = (Ok S, s).
Proof. intros Hl. unfold set_get, bind, gets, ret. by rewrite Hl. Qed.

Lemma set_add_runs (l : nat) (x : string) (S : gset string) (s : St) :
  heap s !! l = Some S ->
  set_add l x s = (Ok tt, with_heap (<[l := {[x]} ∪ S]> (heap s)) s).
Proof. intros Hl. unfold set_add, set_get, bind, gets, modify, ret. by rewrite Hl. Qed.

(** The paths of the index are normalised and join the object [l]. *)
Lemma update_normalized_adds (cfg : Config) (l : nat) (paths : list string)
    (S : gset string) (s : St) :
  memo_ok cfg s -> heap s !! l = Some S ->
  (forall x, In x paths -> anchored (Path x) = false) ->
  exists s',
    update_normalized cfg l paths s = (Ok tt, s') /\
    tree_files s' = tree_files s /\
    forall p q, In p paths -> relative_to_root cfg p = Ok q ->
      exists S', heap s' !! l = Some S' /\ q ∈ S'.
Proof.
  revert S s. induction paths as [|x xs IH]; intros S s Hmemo Hl Hrel.
  - exists s. repeat split; done.
  - destruct (relative_to_root_relative cfg x) as (qx & Hqx); [apply Hrel; by left|].
    destruct (normalize_path_runs cfg x qx s Hmemo Hqx) as (s1 & Hrun & Hh1 & Ht1).
    assert (Hmemo1 : memo_ok cfg s1).
    { pose proof (ext0_frame_normalize_path cfg x s) as (_ & _ & Hm & _).
      rewrite Hrun in Hm. by apply Hm. }
    assert (Hl1 : heap s1 !! l = Some S) by (by rewrite Hh1).
    cbn [update_normalized]. unfold bind at 1. rewrite Hrun.
    unfold bind at 1. rewrite (set_add_runs l qx S s1 Hl1).
    set (s2 := with_heap (<[l := {[qx]} ∪ S]> (heap s1)) s1).
    assert (Hl2 : heap s2 !! l = Some ({[qx]} ∪ S)).
    { cbn. apply list_lookup_insert_eq. by eapply lookup_lt_Some. }
    destruct (IH ({[qx]} ∪ S) s2) as (s' & Hrun' & Ht' & Hadd); [done | done | |].
    { intros y Hy. apply Hrel. by right. }
    exists s'. split; [exact Hrun'|]. split; [by rewrite Ht', <- Ht1|].
    intros p q [<-|Hin] Hq; [|by eauto].
    assert (qx = q) as <- by congruence.
    pose proof (ext0_frame_update_normalized cfg l xs s2) as (_ & Hh & _).
    rewrite Hrun' in Hh. destruct (Hh l _ Hl2) as (S' & HS' & Hsub).
    exists S'. split; [done | set_solver].
Qed.

(** Whatever the index holds, reading it into a set object that exists
    raises nothing but [ValueError]s. *)
Lemma update_normalized_raises (cfg : Config) (l : nat) (paths : list string)
    (s s' : St) (e : exn) :
  is_Some (heap s !! l) ->
  update_normalized cfg l paths s = (Raise e, s') -> exn_cls e = ValueError.
Proof.
  revert s. induction paths as [|x xs IH]; intros s [S Hl]; cbn [update_normalized];
    [discriminate|].
  unfold bind at 1.
  pose proof (ext0_frame_normalize_path cfg x s) as (_ & Hh & _).
  destruct (normalize_path cfg x s) as [[q|e'] s1] eqn:Hrun; cbn in Hh.
  - destruct (Hh l S Hl) as (S1 & Hl1 & _).
    unfold bind at 1. rewrite (set_add_runs l q S1 s1 Hl1).
    apply IH. cbn. eexists. apply list_lookup_insert_eq. by eapply lookup_lt_Some.
  - inversion 1; subst. by eapply normalize_path_raises.
Qed.

(** *** A filter with nothing to consult drops nothing *)

Lemma ignored_file_quiet (cfg : Config) (w : World) (fname : string) (s : St) :
  quiet cfg -> cache_false s ->
  exists s', ignored_file cfg w fname s = (Ok false, s').
Proof.
  intros Hq Hcache. unfold ignored_file, refresh_aider_ignore.
  destruct Hq as [Hsub Hfile]. rewrite Hfile. cbn [negb].
  unfold bind at 1, ret. unfold bind at 1, gets.
  destruct (ignore_file_cache s !! fname) as [b|] eqn:Hb.
  - rewrite (Hcache fname b Hb). eauto.
  - unfold bind at 1. rewrite ignored_file_raw_quiet by done.
    unfold bind, gets, modify, ret. eauto.
Qed.

Lemma filter_ignored_quiet (cfg : Config) (w : World) (fnames : list string) (s : St) :
  quiet cfg -> cache_false s ->
  exists s', filter_ignored cfg w fnames s = (Ok fnames, s').
Proof.
  intros Hq. revert s. induction fnames as [|f fs IH]; intros s Hcache; [by eexists|].
  destruct (ignored_file_quiet cfg w f s Hq Hcache) as (s1 & Hrun).
  pose proof (ext0_frame_ignored_file cfg w f s) as (_ & _ & _ & Hc).
  rewrite Hrun in Hc. destruct (IH s1 (Hc Hq Hcache)) as (s2 & Hrun2).
  cbn [filter_ignored]. unfold bind. rewrite Hrun, Hrun2. eauto.
Qed.

Lemma ext0_frame_read_and_filter (cfg : Config) (w : World) (l : nat) :
  ext0_frame cfg (all <- set_get l ;; filter_ignored cfg w (elements all)).
Proof. pose proof (ext0_frame_filter_ignored cfg w). frame0. Qed.

(** *** What a call does when the cache holds the head commit *)

Lemma get_tracked_files_hit (cfg : Config) (w : World) (c : string) (l : nat) (s : St) :
  tree_files s !! c = Some l -> w_head_commit w = Ok c ->
  get_tracked_files cfg w s
    = add_staged_and_filter cfg w l (with_heap (heap s ++ [∅]) s).
Proof.
  intros Hc Hhead. unfold get_tracked_files. rewrite Hhead.
  unfold bind, set_new, gets, modify, ret, tree_paths, bind, gets. cbn.
  by rewrite Hc.
Qed.

(** Reading the index into the set object [l] raises nothing that leaves
    the [try] block of lines 375-379. *)
Lemma staged_step_runs (cfg : Config) (w : World) (l : nat) (s : St) :
  is_Some (heap s !! l) ->
  (forall e, w_index w = Raise e -> ANY_GIT_ERROR (exn_cls e) = true) ->
  exists s1,
    try_except
      (staged_files <- lift (w_index w) ;; update_normalized cfg l staged_files)
      (fun e => ANY_GIT_ERROR (exn_cls e))
      (fun err => io_emit (tool_error ("Unable to read staged files: " +:+ exn_str err)))
      s = (Ok tt, s1).
Proof.
  intros Hl Hsoft. unfold try_except, bind, lift.
  destruct (w_index w) as [staged|e] eqn:Hindex.
  - destruct (update_normalized cfg l staged s) as [[[]|e] s1] eqn:Hrun; [by eauto|].
    apply update_normalized_raises in Hrun; [|done]. rewrite Hrun. cbn. eauto.
  - rewrite (Hsoft e eq_refl). cbn. eauto.
Qed.

Lemma ext0_frame_staged_step (cfg : Config) (w : World) (l : nat) :
  ext0_frame cfg
    (try_except
       (staged_files <- lift (w_index w) ;; update_normalized cfg l staged_files)
       (fun e => ANY_GIT_ERROR (exn_cls e))
       (fun err => io_emit (tool_error ("Unable to read staged files: "
                                        +:+ exn_str err)))).
Proof. pose proof (ext0_frame_update_normalized cfg l). frame0. Qed.

(** The call merges the index into the cached set object [l] itself. *)
Lemma cache_hit_merges_index (cfg : Config) (w : World) (c : string) (l : nat)
    (S : gset string) (staged : list string) (s : St) :
  tree_files s !! c = Some l -> heap s !! l = Some S -> memo_ok cfg s ->
  w_head_commit w = Ok c -> w_index w = Ok staged ->
  (forall x, In x staged -> anchored (Path x) = false) ->
  let s' := snd (get_tracked_files cfg w s) in
  tree_files s' !! c = Some l /\
  forall p q, In p staged -> relative_to_root cfg p = Ok q ->
    exists S', heap s' !! l = Some S' /\ q ∈ S'.
Proof.
  intros Hc Hl Hmemo Hhead Hindex Hrel. cbv zeta.
  rewrite (get_tracked_files_hit cfg w c l s Hc Hhead).
  set (s0 := with_heap (heap s ++ [∅]) s).
  assert (Hl0 : heap s0 !! l = Some S) by (by apply lookup_app_l_Some).
  destruct (update_normalized_adds cfg l staged S s0) as (s1 & Hrun & Ht1 & Hadd);
    [done..|].
  assert (Heq : add_staged_and_filter cfg w l s0
                = (all <- set_get l ;; filter_ignored cfg w (elements all)) s1).
  { unfold add_staged_and_filter. unfold bind at 1, try_except, bind at 1, lift.
    by rewrite Hindex, Hrun. }
  rewrite Heq.
  pose proof (ext0_frame_read_and_filter cfg w l s1) as (Ht2 & Hh2 & _).
  split; [by rewrite Ht2, Ht1|].
  intros p q Hp Hq. destruct (Hadd p q Hp Hq) as (S1 & HS1 & Hq1).
  destruct (Hh2 l S1 HS1) as (S2 & HS2 & Hsub). exists S2. split; [done | set_solver].
Qed.

(** A path of the cached set object is returned, the filter having nothing
    to consult. *)
Lemma cache_hit_returns_cached (cfg : Config) (w : World) (c q : string) (s : St) :
  quiet cfg -> cache_false s -> cached c q s ->
  w_head_commit w = Ok c ->
  (forall e, w_index w = Raise e -> ANY_GIT_ERROR (exn_cls e) = true) ->
  exists res, fst (get_tracked_files cfg w s) = Ok res /\ In q res.
Proof.
  intros Hq Hcache (l & S & Hc & Hl & HqS) Hhead Hsoft.
  rewrite (get_tracked_files_hit cfg w c l s Hc Hhead).
  set (s0 := with_heap (heap s ++ [∅]) s).
  assert (Hl0 : heap s0 !! l = Some S) by (by apply lookup_app_l_Some).
  destruct (staged_step_runs cfg w l s0) as (s1 & Hrun); [by eauto | done |].
  pose proof (ext0_frame_staged_step cfg w l s0) as (_ & Hh & _ & Hc1).
  rewrite Hrun in Hh, Hc1. cbn [snd] in Hh, Hc1.
  destruct (Hh l S Hl0) as (S1 & Hl1 & Hsub).
  assert (Heq : add_staged_and_filter cfg w l s0
                = (all <- set_get l ;; filter_ignored cfg w (elements all)) s1).
  { unfold add_staged_and_filter. unfold bind at 1. by rewrite Hrun. }
  rewrite Heq.
  unfold bind at 1. rewrite (set_get_runs l S1 s1 Hl1).
  destruct (filter_ignored_quiet cfg w (elements S1) s1 Hq) as (s2 & Hrun2).
  { apply Hc1; [done|]. exact Hcache. }
  rewrite Hrun2. exists (elements S1). split; [done|].
  apply list_elem_of_In, elem_of_elements. set_solver.
Qed.

Lemma memo_ok_init (cfg : Config) : memo_ok cfg init_state.
Proof. intros k v Hk. cbn in Hk. by rewrite lookup_empty in Hk. Qed.

Lemma cache_false_init : cache_false init_state.
Proof. intros k b Hk. cbn in Hk. by rewrite lookup_empty in Hk. Qed.

(** C10, as amended: a call that finds the head commit [c] in the cache,
    and reads an index of relative paths, merges the normalised paths of
    the index into the cached set object itself: the cache still names the
    same object [l], and [l] now holds them.  The object keeps them through
    every later call.  For a handle whose ignore filter has nothing to
    consult (subtree-only mode off, no ignore-pattern file, a result cache
    with negative answers only), each later call under head commit [c]
    therefore returns such a path, whatever the index then holds, as long
    as the failures of the index are errors of [ANY_GIT_ERROR]. *)
Theorem staged_path_stays_tracked (cfg : Config) (w1 : World) (c : string) (l : nat)
    (S : gset string) (staged : list string) (p q : string) (s : St) :
  tree_files s !! c = Some l ->
  heap s !! l = Some S ->
  memo_ok cfg s ->
  w_head_commit w1 = Ok c ->
  w_index w1 = Ok staged ->
  (forall x, In x staged -> anchored (Path x) = false) ->
  In p staged ->
  relative_to_root cfg p = Ok q ->
  let s1 := snd (get_tracked_files cfg w1 s) in
  tree_files s1 !! c = Some l /\
  (exists S1, heap s1 !! l = Some S1 /\ S ⊆ S1 /\ q ∈ S1) /\
  (forall ws, cached c q (after_calls cfg ws s1)) /\
  (quiet cfg -> cache_false s ->
   forall ws w,
     w_head_commit w = Ok c ->
     (forall e, w_index w = Raise e -> ANY_GIT_ERROR (exn_cls e) = true) ->
     exists res,
       fst (get_tracked_files cfg w (after_calls cfg ws s1)) = Ok res /\ In q res).
Proof.
  intros Hc Hl Hmemo Hhead Hindex Hrel Hp Hq s1.
  destruct (cache_hit_merges_index cfg w1 c l S staged s Hc Hl Hmemo Hhead Hindex Hrel)
    as (Hc1 & Hmerged).
  fold s1 in Hc1, Hmerged.
  destruct (Hmerged p q Hp Hq) as (S1 & Hl1 & Hq1).
  pose proof (ext_frame_get_tracked_files cfg w1 s) as (_ & Hh & _ & Hcache).
  fold s1 in Hh, Hcache.
  assert (Hcached : cached c q s1) by (exists l, S1; done).
  split; [done|]. split.
  { exists S1. destruct (Hh l S Hl) as (S1' & Hl1' & Hsub).
    assert (S1' = S1) as -> by congruence. done. }
  split.
  { intros ws. eapply cached_ext; [exact Hcached | apply ext_after_calls]. }
  intros Hquiet Hfalse ws w Hw Hsoft.
  pose proof (ext_after_calls cfg ws s1) as Hext.
  apply (cache_hit_returns_cached cfg w c q); try done.
  - destruct Hext as (_ & _ & _ & Hc'). apply Hc'; [done|]. by apply Hcache.
  - by eapply cached_ext.
Qed.

Lemma staged_path_stays_tracked_witness :
  let s := snd (get_tracked_files Examples.files_config_plain Examples.world_first
                  init_state) in
  let s1 := snd (get_tracked_files Examples.files_config_plain Examples.world_staged s) in
  tree_files s1 !! "c1" = Some 2 /\
  exists res,
    fst (get_tracked_files Examples.files_config_plain Examples.world_unstaged s1)
      = Ok res /\ In "b.txt" res.
Proof.
  intros s s1.
  pose proof (ext_frame_get_tracked_files Examples.files_config_plain
                Examples.world_first init_state) as (_ & _ & Hmemo & Hcache).
  destruct (staged_path_stays_tracked Examples.files_config_plain Examples.world_staged
              "c1" 2 {[ "a.txt" ]} ["a.txt"; "b.txt"] "b.txt" "b.txt" s)
    as (Hc1 & _ & _ & Hlater).
  - vm_compute. reflexivity.
  - vm_compute. reflexivity.
  - apply Hmemo, memo_ok_init.
  - reflexivity.
  - reflexivity.
  - intros x [<-|[<-|[]]]; reflexivity.
  - right. left. reflexivity.
  - vm_compute. reflexivity.
  - split; [exact Hc1|].
    apply (Hlater (conj eq_refl eq_refl) (Hcache (conj eq_refl eq_refl) cache_false_init)
             [] Examples.world_unstaged eq_refl).
    intros e He. discriminate He.
Defined.

(** C10 as stated fails twice.  A path that was staged during the call
    that filled the cache is forgotten: that call caches a copy of the tree
    paths, and the next call, with [b.txt] out of the index again, returns
    [a.txt] alone.  And a path that the ignore filter matches is kept in
    the cached set object and still never returned. *)
Lemma staged_path_is_not_always_returned :
  (let cfg := Examples.files_config_plain in
   let s1 := snd (get_tracked_files cfg Examples.world_staged init_state) in
   (exists res, fst (get_tracked_files cfg Examples.world_staged init_state) = Ok res /\
                In "b.txt" res) /\
   fst (get_tracked_files cfg Examples.world_unstaged s1) = Ok ["a.txt"]) /\
  (let cfg := Examples.files_config_ignore in
   let s1 := snd (get_tracked_files cfg Examples.world_ignoring_first init_state) in
   let s2 := snd (get_tracked_files cfg Examples.world_ignoring_staged s1) in
   tree_files s1 !! "c1" = Some 2 /\
   cached "c1" "b.txt" s2 /\
   fst (get_tracked_files cfg Examples.world_ignoring_staged s1) = Ok ["a.txt"] /\
   fst (get_tracked_files cfg Examples.world_ignoring_unstaged s2) = Ok ["a.txt"]).
Proof.
  split; cbv zeta.
  - split; [|vm_compute; reflexivity].
    eexists. split; [vm_compute; reflexivity|]. cbn. auto.
  - split; [vm_compute; reflexivity|]. split; [|split; vm_compute; reflexivity].
    exists 2, {[ "a.txt"; "b.txt" ]}. split; [vm_compute; reflexivity|].
    split; [vm_compute; reflexivity|]. set_solver.
Qed.

(** C4, at a concrete history under one head commit: a first call, a call
    with [b.txt] staged, and a call after [b.txt] has left the index.  The
    head tree and the index then hold [a.txt] only, [b.txt] is not ignored,
    and the third call returns [b.txt] all the same, out of the cache entry
    that the second call changed. *)
Theorem tracked_files_returns_unstaged_path :
  let cfg := Examples.files_config_plain in
  let s1 := snd (get_tracked_files cfg Examples.world_first init_state) in
  let s2 := snd (get_tracked_files cfg Examples.world_staged s1) in
  fst (get_tracked_files cfg Examples.world_first init_state) = Ok ["a.txt"] /\
  (exists res, fst (get_tracked_files cfg Examples.world_unstaged s2) = Ok res /\
               In "b.txt" res) /\
  head_blobs Examples.world_unstaged = ["a.txt"] /\
  staged_paths Examples.world_unstaged = ["a.txt"] /\
  elements (spec_candidates cfg Examples.world_unstaged) = ["a.txt"] /\
  fst (ignored_file cfg Examples.world_unstaged "b.txt" s2) = Ok false.
Proof.
  cbv zeta. split; [vm_compute; reflexivity|]. split.
  { eexists. split; [vm_compute; reflexivity|]. cbn. auto. }
  repeat split; vm_compute; reflexivity.
Qed.

End TrackedFiles.

(** * Further properties *)

(** ** Strings *)

Section Stripping.

Lemma lstrip_if_no_lead (p : ascii -> bool) (s : string) :
  no_lead p (lstrip_if p s) = true.
Proof.
  induction s as [|a s IH]; cbn; [done|].
  destruct (p a) eqn:Ha; [done|]. cbn. by rewrite Ha.
Qed.

Lemma rstrip_if_no_trail (p : ascii -> bool) (s : string) :
  no_trail p (rstrip_if p s) = true.
Proof.
  induction s as [|a s IH]; cbn; [done|].
  destruct (rstrip_if p s) as [|b r] eqn:Hr.
  - destruct (p a) eqn:Ha; cbn; [done | by rewrite Ha].
  - exact IH.
Qed.

Lemma rstrip_if_no_lead (p : ascii -> bool) (s : string) :
  no_lead p s = true -> no_lead p (rstrip_if p s) = true.
Proof.
  destruct s as [|a s]; cbn; [done|]. intros Ha.
  destruct (rstrip_if p s); cbn; [|done].
  apply negb_true_iff in Ha. rewrite Ha. cbn. by rewrite Ha.
Qed.

Lemma lstrip_if_fixed (p : ascii -> bool) (s : string) :
  no_lead p s = true -> lstrip_if p s = s.
Proof.
  destruct s as [|a s]; cbn; [done|]. intros Ha.
  apply negb_true_iff in Ha. by rewrite Ha.
Qed.

Lemma rstrip_if_fixed (p : ascii -> bool) (s : string) :
  no_trail p s = true -> rstrip_if p s = s.
Proof.
  induction s as [|a s IH]; [done|]. intros Ht.
  destruct s as [|b s].
  - cbn in *. apply negb_true_iff in Ht. by rewrite Ht.
  - change (no_trail p (String b s) = true) in Ht. specialize (IH Ht).
    change (rstrip_if p (String a (String b s)))
      with (match rstrip_if p (String b s) with
            | EmptyString => if p a then EmptyString else String a EmptyString
            | r => String a r
            end).
    by rewrite IH.
Qed.

(** What [strip] returns neither begins nor ends with a stripped character,
    and stripping it again changes nothing. *)
Lemma strip_if_stripped (p : ascii -> bool) (s : string) :
  no_lead p (strip_if p s) = true /\ no_trail p (strip_if p s) = true /\
  strip_if p (strip_if p s) = strip_if p s.
Proof.
  assert (Hl : no_lead p (strip_if p s) = true)
    by apply rstrip_if_no_lead, lstrip_if_no_lead.
  assert (Ht : no_trail p (strip_if p s) = true) by apply rstrip_if_no_trail.
  repeat split; [done..|].
  unfold strip_if at 1. by rewrite lstrip_if_fixed, rstrip_if_fixed.
Qed.

End Stripping.

(** ** The branch workflow, further *)

Section BranchWorkflow.
Import Branches.

Lemma safe_char_kept (c : ascii) :
  is_safe_char c = true ->
  is_word c || Ascii.eqb c "-" = true /\ lower_ascii c = c.
Proof.
  destruct c as [[] [] [] [] [] [] [] []]; vm_compute; intros H;
    first [split; reflexivity | discriminate H].
Qed.

Lemma lower_ascii_hyphen (c : ascii) :
  Ascii.eqb "-" (lower_ascii c) = Ascii.eqb "-" c.
Proof. destruct c as [[] [] [] [] [] [] [] []]; reflexivity. Qed.

Lemma lower_no_lead (s : string) :
  no_lead (Ascii.eqb "-") (lower s) = no_lead (Ascii.eqb "-") s.
Proof.
  destruct s as [|a s]; cbn [lower no_lead]; [done|]. by rewrite lower_ascii_hyphen.
Qed.

Lemma lower_no_trail (s : string) :
  no_trail (Ascii.eqb "-") (lower s) = no_trail (Ascii.eqb "-") s.
Proof.
  induction s as [|a s IH]; [done|].
  destruct s as [|b s]; [cbn [lower no_trail]; by rewrite lower_ascii_hyphen|].
  exact IH.
Qed.

Lemma re_sub_run_fixed (b : bool) (s : string) :
  all_chars (fun c => is_word c || Ascii.eqb c "-") s = true -> re_sub_run b s = s.
Proof.
  revert b. induction s as [|c s IH]; intros b; cbn; [done|].
  intros [Hc Hs]%andb_true_iff. rewrite Hc. by rewrite IH.
Qed.

Lemma lower_fixed (s : string) : all_chars is_safe_char s = true -> lower s = s.
Proof.
  induction s as [|c s IH]; cbn; [done|].
  intros [Hc Hs]%andb_true_iff. destruct (safe_char_kept c Hc) as [_ ->]. by rewrite IH.
Qed.

Lemma all_chars_weaken (p q : ascii -> bool) (s : string) :
  (forall c, p c = true -> q c = true) -> all_chars p s = true -> all_chars q s = true.
Proof.
  intros Hpq. induction s as [|c s IH]; cbn; [done|].
  intros [Hc Hs]%andb_true_iff. by rewrite Hpq, IH.
Qed.

(** X6: the sanitised suffix of line 578 neither begins nor ends with a hyphen,
    and sanitising it again gives it back. *)
Theorem safe_suffix_is_clean (suffix : string) :
  no_lead (Ascii.eqb "-") (safe_suffix suffix) = true /\
  no_trail (Ascii.eqb "-") (safe_suffix suffix) = true /\
  safe_suffix (safe_suffix suffix) = safe_suffix suffix.
Proof.
  destruct (strip_if_stripped (Ascii.eqb "-") (re_sub_run false suffix))
    as (Hl & Ht & _).
  assert (Hlead : no_lead (Ascii.eqb "-") (safe_suffix suffix) = true).
  { unfold safe_suffix, strip_char. by rewrite lower_no_lead. }
  assert (Htrail : no_trail (Ascii.eqb "-") (safe_suffix suffix) = true).
  { unfold safe_suffix, strip_char. by rewrite lower_no_trail. }
  repeat split; [done..|].
  pose proof (safe_suffix_chars suffix) as Hsafe.
  unfold safe_suffix at 1, strip_char, strip_if.
  rewrite re_sub_run_fixed.
  - rewrite lstrip_if_fixed, rstrip_if_fixed by done. by apply lower_fixed.
  - eapply all_chars_weaken; [|exact Hsafe]. intros c Hc. by apply safe_char_kept.
Qed.

Lemma fallback_when_branches_known_witness :
  exists st,
    _determine_git_flow_branches (init_state Examples.git_lost_head (Some "trunk"))
      = (Ok tt, st) /\
    primary_branch st = Some "trunk" /\
    develop_branch st = Some "develop".
Proof.
  destruct (fallback_when_branches_known Examples.git_lost_head (Some "trunk")
              ["master"; "develop"]
              (Exn ValueError "Could not determine current branch: HEAD is broken"))
    as (st & Hrun & Hp & Hd & _); [reflexivity | reflexivity |].
  exists st. split; [exact Hrun|]. split; [exact Hp | exact Hd].
Defined.


Lemma name_in_some (name : option string) (bs : list string) :
  name_in name bs = true -> exists n, name = Some n.
Proof. destruct name; [eauto | discriminate]. Qed.

Lemma resolution_try_path (g : Git) (name : option string) (bs : list string)
    (cur : string) :
  g_branches g = Ok bs -> get_current_branch g = Ok cur ->
  exists st,
    _determine_git_flow_branches (init_state g name) = (Ok tt, st) /\
    (exists p, primary_branch st = Some p) /\
    (develop_branch st = Some "develop" \/ develop_branch st = primary_branch st) /\
    git st = g /\ primary_branch_name st = name.
Proof.
  intros Hb Hc.
  unfold _determine_git_flow_branches, try_except, determine_try, bind, gets, lift,
    init_state.
  cbn. rewrite Hb, Hc. cbn.
  destruct (name_in name bs) eqn:Hn;
    [ destruct (name_in_some name bs Hn) as [n ->]
    | destruct (bool_decide ("main" ∈ bs));
       [| destruct (bool_decide ("master" ∈ bs));
          [| destruct (bool_decide ("develop" ∈ bs)) eqn:H3 ] ] ];
    cbn;
    try (destruct (bool_decide ("develop" ∈ bs))); cbn;
    try (case_bool_decide; cbn);
    (eexists; split; [reflexivity|]); cbn; eauto 10.
Qed.

Lemma resolution_fallback_path (g : Git) (name : option string) (bs : list string)
    (e : exn) :
  g_branches g = Ok bs -> get_current_branch g = Raise e ->
  exists st,
    _determine_git_flow_branches (init_state g name) = (Ok tt, st) /\
    (exists p, primary_branch st = Some p) /\
    (develop_branch st = Some "develop" \/ develop_branch st = primary_branch st) /\
    git st = g /\ primary_branch_name st = name.
Proof.
  intros Hb Hc.
  unfold _determine_git_flow_branches, try_except, determine_try, determine_fallback,
    bind, gets, lift, init_state.
  cbn. rewrite Hb, Hc. cbn. rewrite Hb. cbn.
  destruct (bool_decide ("develop" ∈ bs)); cbn;
    (eexists; split; [reflexivity|]); cbn; eauto 10.
Qed.

(** X1: the resolver returns normally exactly when the branches can be
    enumerated; it then leaves both roles set, develop being [develop] or
    the primary name, and the repository and the configured name as they
    were. *)
Theorem resolution_returns_iff_enumerable (g : Git) (name : option string) :
  (fst (_determine_git_flow_branches (init_state g name)) = Ok tt
   <-> exists bs, g_branches g = Ok bs) /\
  forall st,
    _determine_git_flow_branches (init_state g name) = (Ok tt, st) ->
    (exists p, primary_branch st = Some p) /\
    (develop_branch st = Some "develop" \/ develop_branch st = primary_branch st) /\
    git st = g /\ primary_branch_name st = name.
Proof.
  destruct (g_branches g) as [bs|e] eqn:Hb.
  - assert (Hrun : exists st,
      _determine_git_flow_branches (init_state g name) = (Ok tt, st) /\
      (exists p, primary_branch st = Some p) /\
      (develop_branch st = Some "develop" \/ develop_branch st = primary_branch st) /\
      git st = g /\ primary_branch_name st = name).
    { destruct (get_current_branch g) as [cur|e] eqn:Hc;
        [by eapply resolution_try_path | by eapply resolution_fallback_path]. }
    destruct Hrun as (st & Hrun & Hfacts).
    split; [rewrite Hrun; split; eauto|].
    intros st' Hst'. rewrite Hrun in Hst'. by inversion Hst'; subst st'.
  - assert (Hrun : fst (_determine_git_flow_branches (init_state g name)) = Raise e).
    { unfold _determine_git_flow_branches, try_except, determine_try, determine_fallback,
        bind, gets, lift, init_state. cbn. rewrite Hb. cbn. by rewrite Hb. }
    split.
    + rewrite Hrun. split; [discriminate | intros [bs Hbs]; discriminate].
    + intros st Hst. rewrite Hst in Hrun. discriminate.
Qed.

(** X3: [get_current_branch] names a detached head by the first seven
    characters of its hexsha, and turns every error of [TypeError],
    [AttributeError] or [ANY_GIT_ERROR] into a [ValueError]; only an
    exception outside these classes comes out as it is. *)
Theorem get_current_branch_errors (g : Git) :
  (forall e h, g_active_branch g = Raise e -> exn_cls e = TypeError ->
     g_head_hexsha g = Ok h ->
     get_current_branch g = Ok (take_str 7 h +:+ " (Detached HEAD)")) /\
  (forall e, get_current_branch g = Raise e ->
     exn_cls e = ValueError \/
     (g_active_branch g = Raise e /\ ANY_GIT_ERROR (exn_cls e) = false)).
Proof.
  unfold get_current_branch. split.
  - intros e h He Hcls Hh. rewrite He, Hcls, Hh.
    rewrite !bool_decide_eq_true_2 by done. cbn. by rewrite orb_true_r.
  - intros e. destruct (g_active_branch g) as [name|e0]; [discriminate|].
    destruct (_ || _ || ANY_GIT_ERROR (exn_cls e0)) eqn:Hcaught.
    + destruct (contains "detached" (lower (exn_str e0))
                || bool_decide (exn_cls e0 = TypeError));
        [destruct (g_head_hexsha g)|];
        intros H; inversion H; subst; auto.
    + intros H. inversion H; subst. right. split; [done|].
      by apply orb_false_iff in Hcaught as [_ ?].
Qed.

(** X4: [checkout_branch] changes nothing when it fails: whatever it raises,
    the handle and the repository are as before.  On a dirty tree it raises
    [ValueError]; when it returns, the tree was clean, the named branch is
    checked out and the switch has been announced. *)
Theorem checkout_branch_outcomes (branch_name : string) (st : St) :
  (forall e st', checkout_branch branch_name st = (Raise e, st') -> st' = st) /\
  (g_is_dirty (git st) = Ok true ->
   exists e, checkout_branch branch_name st = (Raise e, st) /\ exn_cls e = ValueError) /\
  (forall st', checkout_branch branch_name st = (Ok tt, st') ->
     g_is_dirty (git st) = Ok false /\
     git st' = checked_out (git st) branch_name /\
     io st' = io st ++ [tool_output ("Switched to branch '" +:+ branch_name +:+ "'.")]).
Proof.
  unfold checkout_branch, is_dirty, bind, gets, lift, try_except, git_checkout, raise.
  cbn.
  destruct (g_is_dirty (git st)) as [[|]|e0]; cbn.
  - split; [by inversion 1|]. split; [eauto | discriminate].
  - destruct (g_checkout_error (git st) branch_name) as [e1|]; cbn.
    + destruct (bool_decide (exn_cls e1 = GitCommandError)); cbn;
        (split; [by inversion 1|]); (split; discriminate).
    + split; [discriminate|]. split; [discriminate|]. by inversion 1.
  - split; [by inversion 1|]. split; discriminate.
Qed.

(** X5: on a dirty tree [create_feature_branch] raises [ValueError] before it
    asks or changes anything. *)
Theorem create_feature_branch_dirty (clk : Clock) (suffix : option string) (st : St) :
  g_is_dirty (git st) = Ok true ->
  exists e,
    create_feature_branch clk suffix st = (Raise e, st) /\ exn_cls e = ValueError.
Proof.
  intros Hd. unfold create_feature_branch, is_dirty, bind, gets, lift. cbn.
  rewrite Hd. cbn. eauto.
Qed.

Lemma create_feature_branch_dirty_witness :
  exists e,
    create_feature_branch Examples.clock_cet (Some "parser") Examples.handle_dirty_tree
      = (Raise e, Examples.handle_dirty_tree) /\ exn_cls e = ValueError.
Proof.
  apply (create_feature_branch_dirty Examples.clock_cet (Some "parser")
           Examples.handle_dirty_tree).
  reflexivity.
Defined.

#[local] Arguments feature_branch_name : simpl never.
#[local] Arguments strftime_Ymd_HMS : simpl never.
#[local] Arguments take_str : simpl never.

(** X7: a new branch whose checkout is refused stays behind: on the develop
    branch with a clean tree, when [create_head] succeeds and the checkout
    of the new branch fails with [GitCommandError], [create_feature_branch]
    raises [ValueError], the new branch exists, and the develop branch is
    still the one checked out. *)
Theorem create_feature_branch_checkout_refused (clk : Clock) (suffix : option string)
    (st : St) (dev : string) (bs : list string) (e : exn) :
  g_is_dirty (git st) = Ok false ->
  get_current_branch (git st) = Ok dev ->
  develop_branch st = Some dev ->
  g_branches (git st) = Ok bs ->
  let name := feature_branch_name (strftime_Ymd_HMS (now_local clk))
                (match g_commit_hexsha (git st) (Some dev) with
                 | Ok h => take_str 6 h
                 | Raise _ => "nohash"
                 end) suffix in
  name ∉ bs ->
  g_create_head_error (git st) name = None ->
  g_checkout_error (git st) name = Some e ->
  exn_cls e = GitCommandError ->
  exists st',
    create_feature_branch clk suffix st
      = (Raise (Exn ValueError ("Could not create or checkout feature branch '"
                                +:+ name +:+ "': " +:+ exn_str e)), st') /\
    g_branches (git st') = Ok (bs ++ [name]) /\
    g_active_branch (git st') = g_active_branch (git st) /\
    io st' = io st.
Proof.
  intros Hd Hc Hdev Hb name Hnew Hcreate Hco Hcls.
  unfold create_feature_branch, is_dirty, bind, gets, lift. cbn.
  rewrite Hd, Hc, Hdev. cbn.
  rewrite bool_decide_eq_false_2 by (intros H; by apply H).
  unfold try_except, bind, gets, lift, ret. cbn. rewrite Hb. cbn.
  fold name. rewrite bool_decide_eq_false_2 by done.
  unfold git_create_head, git_checkout, bind, gets, raise. cbn.
  rewrite Hcreate. cbn. rewrite Hco. cbn. rewrite Hcls. cbn.
  eexists. split; [reflexivity|]. cbn. by rewrite Hb.
Qed.

Lemma create_feature_branch_checkout_refused_witness :
  exists st',
    create_feature_branch Examples.clock_cet None Examples.handle_checkout_refused
      = (Raise (Exn ValueError
           "Could not create or checkout feature branch 'aider/feature-20261103-140509-abc123': checkout failed"),
         st') /\
    g_branches (git st')
      = Ok ["master"; "develop"; "aider/feature-20261103-140509-abc123"] /\
    g_active_branch (git st') = Ok "develop".
Proof.
  destruct (create_feature_branch_checkout_refused Examples.clock_cet None
              Examples.handle_checkout_refused "develop" ["master"; "develop"]
              (Exn GitCommandError "checkout failed"))
    as (st' & Hrun & Hbs & Hactive & _);
    [ reflexivity | reflexivity | reflexivity | reflexivity
    | | reflexivity | reflexivity | reflexivity | ].
  - vm_compute. intros H. apply elem_of_cons in H as [H|H]; [discriminate|].
    apply elem_of_cons in H as [H|H]; [discriminate|]. by apply elem_of_nil in H.
  - exists st'. split; [exact Hrun|]. split; [exact Hbs | exact Hactive].
Defined.

#[local] Instance str_le_total : Total str_le.
Proof. intros a b. apply String.leb_total. Qed.

(** X8: [list_aider_branches] returns, sorted and without repetition, exactly
    the branches whose name begins with [aider/] together with the primary
    branch, and leaves the handle as it was. *)
Theorem list_aider_branches_sorted (st : St) (bs : list string) :
  g_branches (git st) = Ok bs ->
  exists res,
    list_aider_branches st = (Ok res, st) /\
    Sorted str_le res /\
    NoDup res /\
    forall b, b ∈ res <->
      (b ∈ bs /\ String.prefix "aider/" b = true) \/
      (truthy (primary_branch st) = true /\ primary_branch st = Some b).
Proof.
  intros Hb. unfold list_aider_branches, try_except, bind, gets, lift, ret. cbn.
  rewrite Hb. cbn. eexists. split; [reflexivity|].
  split; [apply Sorted_merge_sort, _|]. split.
  - unfold sorted. rewrite merge_sort_Permutation. apply NoDup_elements.
  - intros b. unfold sorted. rewrite merge_sort_Permutation, elem_of_elements.
    destruct (primary_branch st) as [[|c p]|]; cbn.
    + rewrite elem_of_list_to_set, list_elem_of_filter. split; [tauto|].
      intros [?|[? ?]]; [tauto | discriminate].
    + rewrite elem_of_union, elem_of_singleton, elem_of_list_to_set, list_elem_of_filter.
      split.
      * intros [->|[? ?]]; auto.
      * intros [[? ?]|[_ Hp]]; [auto | left; congruence].
    + rewrite elem_of_list_to_set, list_elem_of_filter. split; [tauto|].
      intros [?|[? ?]]; [tauto | discriminate].
Qed.

Lemma list_aider_branches_sorted_witness :
  list_aider_branches Examples.handle_main_feature
    = (Ok ["aider/feature-x"; "main"], Examples.handle_main_feature)
  /\ Sorted str_le ["aider/feature-x"; "main"].
Proof.
  destruct (list_aider_branches_sorted Examples.handle_main_feature
              ["main"; "aider/feature-x"] eq_refl) as (res & Hrun & Hsorted & _).
  assert (Hres : res = ["aider/feature-x"; "main"]).
  { assert (H : fst (list_aider_branches Examples.handle_main_feature)
                = Ok ["aider/feature-x"; "main"]) by (vm_compute; reflexivity).
    rewrite Hrun in H. cbn in H. congruence. }
  subst res. split; [exact Hrun | exact Hsorted].
Defined.

End BranchWorkflow.

(** ** Further paths through [create_feature_branch] *)

Section FeatureBranchPaths.
Import Branches.

#[local] Arguments feature_branch_name : simpl never.
#[local] Arguments strftime_Ymd_HMS : simpl never.
#[local] Arguments take_str : simpl never.

(** X28: lines 559-566: away from the develop branch, with a clean tree, when
    the develop branch cannot be checked out [create_feature_branch]
    announces the switch and raises [ValueError] with the reason; the
    repository is as before, so no branch was created. *)
Theorem create_feature_branch_switch_refused (clk : Clock) (suffix : option string)
    (st : St) (cur dev : string) (e : exn) :
  g_is_dirty (git st) = Ok false ->
  get_current_branch (git st) = Ok cur ->
  develop_branch st = Some dev ->
  dev <> "" ->
  cur <> dev ->
  g_checkout_error (git st) dev = Some e ->
  exn_cls e = GitCommandError ->
  exists st',
    create_feature_branch clk suffix st
      = (Raise (Exn ValueError
                  ("Could not switch to develop branch '" +:+ dev
                   +:+ "' to create feature branch: "
                   +:+ ("Could not checkout branch '" +:+ dev +:+ "': " +:+ exn_str e))),
         st') /\
    git st' = git st /\
    io st' = io st ++ [tool_output ("Switching to develop branch '" +:+ dev
                                    +:+ "' to create feature branch...")].
Proof.
  intros Hd Hc Hdev Hne Hcur Hco Hcls.
  assert (Htruthy : truthy (Some dev) = true) by (by destruct dev).
  unfold create_feature_branch, is_dirty, bind, gets, lift. cbn.
  rewrite Hd, Hc, Hdev. cbn.
  rewrite bool_decide_eq_true_2 by congruence.
  unfold io_emit, modify, try_except, checkout_develop_branch, bind, gets. cbn.
  rewrite Hdev, Htruthy.
  unfold checkout_branch, is_dirty, bind, gets, lift. cbn. rewrite Hd. cbn.
  unfold try_except, git_checkout, bind, gets, raise. cbn.
  rewrite Hco. cbn. rewrite Hcls. cbn.
  eexists. split; [reflexivity|]. done.
Qed.

Lemma create_feature_branch_switch_refused_witness :
  exists st',
    create_feature_branch Examples.clock_cet (Some "parser")
      Examples.handle_develop_locked
      = (Raise (Exn ValueError
                  ("Could not switch to develop branch '" +:+ "develop"
                   +:+ "' to create feature branch: "
                   +:+ ("Could not checkout branch '" +:+ "develop" +:+ "': "
                        +:+ exn_str (Exn GitCommandError "index.lock exists")))),
         st') /\
    git st' = git Examples.handle_develop_locked /\
    io st' = io Examples.handle_develop_locked
             ++ [tool_output ("Switching to develop branch '" +:+ "develop"
                              +:+ "' to create feature branch...")].
Proof.
  apply (create_feature_branch_switch_refused Examples.clock_cet (Some "parser")
           Examples.handle_develop_locked "master" "develop"
           (Exn GitCommandError "index.lock exists")).
  - reflexivity.
  - reflexivity.
  - reflexivity.
  - discriminate.
  - discriminate.
  - reflexivity.
  - reflexivity.
Defined.

(** X29: lines 588-593: on the develop branch with a clean tree, if a branch of
    the computed name exists already, [create_feature_branch] creates
    nothing: it warns, checks the existing branch out and returns its
    name. *)
Theorem create_feature_branch_existing (clk : Clock) (suffix : option string)
    (st : St) (dev : string) (bs : list string) :
  g_is_dirty (git st) = Ok false ->
  get_current_branch (git st) = Ok dev ->
  develop_branch st = Some dev ->
  g_branches (git st) = Ok bs ->
  let name := feature_branch_name (strftime_Ymd_HMS (now_local clk))
                (match g_commit_hexsha (git st) (Some dev) with
                 | Ok h => take_str 6 h
                 | Raise _ => "nohash"
                 end) suffix in
  name ∈ bs ->
  g_checkout_error (git st) name = None ->
  exists st',
    create_feature_branch clk suffix st = (Ok name, st') /\
    git st' = checked_out (git st) name /\
    g_branches (git st') = Ok bs /\
    io st' = io st ++ [tool_warning ("Branch '" +:+ name
                                     +:+ "' already exists. Checking it out.");
                       tool_output ("Switched to branch '" +:+ name +:+ "'.")].
Proof.
  intros Hd Hc Hdev Hb name Hin Hco.
  unfold create_feature_branch, is_dirty, bind, gets, lift. cbn.
  rewrite Hd, Hc, Hdev. cbn.
  rewrite bool_decide_eq_false_2 by (intros H; by apply H).
  unfold try_except, bind, gets, lift, ret. cbn. rewrite Hb. cbn.
  fold name. rewrite bool_decide_eq_true_2 by done.
  unfold io_emit, modify, checkout_branch, is_dirty, bind, gets, lift. cbn.
  rewrite Hd. cbn.
  unfold try_except, git_checkout, bind, gets, set_git, modify. cbn.
  rewrite Hco. cbn.
  eexists. split; [reflexivity|]. cbn. rewrite <- app_assoc. done.
Qed.

Lemma create_feature_branch_existing_witness :
  exists st',
    create_feature_branch Examples.clock_cet None Examples.handle_feature_exists
      = (Ok "aider/feature-20261103-140509-abc123", st') /\
    git st' = checked_out (git Examples.handle_feature_exists)
                "aider/feature-20261103-140509-abc123" /\
    g_branches (git st')
      = Ok ["master"; "develop"; "aider/feature-20261103-140509-abc123"] /\
    io st' = io Examples.handle_feature_exists
             ++ [tool_warning ("Branch '" +:+ "aider/feature-20261103-140509-abc123"
                               +:+ "' already exists. Checking it out.");
                 tool_output ("Switched to branch '"
                              +:+ "aider/feature-20261103-140509-abc123" +:+ "'.")].
Proof.
  destruct (create_feature_branch_existing Examples.clock_cet None
              Examples.handle_feature_exists "develop"
              ["master"; "develop"; "aider/feature-20261103-140509-abc123"])
    as (st' & Hrun & Hgit & Hbs & Hio);
    [ reflexivity | reflexivity | reflexivity | reflexivity | | reflexivity | ].
  - vm_compute. do 2 right. left.
  - exists st'. split; [exact Hrun|]. split; [exact Hgit|]. split; [exact Hbs | exact Hio].
Defined.

End FeatureBranchPaths.

(** ** The commit, further *)

Section CommitFurther.
Import Commit.

Lemma staged_only_refl (s : St) : staged_only s s.
Proof. exists []. rewrite app_nil_r. repeat split. intros w []. Qed.

Lemma staged_only_trans (s1 s2 s3 : St) :
  staged_only s1 s2 -> staged_only s2 s3 -> staged_only s1 s3.
Proof.
  intros (a1 & Hw1 & Ha1 & Hh1) (a2 & Hw2 & Ha2 & Hh2).
  exists (a1 ++ a2). rewrite Hw2, Hw1, app_assoc. repeat split; [|congruence].
  intros w [?|?]%in_app_iff; auto.
Qed.

Lemma staged_frame_bind {A B} (m : M St A) (k : A -> M St B) :
  staged_frame m -> (forall a, staged_frame (k a)) -> staged_frame (bind m k).
Proof.
  intros Hm Hk s. unfold bind. specialize (Hm s).
  destruct (m s) as [[a|e] s']; cbn in *; [|done].
  eapply staged_only_trans; [exact Hm | apply Hk].
Qed.

Lemma staged_frame_try_except {A} (m : M St A) (c : exn -> bool) (h : exn -> M St A) :
  staged_frame m -> (forall e, staged_frame (h e)) -> staged_frame (try_except m c h).
Proof.
  intros Hm Hh s. unfold try_except. specialize (Hm s).
  destruct (m s) as [[a|e] s']; cbn in *; [done|].
  destruct (c e); [|done]. eapply staged_only_trans; [exact Hm | apply Hh].
Qed.

Lemma staged_frame_ret {A} (a : A) : staged_frame (ret a).
Proof. intros s. apply staged_only_refl. Qed.

Lemma staged_frame_raise {A} (e : exn) : staged_frame (raise (A := A) e).
Proof. intros s. apply staged_only_refl. Qed.

Lemma staged_frame_lift {A} (r : result A) : staged_frame (lift r).
Proof. intros s. apply staged_only_refl. Qed.

Lemma staged_frame_gets {A} (f : St -> A) : staged_frame (gets f).
Proof. intros s. apply staged_only_refl. Qed.

Lemma staged_frame_io_emit (ev : io_event) : staged_frame (io_emit ev).
Proof. intros s. exists []. cbn. rewrite app_nil_r. repeat split. intros w []. Qed.

Lemma staged_frame_log_add (f : string) : staged_frame (log_write (W_add f)).
Proof.
  intros s. exists [W_add f]. repeat split. intros w [<-|[]]. eauto.
Qed.

Create HintDb staged.

#[local] Hint Resolve staged_frame_ret staged_frame_raise staged_frame_lift
  staged_frame_gets staged_frame_io_emit staged_frame_log_add : staged.

Ltac staged :=
  repeat first
    [ solve [auto with staged]
    | apply staged_frame_bind; [|intros ?]
    | apply staged_frame_try_except; [|intros ?]
    | match goal with
      | |- staged_frame (if ?b then _ else _) => destruct b
      | |- staged_frame (match ?x with _ => _ end) => destruct x
      end ].

Lemma staged_frame_in_handle {A} (m : M Files.St A) : staged_frame (in_handle m).
Proof.
  intros s. unfold in_handle. destruct (m _) as [res f]. cbn.
  exists []. rewrite app_nil_r. repeat split. intros w [].
Qed.

Lemma staged_frame_added_markers (r : Repo) (fnames : list string) (diffs : string) :
  staged_frame (added_markers r fnames diffs).
Proof.
  revert diffs. induction fnames as [|f fs IH]; intros diffs; cbn [added_markers].
  - apply staged_frame_ret.
  - apply staged_frame_bind; [apply staged_frame_in_handle|].
    intros known. destruct (default false known); apply IH.
Qed.

Lemma staged_frame_get_diffs (r : Repo) (fnames : list string) :
  staged_frame (get_diffs r fnames).
Proof.
  unfold get_diffs. apply staged_frame_bind; [apply staged_frame_lift|].
  intros has_commits.
  apply staged_frame_bind; [apply staged_frame_added_markers|]. intros diffs. staged.
Qed.

Lemma staged_frame_get_commit_message (cfg : Config) (diffs : string)
    (context : option string) :
  staged_frame (get_commit_message cfg diffs context).
Proof.
  unfold get_commit_message. cbv zeta. apply staged_frame_bind.
  - destruct (models cfg) as [ms|]; [|apply staged_frame_raise].
    intros s. rewrite ask_models_pure. apply staged_only_refl.
  - intros commit_message. staged.
Qed.

Lemma staged_frame_attribute_message (cfg : Config) (aider_edits : bool)
    (m : option string) :
  staged_frame (attribute_message cfg aider_edits m).
Proof. unfold attribute_message, add_prefix. staged. Qed.

Lemma staged_frame_add_all (r : Repo) (fnames : list string) :
  staged_frame (add_all r fnames).
Proof. induction fnames as [|f fs IH]; cbn; staged. Qed.

Lemma staged_frame_stage (cfg : Config) (r : Repo) (fnames : list string) (m : string) :
  staged_frame (stage cfg r fnames m).
Proof.
  unfold stage. destruct fnames; [staged|].
  apply staged_frame_bind; [apply staged_frame_add_all | staged].
Qed.

(** The command that [stage] returns begins with [-m] and the message. *)
Lemma stage_command (cfg : Config) (r : Repo) (fnames : list string) (m : string)
    (s s' : St) (cmd : list string) :
  stage cfg r fnames m s = (Ok cmd, s') ->
  cmd = ["-m"; m] ++ (if git_commit_verify cfg then [] else ["--no-verify"])
        ++ match fnames with
           | [] => ["-a"]
           | _ => "--" :: map (abs_root_path cfg) fnames
           end.
Proof.
  unfold stage. destruct fnames as [|f fs].
  - unfold ret. by inversion 1.
  - unfold bind, ret. destruct (add_all _ _ _) as [[[]|e] s1]; by inversion 1.
Qed.

Lemma bind_cases {S A B} (m : M S A) (k : A -> M S B) (s : S) :
  (exists a s1, m s = (Ok a, s1) /\ bind m k s = k a s1) \/
  (exists e s1, m s = (Raise e, s1) /\ bind m k s = (Raise e, s1)).
Proof. unfold bind. destruct (m s) as [[a|e] s1]; eauto 10. Qed.

Lemma commit_under_overrides_writes (cfg : Config) (r : Repo) (aider_edits : bool)
    (cmd : list string) (commit_message : string) (s : St) :
  let '(res, s') := commit_under_overrides cfg r aider_edits cmd commit_message s in
  match res with
  | Ok (Some (h, m)) =>
      m = commit_message /\
      exists env hexsha,
        writes s' = writes s ++ [W_commit cmd env] /\
        r_commit r cmd env = Ok hexsha /\
        head_commit s' = Ok hexsha /\ h = Some (take_str 7 hexsha)
  | _ => writes s' = writes s /\ head_commit s' = head_commit s
  end.
Proof.
  destruct (r_config_user_name r) as [user|e] eqn:Hu.
  - rewrite (commit_under_overrides_run _ _ _ _ _ user) by done. cbv zeta.
    destruct (r_commit _ _ _) as [hexsha|e] eqn:Hc; [by eauto 10|].
    destruct (ANY_GIT_ERROR _); done.
  - unfold commit_under_overrides, bind, lift. by rewrite Hu.
Qed.

(** X10: [commit] writes a commit exactly when it returns a pair.  It then has
    written one commit, last, with the returned message after [-m],
    [--no-verify] exactly when hook verification is off, and the given
    paths (or [-a]); the hash returned is the head's.  In every other
    outcome, absent or raised, nothing but [git add] has touched the
    repository. *)
Theorem commit_writes_one_commit (cfg : Config) (r : Repo) (fnames : list string)
    (context message : option string) (aider_edits : bool) (st : St) :
  let '(res, st') := commit cfg r fnames context message aider_edits st in
  match res with
  | Ok (Some (h, m)) =>
      exists adds env hexsha,
        only_adds adds /\
        writes st'
          = writes st ++ adds
            ++ [W_commit (["-m"; m]
                          ++ (if git_commit_verify cfg then [] else ["--no-verify"])
                          ++ match fnames with
                             | [] => ["-a"]
                             | _ => "--" :: map (abs_root_path cfg) fnames
                             end) env] /\
        head_commit st' = Ok hexsha /\ h = Some (take_str 7 hexsha)
  | _ => staged_only st st'
  end.
Proof.
  unfold commit.
  (* the clean test *)
  match goal with |- context [bind ?m ?k st] =>
    assert (H1 : staged_frame m) by (destruct fnames; staged);
    destruct (bind_cases m k st) as [(clean & s1 & Hm & ->) | (e & s1 & Hm & ->)];
    specialize (H1 st); rewrite Hm in H1; cbn [snd] in H1; [|exact H1]
  end.
  destruct clean; [exact H1|].
  (* the diff *)
  match goal with |- context [bind ?m ?k s1] =>
    pose proof (staged_frame_get_diffs r fnames s1) as H2;
    destruct (bind_cases m k s1) as [(diffs & s2 & Hm2 & ->) | (e & s2 & Hm2 & ->)];
    rewrite Hm2 in H2; cbn [snd] in H2;
    pose proof (staged_only_trans _ _ _ H1 H2) as H12; [|exact H12]
  end.
  destruct (negb (truthy diffs)); [exact H12|].
  (* the message *)
  match goal with |- context [bind ?m ?k s2] =>
    assert (H3 : staged_frame m)
      by (destruct (truthy message);
          [staged | apply staged_frame_get_commit_message]);
    destruct (bind_cases m k s2) as [(cm & s3 & Hm3 & ->) | (e & s3 & Hm3 & ->)];
    specialize (H3 s2); rewrite Hm3 in H3; cbn [snd] in H3;
    pose proof (staged_only_trans _ _ _ H12 H3) as H123; [|exact H123]
  end.
  match goal with |- context [bind ?m ?k s3] =>
    pose proof (staged_frame_attribute_message cfg aider_edits cm s3) as H4;
    destruct (bind_cases m k s3) as [(cm' & s4 & Hm4 & ->) | (e & s4 & Hm4 & ->)];
    rewrite Hm4 in H4; cbn [snd] in H4;
    pose proof (staged_only_trans _ _ _ H123 H4) as H1234; [|exact H1234]
  end.
  cbv zeta.
  (* the staging *)
  match goal with |- context [bind ?m ?k s4] =>
    pose proof (staged_frame_stage cfg r fnames (or_placeholder cm') s4) as H5;
    destruct (bind_cases m k s4) as [(cmd & s5 & Hm5 & ->) | (e & s5 & Hm5 & ->)];
    rewrite Hm5 in H5; cbn [snd] in H5;
    pose proof (staged_only_trans _ _ _ H1234 H5) as Hpre; [|exact Hpre]
  end.
  apply stage_command in Hm5.
  (* the commit *)
  pose proof (commit_under_overrides_writes cfg r aider_edits cmd (or_placeholder cm') s5)
    as Hc.
  destruct (commit_under_overrides cfg r aider_edits cmd (or_placeholder cm') s5)
    as [[[[h m]|]|e] s6].
  - destruct Hc as (-> & env & hexsha & Hw & _ & Hh & ->).
    destruct Hpre as (adds & Hadds & Honly & _).
    exists adds, env, hexsha. repeat split; [done | | done].
    by rewrite Hw, Hadds, <- app_assoc, Hm5.
  - destruct Hc as [Hw Hh]. destruct Hpre as (adds & Hadds & Honly & Hhead).
    exists adds. repeat split; [by rewrite Hw | done | by rewrite Hh].
  - destruct Hc as [Hw Hh]. destruct Hpre as (adds & Hadds & Honly & Hhead).
    exists adds. repeat split; [by rewrite Hw | done | by rewrite Hh].
Qed.

(** X11: an explicit message leaves the text generators out: the outcome of
    [commit] is the same whatever generators, prompt and default prompt the
    handle has. *)
Theorem explicit_message_ignores_generators (cfg : Config) (ms : option (list Model))
    (prompt : option string) (system : string) (r : Repo) (fnames : list string)
    (context message : option string) (aider_edits : bool) (st : St) :
  truthy message = true ->
  commit cfg r fnames context message aider_edits st
  = commit {| attribute_author := attribute_author cfg;
              attribute_committer := attribute_committer cfg;
              attribute_commit_message_author := attribute_commit_message_author cfg;
              attribute_commit_message_committer :=
                attribute_commit_message_committer cfg;
              commit_prompt := prompt;
              git_commit_verify := git_commit_verify cfg;
              models := ms;
              commit_system := system;
              abs_root_path := abs_root_path cfg |}
      r fnames context message aider_edits st.
Proof. intros Hm. unfold commit. rewrite Hm. reflexivity. Qed.

Lemma explicit_message_ignores_generators_witness :
  commit Examples.config_plain Examples.repo_dirty ["a.txt"] None (Some "init") false
    Examples.process_state
  = commit {| attribute_author := false; attribute_committer := false;
              attribute_commit_message_author := false;
              attribute_commit_message_committer := false;
              commit_prompt := Some "Be brief.";
              git_commit_verify := true;
              models := None;
              commit_system := "";
              abs_root_path := fun p => "/repo/" +:+ p |}
      Examples.repo_dirty ["a.txt"] None (Some "init") false Examples.process_state.
Proof.
  apply (explicit_message_ignores_generators Examples.config_plain None (Some "Be brief.")
           "" Examples.repo_dirty ["a.txt"] None (Some "init") false
           Examples.process_state).
  reflexivity.
Defined.

(** The loop over the generators, turn by turn. *)
Lemma ask_models_turn (model : Model) (ms : list Model) (messages : list message)
    (commit_message : option string) (s : St) :
  truthy commit_message = false ->
  match consult model messages with
  | Declines =>
      exists cm, truthy cm = false /\
        ask_models (model :: ms) messages commit_message s = ask_models ms messages cm s
  | Answers text =>
      ask_models (model :: ms) messages commit_message s = (Ok (Some text), s) /\
      truthy (Some text) = true
  | Fails e => ask_models (model :: ms) messages commit_message s = (Raise e, s)
  end.
Proof.
  intros Hcm. cbn [ask_models]. unfold consult, bind, lift.
  destruct (token_count model messages) as [n|e]; [|done].
  destruct (max_input_tokens model) as [mt|e]; [|done].
  destruct (_ && _); [by exists commit_message|].
  destruct (simple_send_with_retries model messages) as [answer|e]; [|done].
  destruct (truthy answer) eqn:Hans.
  - destruct answer as [text|]; [|done]. done.
  - by exists answer.
Qed.

Lemma ask_models_declined (pre rest : list Model) (messages : list message)
    (commit_message : option string) (s : St) :
  truthy commit_message = false ->
  (forall m, In m pre -> consult m messages = Declines) ->
  exists cm, truthy cm = false /\
    ask_models (pre ++ rest) messages commit_message s = ask_models rest messages cm s.
Proof.
  revert commit_message. induction pre as [|m pre IH]; intros cm Hcm Hpre.
  - by exists cm.
  - pose proof (ask_models_turn m (pre ++ rest) messages cm s Hcm) as Hturn.
    rewrite (Hpre m) in Hturn by (by left).
    destruct Hturn as (cm1 & Hcm1 & Hrun).
    destruct (IH cm1 Hcm1) as (cm2 & Hcm2 & Hrun2); [intros m' ?; apply Hpre; by right|].
    exists cm2. split; [done|]. cbn [app]. by rewrite Hrun, Hrun2.
Qed.

(** X12: lines 244-276: [get_commit_message] asks the generators in
    priority order.  The generators that decline (the exchange exceeds
    their budget, or they answer nothing) are passed over; the first one
    that answers decides, and its ASCII answer is returned stripped and
    without one pair of enclosing quotes; the first one of whose calls one
    raises ends the method with that exception.  If all decline, the
    failure is reported and nothing is returned; and without a list of
    generators the loop raises [TypeError].  The handle is changed by the
    report only. *)
Theorem get_commit_message_first_answer (cfg : Config) (diffs : string)
    (context : option string) (s : St) :
  (models cfg = None ->
   exists e, get_commit_message cfg diffs context s = (Raise e, s) /\
             exn_cls e = TypeError) /\
  (forall pre model post,
     models cfg = Some (pre ++ model :: post) ->
     (forall m, In m pre -> consult m (exchange cfg diffs context) = Declines) ->
     (forall text,
        consult model (exchange cfg diffs context) = Answers text ->
        all_chars is_ascii text = true ->
        get_commit_message cfg diffs context s
        = (Ok (Some (unquote (strip text))), s)) /\
     (forall e,
        consult model (exchange cfg diffs context) = Fails e ->
        get_commit_message cfg diffs context s = (Raise e, s))) /\
  (forall ms,
     models cfg = Some ms ->
     (forall m, In m ms -> consult m (exchange cfg diffs context) = Declines) ->
     get_commit_message cfg diffs context s
     = (Ok None, with_io (io s ++ [tool_error "Failed to generate commit message!"]) s)).
Proof.
  unfold get_commit_message. cbv zeta. fold (exchange cfg diffs context).
  split; [|split].
  - intros ->. unfold bind, raise. eexists. split; reflexivity.
  - intros pre model post -> Hpre.
    destruct (ask_models_declined pre (model :: post) (exchange cfg diffs context)
                None s eq_refl Hpre) as (cm & Hcm & Hrun).
    pose proof (ask_models_turn model post (exchange cfg diffs context) cm s Hcm)
      as Hturn.
    split.
    + intros text Htext _. rewrite Htext in Hturn. destruct Hturn as [Hturn Htruthy].
      unfold bind at 1. rewrite Hrun, Hturn, Htruthy. done.
    + intros e He. rewrite He in Hturn.
      unfold bind at 1. by rewrite Hrun, Hturn.
  - intros ms -> Hall.
    destruct (ask_models_declined ms [] (exchange cfg diffs context) None s eq_refl Hall)
      as (cm & Hcm & Hrun).
    rewrite app_nil_r in Hrun.
    unfold bind at 1. rewrite Hrun. cbn [ask_models]. unfold ret at 1. rewrite Hcm.
    reflexivity.
Qed.

Lemma get_commit_message_first_answer_witness :
  get_commit_message Examples.config_answering "diff --git a/a.txt b/a.txt" None
    Examples.process_state
  = (Ok (Some "Fix the parser"), Examples.process_state) /\
  get_commit_message Examples.config_service_down "diff --git a/a.txt b/a.txt" None
    Examples.process_state
  = (Raise (Exn RuntimeError "service unavailable"), Examples.process_state).
Proof.
  destruct (get_commit_message_first_answer Examples.config_answering
              "diff --git a/a.txt b/a.txt" None Examples.process_state)
    as (_ & Hfirst & _).
  destruct (get_commit_message_first_answer Examples.config_service_down
              "diff --git a/a.txt b/a.txt" None Examples.process_state)
    as (_ & Hdown & _).
  split.
  - destruct (Hfirst [Examples.model_silent] Examples.model_answering [] eq_refl)
      as [Hanswer _].
    { intros m [<-|[]]. reflexivity. }
    apply (Hanswer ("  " +:+ String dquote ("Fix the parser" +:+ String dquote " "))).
    + reflexivity.
    + reflexivity.
  - destruct (Hdown [Examples.model_silent] Examples.model_down
                [Examples.model_answering] eq_refl) as [_ Hfails].
    { intros m [<-|[]]. reflexivity. }
    apply Hfails. reflexivity.
Defined.

(** X13: the message that [get_commit_message] gives has no white space at
    either end. *)
Theorem generated_message_is_stripped (cfg : Config) (diffs : string)
    (context : option string) (s s' : St) (m : string) :
  get_commit_message cfg diffs context s = (Ok (Some m), s') ->
  no_lead is_space m = true /\ no_trail is_space m = true.
Proof.
  unfold get_commit_message. cbv zeta. unfold bind at 1.
  destruct (match models cfg with
            | Some ms => ask_models ms _ None
            | None => raise _
            end s) as [[cm|e] s1]; [|discriminate].
  destruct (truthy cm); [|discriminate].
  unfold ret. inversion 1. subst s'.
  set (x := strip _). unfold unquote.
  destruct (strip_if_stripped is_space (fmt cm)) as (Hl & Ht & _).
  fold (strip) in Hl, Ht. fold x in Hl, Ht.
  destruct (String.get 0 x) as [a|]; [|done].
  destruct (String.get (String.length x - 1) x) as [b|]; [|done].
  destruct (Ascii.eqb a dquote && Ascii.eqb b dquote); [|done].
  destruct (strip_if_stripped is_space (String.substring 1 (String.length x - 2) x))
    as (Hl' & Ht' & _).
  done.
Qed.

Lemma generated_message_is_stripped_witness :
  get_commit_message Examples.config_answering "diff --git a/a.txt b/a.txt" None
    Examples.process_state = (Ok (Some "Fix the parser"), Examples.process_state) /\
  no_lead is_space "Fix the parser" = true /\ no_trail is_space "Fix the parser" = true.
Proof.
  assert (H : get_commit_message Examples.config_answering "diff --git a/a.txt b/a.txt"
                None Examples.process_state
              = (Ok (Some "Fix the parser"), Examples.process_state))
    by (vm_compute; reflexivity).
  split; [exact H|].
  exact (generated_message_is_stripped _ _ _ _ _ _ H).
Defined.

(** [path_in_repo] and the markers of lines 295-298 touch neither the
    environment nor the repository. *)
Lemma added_markers_runs (r : Repo) (fnames : list string) (diffs : string) (s : St) :
  let '(res, s') := added_markers r fnames diffs s in
  environ s' = environ s /\ writes s' = writes s /\ head_commit s' = head_commit s /\
  (fnames = [] -> s' = s) /\
  (forall e, res = Raise e ->
     exists fname s0, In fname fnames /\ fst (path_in_repo r fname s0) = Raise e).
Proof.
  revert diffs s. induction fnames as [|f fs IH]; intros diffs s; cbn [added_markers].
  - unfold ret. repeat split; try done.
  - unfold bind.
    destruct (path_in_repo r f s) as [[known|e] s1] eqn:Hf.
    + assert (Hkeep : environ s1 = environ s /\ writes s1 = writes s /\
                      head_commit s1 = head_commit s).
      { unfold path_in_repo, in_handle in Hf. destruct (Files.path_in_repo _ _ _ _).
        by inversion Hf. }
      destruct Hkeep as (He & Hw & Hh).
      assert (Hrest : forall d,
                let '(res, s') := added_markers r fs d s1 in
                environ s' = environ s /\ writes s' = writes s /\
                head_commit s' = head_commit s /\
                (f :: fs = [] -> s' = s) /\
                (forall e, res = Raise e ->
                   exists fname s0, In fname (f :: fs) /\
                                    fst (path_in_repo r fname s0) = Raise e)).
      { intros d. specialize (IH d s1).
        destruct (added_markers r fs d s1) as [res s'].
        destruct IH as (He' & Hw' & Hh' & _ & Hraise).
        repeat split; try congruence.
        intros e Hres. destruct (Hraise e Hres) as (fname & s0 & Hin & Hrun).
        exists fname, s0. split; [by right | done]. }
      destruct (default false known); apply Hrest.
    + assert (Hkeep : environ s1 = environ s /\ writes s1 = writes s /\
                      head_commit s1 = head_commit s).
      { unfold path_in_repo, in_handle in Hf. destruct (Files.path_in_repo _ _ _ _).
        by inversion Hf. }
      destruct Hkeep as (He & Hw & Hh). repeat split; try done.
      intros e' [= <-]. exists f, s. split; [by left | by rewrite Hf].
Qed.

(** The outcomes of [get_diffs], case by case. *)
Lemma get_diffs_cases (r : Repo) (fnames : list string) (s : St) :
  let '(res, s') := get_diffs r fnames s in
  environ s' = environ s /\ writes s' = writes s /\ head_commit s' = head_commit s /\
  match res with
  | Ok (Some diffs) => fnames = [] -> s' = s
  | Ok None =>
      exists args e before,
        r_diff r args = Raise e /\ ANY_GIT_ERROR (exn_cls e) = true /\
        io s' = before ++ [tool_error ("Unable to diff: " +:+ exn_str e)] /\
        (fnames = [] -> before = io s /\ handle s' = handle s)
  | Raise e =>
      current_branch_has_commits r = Raise e \/
      (exists fname s0, In fname fnames /\ fst (path_in_repo r fname s0) = Raise e) \/
      (exists args, r_diff r args = Raise e /\ ANY_GIT_ERROR (exn_cls e) = false)
  end.
Proof.
  destruct (get_diffs r fnames s) as [res s'] eqn:Hrun.
  revert Hrun. unfold get_diffs. unfold bind at 1, lift.
  destruct (current_branch_has_commits r) as [has|e];
    [|intros [= <- <-]; repeat split; by left].
  cbv beta iota. unfold bind at 1.
  pose proof (added_markers_runs r fnames "" s) as Hm.
  destruct (added_markers r fnames "" s) as [[markers|e] s1];
    destruct Hm as (He & Hw & Hh & Hnil & Hraise).
  2:{ intros [= <- <-]. repeat split; try done. right. left. by apply Hraise. }
  unfold try_except, bind, lift, ret, io_emit, modify.
  destruct has.
  - destruct (r_diff r ("HEAD" :: "--" :: fnames)) as [d|e] eqn:Hd.
    + intros [= <- <-]. by repeat split.
    + destruct (ANY_GIT_ERROR (exn_cls e)) eqn:Hany; intros [= <- <-];
        (split; [done|split; [done|split; [done|]]]).
      * exists ("HEAD" :: "--" :: fnames), e, (io s1).
        split; [done|]. split; [done|]. split; [reflexivity|].
        intros Hf. by rewrite (Hnil Hf).
      * right. right. eauto.
  - destruct (r_diff r ("--cached" :: "--" :: fnames)) as [d1|e] eqn:Hd1.
    + destruct (r_diff r ("--" :: fnames)) as [d2|e] eqn:Hd2.
      * intros [= <- <-]. by repeat split.
      * destruct (ANY_GIT_ERROR (exn_cls e)) eqn:Hany; intros [= <- <-];
          (split; [done|split; [done|split; [done|]]]).
        -- exists ("--" :: fnames), e, (io s1).
        split; [done|]. split; [done|]. split; [reflexivity|].
        intros Hf. by rewrite (Hnil Hf).
        -- right. right. eauto.
    + destruct (ANY_GIT_ERROR (exn_cls e)) eqn:Hany; intros [= <- <-];
        (split; [done|split; [done|split; [done|]]]).
      * exists ("--cached" :: "--" :: fnames), e, (io s1).
        split; [done|]. split; [done|]. split; [reflexivity|].
        intros Hf. by rewrite (Hnil Hf).
      * right. right. eauto.
Qed.

(** X14: lines 278-314: [get_diffs] lets no [ANY_GIT_ERROR] of [git diff]
    out: such a failure is reported last and gives nothing.  What it raises
    comes from the queries before the diff (the active branch and its
    commits, [path_in_repo]) or is an exception of [git diff] outside
    [ANY_GIT_ERROR].  It leaves the environment, the repository and its
    head commit as they are; [path_in_repo], called for each name, may fill
    the memo and the caches of the handle and report, so that only a call
    without names leaves the rest as it is too. *)
Theorem get_diffs_outcomes (r : Repo) (fnames : list string) (s : St) :
  let '(res, s') := get_diffs r fnames s in
  environ s' = environ s /\ writes s' = writes s /\ head_commit s' = head_commit s /\
  match res with
  | Ok (Some diffs) => fnames = [] -> s' = s
  | Ok None =>
      exists args e before,
        r_diff r args = Raise e /\ ANY_GIT_ERROR (exn_cls e) = true /\
        io s' = before ++ [tool_error ("Unable to diff: " +:+ exn_str e)] /\
        (fnames = [] -> before = io s /\ handle s' = handle s)
  | Raise e =>
      current_branch_has_commits r = Raise e \/
      (exists fname s0, In fname fnames /\ fst (path_in_repo r fname s0) = Raise e) \/
      (exists args, r_diff r args = Raise e /\ ANY_GIT_ERROR (exn_cls e) = false)
  end.
Proof. exact (get_diffs_cases r fnames s). Qed.

(** X9: [commit] is a no-op, returning nothing and leaving the repository and
    the environment alone, when no paths are given and the repository is
    clean, and when the diff is empty or has failed. *)
Theorem commit_no_op (cfg : Config) (r : Repo) (fnames : list string)
    (context message : option string) (aider_edits : bool) (st : St) :
  (fnames = [] /\ r_is_dirty r = Ok false) \/
  ((fnames = [] -> r_is_dirty r = Ok true) /\
   exists diffs s1, get_diffs r fnames st = (Ok diffs, s1) /\ truthy diffs = false) ->
  exists st',
    commit cfg r fnames context message aider_edits st = (Ok None, st') /\
    writes st' = writes st /\ environ st' = environ st /\
    head_commit st' = head_commit st.
Proof.
  intros [[-> Hclean] | (Hdirty & diffs & s1 & Hdiff & Hempty)]; unfold commit.
  - unfold bind at 1, bind, lift, ret. rewrite Hclean. cbn. by exists st.
  - assert (Hclean : (match fnames with
                      | [] => dirty <- lift (r_is_dirty r) ;; ret (negb dirty)
                      | _ => ret false
                      end) st = (Ok false, st)).
    { destruct fnames; [|done]. unfold bind, lift, ret. by rewrite Hdirty. }
    unfold bind at 1. rewrite Hclean.
    unfold bind at 1. rewrite Hdiff, Hempty. cbn [negb]. exists s1.
    pose proof (get_diffs_cases r fnames st) as Hout. rewrite Hdiff in Hout.
    destruct Hout as (He & Hw & Hh & _). done.
Qed.

Lemma commit_no_op_witness :
  exists st',
    commit Examples.config_plain Examples.repo_diff_fails ["a.txt"] None
      (Some "init") false Examples.process_state = (Ok None, st') /\
    writes st' = [] /\ environ st' = environ Examples.process_state /\
    head_commit st' = Ok "ffffffffffffffff".
Proof.
  apply (commit_no_op Examples.config_plain Examples.repo_diff_fails ["a.txt"]
           None (Some "init") false Examples.process_state).
  right. split; [discriminate|].
  exists None, (snd (get_diffs Examples.repo_diff_fails ["a.txt"] Examples.process_state)).
  split; [vm_compute; reflexivity | reflexivity].
Defined.

End CommitFurther.

(** ** Paths, further *)

Section PathsFurther.
Import Files.

Lemma append_nil_r (s : string) : s +:+ "" = s.
Proof. induction s as [|a s IH]; [done|]. change (String a (s +:+ "") = String a s). by rewrite IH. Qed.

Lemma append_assoc (a b c : string) : (a +:+ b) +:+ c = a +:+ b +:+ c.
Proof.
  induction a as [|x a IH]; [done|].
  change (String x ((a +:+ b) +:+ c) = String x (a +:+ b +:+ c)). by rewrite IH.
Qed.

Lemma no_slash_app (a b : string) :
  no_slash (a +:+ b) = no_slash a && no_slash b.
Proof.
  unfold no_slash. induction a as [|x a IH]; [done|].
  change (negb (Ascii.eqb x "/") && all_chars (fun a => negb (Ascii.eqb a "/")) (a +:+ b)
          = negb (Ascii.eqb x "/") && all_chars (fun a => negb (Ascii.eqb a "/")) a
            && all_chars (fun a => negb (Ascii.eqb a "/")) b).
  rewrite IH. by rewrite andb_assoc.
Qed.

(** Splitting reads a slash-free stretch into the current component. *)
Lemma split_slash_app (c s cur : string) :
  no_slash c = true -> split_slash (c +:+ s) cur = split_slash s (cur +:+ c).
Proof.
  revert cur. induction c as [|a c IH]; intros cur Hc.
  - by rewrite append_nil_r.
  - change (no_slash (String a c)) with (negb (Ascii.eqb a "/") && no_slash c) in Hc.
    apply andb_true_iff in Hc as [Ha Hc]. apply negb_true_iff in Ha.
    change (split_slash (String a (c +:+ s)) cur = split_slash s (cur +:+ String a c)).
    cbn [split_slash]. rewrite Ha, IH by done.
    f_equal. rewrite append_assoc. done.
Qed.

Lemma split_slash_components (s cur : string) :
  no_slash cur = true -> Forall (fun c => no_slash c = true) (split_slash s cur).
Proof.
  revert cur. induction s as [|a s IH]; intros cur Hcur; cbn [split_slash].
  - by constructor.
  - destruct (Ascii.eqb a "/") eqn:Ha.
    + constructor; [done | by apply IH].
    + apply IH. rewrite no_slash_app, Hcur. cbn. by rewrite Ha.
Qed.

(** Joining components with slashes and splitting again gives them back. *)
Lemma split_slash_concat (l : list string) (cur : string) :
  Forall (fun c => no_slash c = true) l -> l <> [] ->
  split_slash (String.concat "/" l) cur
  = match l with
    | [] => []
    | c :: rest => (cur +:+ c) :: rest
    end.
Proof.
  revert cur. induction l as [|c l IH]; intros cur Hl Hne; [done|].
  apply Forall_cons in Hl as [Hc Hl].
  destruct l as [|d l].
  - cbn [String.concat]. rewrite <- (append_nil_r c) at 1.
    by rewrite split_slash_app.
  - change (String.concat "/" (c :: d :: l))
      with (c +:+ "/" +:+ String.concat "/" (d :: l)).
    rewrite split_slash_app by done.
    change ("/" +:+ String.concat "/" (d :: l))
      with (String "/" (String.concat "/" (d :: l))).
    cbn [split_slash]. rewrite Ascii.eqb_refl.
    rewrite IH by done. done.
Qed.

Lemma Path_components (s : string) : Forall component (parts (Path s)).
Proof.
  unfold Path. cbn [parts].
  pose proof (split_slash_components s "" eq_refl) as H.
  induction H as [|c l Hc Hl IH]; [constructor|].
  rewrite filter_cons. destruct (decide (is_component c = true)); [|done].
  constructor; [by split | done].
Qed.

Lemma strip_prefix_suffix (pre l rest : list string) (P : string -> Prop) :
  strip_prefix pre l = Some rest -> Forall P l -> Forall P rest.
Proof.
  revert l. induction pre as [|p pre IH]; intros l; cbn.
  - by inversion 1.
  - destruct l as [|x l]; [discriminate|].
    destruct (String.eqb p x); [|discriminate].
    intros Hrest [_ Hl]%Forall_cons. by eapply IH.
Qed.

Lemma filter_components (l : list string) :
  Forall component l -> filter (fun c => is_component c = true) l = l.
Proof.
  induction 1 as [|c l [Hc _] Hl IH]; [done|].
  rewrite filter_cons. destruct (decide (is_component c = true)); [|done].
  by rewrite IH.
Qed.

(** A relative path made of components parses into them. *)
Lemma Path_path_str (l : list string) :
  Forall component l ->
  Path (path_str {| anchor := no_root; parts := l |})
  = {| anchor := no_root; parts := l |}.
Proof.
  intros Hl. unfold path_str. cbn [parts anchor anchored].
  destruct l as [|c l]; [reflexivity|].
  change ("" +:+ String.concat "/" (c :: l)) with (String.concat "/" (c :: l)).
  unfold Path. f_equal.
  - apply Forall_cons in Hl as [[Hc Hs] _].
    assert (Hhead : forall rest, String.prefix "/" (c +:+ rest) = false).
    { intros rest. destruct c as [|a c]; [done|].
      change (String a c +:+ rest) with (String a (c +:+ rest)).
      cbn in Hs. apply andb_true_iff in Hs as [Ha _].
      cbn [String.prefix]. destruct (ascii_dec "/" a) as [<-|]; done. }
    assert (Hroot : forall s, String.prefix "/" s = false -> splitroot s = no_root).
    { intros s Hs0. unfold splitroot. rewrite Hs0.
      destruct s as [|a s]; [done|]. cbn [String.prefix] in Hs0 |- *.
      destruct (ascii_dec "/" a); [|done].
      destruct s; discriminate Hs0. }
    apply Hroot.
    destruct l as [|d l]; cbn [String.concat].
    + rewrite <- (append_nil_r c). apply Hhead.
    + apply Hhead.
  - rewrite split_slash_concat; [| |done].
    + by apply filter_components.
    + eapply Forall_impl; [exact Hl|]. by intros x [_ ?].
Qed.

Lemma path_str_nonempty (l : list string) :
  Forall component l -> path_str {| anchor := no_root; parts := l |} <> "".
Proof.
  intros Hl. unfold path_str. cbn [parts anchor anchored].
  destruct l as [|c l]; [done|].
  apply Forall_cons in Hl as [[Hc _] _].
  destruct c as [|a c]; [done|].
  destruct l; done.
Qed.

(** What line 391 returns is a relative path written from components. *)
Lemma relative_to_root_inv (cfg : Config) (p q : string) :
  relative_to_root cfg p = Ok q ->
  exists rest, Forall component rest /\
               q = path_str {| anchor := no_root; parts := rest |}.
Proof.
  unfold relative_to_root, relative_to. cbv zeta.
  case_bool_decide; [|done].
  destruct (strip_prefix _ _) as [rest|] eqn:Hrest; [|done].
  intros [= <-]. exists rest. split; [|done].
  eapply strip_prefix_suffix; [exact Hrest|].
  unfold joinpath. destruct (anchored (Path p)).
  - apply Path_components.
  - cbn [parts]. apply Forall_app. split; apply Path_components.
Qed.

Lemma relative_to_root_canonical (cfg : Config) (l : list string) :
  Forall component l ->
  relative_to_root cfg (path_str {| anchor := no_root; parts := l |})
  = Ok (path_str {| anchor := no_root; parts := l |}).
Proof.
  intros Hl. unfold relative_to_root. rewrite (Path_path_str l Hl).
  unfold joinpath, relative_to, anchored. cbn [anchor parts].
  rewrite bool_decide_eq_true_2 by done. rewrite strip_prefix_app. done.
Qed.

Lemma normalize_path_inv (cfg : Config) (p q : string) (s s1 : St) :
  normalize_path cfg p s = (Ok q, s1) ->
  (truthy (normalized_path s !! p) = true /\ normalized_path s !! p = Some q /\ s1 = s)
  \/ (truthy (normalized_path s !! p) = false /\ relative_to_root cfg p = Ok q /\
      s1 = with_normalized_path (<[p := q]> (normalized_path s)) s).
Proof.
  unfold normalize_path, bind, gets, lift, modify, ret.
  destruct (truthy (normalized_path s !! p)) eqn:Hhit.
  - intros [= <- <-]. left. split; [done|]. split; [|done].
    destruct (normalized_path s !! p); done.
  - destruct (relative_to_root cfg p) as [q'|e]; [|done].
    intros [= <- <-]. right. done.
Qed.

(** X15: lines 387-389 and 392: a path that was normalised once is answered from
    the memo afterwards, and the handle stays as it is. *)
Theorem normalize_path_memoised (cfg : Config) (p q : string) (s s1 : St) :
  normalize_path cfg p s = (Ok q, s1) ->
  normalized_path s1 !! p = Some q /\
  normalize_path cfg p s1 = (Ok q, s1).
Proof.
  intros Hrun.
  assert (Hq : normalized_path s1 !! p = Some q /\ q <> "").
  { apply normalize_path_inv in Hrun as [(Hhit & Hp & ->)|(_ & Hrel & ->)].
    - split; [done|]. rewrite Hp in Hhit. by destruct q.
    - split; [apply lookup_insert_eq|].
      apply relative_to_root_inv in Hrel as (rest & Hrest & ->).
      by apply path_str_nonempty. }
  destruct Hq as [Hp Hq]. split; [done|].
  unfold normalize_path, bind, gets, ret. rewrite Hp.
  destruct q; done.
Qed.

Lemma normalize_path_memoised_witness :
  normalized_path
    (snd (normalize_path Examples.files_config_plain "src//./a.py" init_state))
    !! "src//./a.py" = Some "src/a.py" /\
  normalize_path Examples.files_config_plain "src//./a.py"
    (snd (normalize_path Examples.files_config_plain "src//./a.py" init_state))
  = (Ok "src/a.py",
     snd (normalize_path Examples.files_config_plain "src//./a.py" init_state)).
Proof.
  apply (normalize_path_memoised Examples.files_config_plain "src//./a.py" "src/a.py"
           init_state).
  reflexivity.
Defined.

(** X16: lines 385-393: a normalised path is relative, written from components
    that are not empty, not [.] and hold no slash, and it is its own
    normal form. *)
Theorem normalize_path_idempotent (cfg : Config) (p q : string) (s s1 : St) :
  memo_ok cfg s ->
  normalize_path cfg p s = (Ok q, s1) ->
  Path q = {| anchor := no_root; parts := parts (Path q) |} /\
  path_str (Path q) = q /\
  relative_to_root cfg q = Ok q /\
  exists s2, normalize_path cfg q s1 = (Ok q, s2).
Proof.
  intros Hmemo Hrun.
  assert (Hrel : relative_to_root cfg p = Ok q).
  { apply normalize_path_inv in Hrun as [(_ & Hp & _)|(_ & Hrel & _)]; [|done].
    by apply Hmemo. }
  assert (Hmemo1 : memo_ok cfg s1).
  { apply normalize_path_inv in Hrun as [(_ & _ & ->)|(_ & _ & ->)]; [done|].
    intros k v. cbn. destruct (decide (k = p)) as [->|Hk].
    - rewrite lookup_insert_eq. by intros [= <-].
    - rewrite lookup_insert_ne by done. apply Hmemo. }
  destruct (relative_to_root_inv cfg p q Hrel) as (rest & Hrest & ->).
  rewrite (Path_path_str rest Hrest). cbn [parts].
  pose proof (relative_to_root_canonical cfg rest Hrest) as Hfix.
  repeat split; [done|].
  destruct (normalize_path_runs cfg _ _ s1 Hmemo1 Hfix) as (s2 & Hs2 & _).
  by exists s2.
Qed.

Lemma normalize_path_idempotent_witness :
  Path "src/a.py" = {| anchor := no_root; parts := parts (Path "src/a.py") |} /\
  path_str (Path "src/a.py") = "src/a.py" /\
  relative_to_root Examples.files_config_plain "src/a.py" = Ok "src/a.py" /\
  exists s2,
    normalize_path Examples.files_config_plain "src/a.py"
      (snd (normalize_path Examples.files_config_plain "/repo/src//./a.py" init_state))
    = (Ok "src/a.py", s2).
Proof.
  apply (normalize_path_idempotent Examples.files_config_plain "/repo/src//./a.py"
           "src/a.py" init_state).
  - intros k v Hk. cbn in Hk. rewrite lookup_empty in Hk. discriminate Hk.
  - reflexivity.
Defined.

End PathsFurther.

(** ** The ignore filter, further *)

Section IgnoreFurther.
Import Files.

Lemma memo_only_refl (s : St) : memo_only s s.
Proof. by destruct s. Qed.

Lemma memo_only_trans (s1 s2 s3 : St) :
  memo_only s1 s2 -> memo_only s2 s3 -> memo_only s1 s3.
Proof. unfold memo_only. intros H12 H23. rewrite H23, H12. by destruct s1. Qed.

Lemma memo_frame_ret {A} (a : A) : memo_frame (ret a).
Proof. intros s. apply memo_only_refl. Qed.

Lemma memo_frame_raise {A} (e : exn) : memo_frame (@raise St A e).
Proof. intros s. apply memo_only_refl. Qed.

Lemma memo_frame_bind {A B} (m : M St A) (k : A -> M St B) :
  memo_frame m -> (forall a, memo_frame (k a)) -> memo_frame (bind m k).
Proof.
  intros Hm Hk s. unfold bind. specialize (Hm s).
  destruct (m s) as [[a|e] s']; cbn in Hm |- *; [|done].
  eapply memo_only_trans; [exact Hm | apply Hk].
Qed.

Lemma memo_frame_try_except {A} (m : M St A) (c : exn -> bool) (h : exn -> M St A) :
  memo_frame m -> (forall e, memo_frame (h e)) -> memo_frame (try_except m c h).
Proof.
  intros Hm Hh s. unfold try_except. specialize (Hm s).
  destruct (m s) as [[a|e] s']; cbn in Hm |- *; [done|].
  destruct (c e); [|done].
  eapply memo_only_trans; [exact Hm | apply Hh].
Qed.

Lemma memo_frame_normalize_path (cfg : Config) (p : string) :
  memo_frame (normalize_path cfg p).
Proof.
  intros s. unfold normalize_path, bind, gets, lift, modify, ret.
  destruct (truthy _); [apply memo_only_refl|].
  destruct (relative_to_root cfg p); cbn; [|apply memo_only_refl].
  by destruct s.
Qed.

Lemma memo_frame_match_file (w : World) (f : string) : memo_frame (match_file w f).
Proof.
  intros s. unfold match_file, bind, gets.
  destruct (aider_ignore_spec s); apply memo_only_refl.
Qed.

Lemma memo_frame_ignored_file_raw (cfg : Config) (w : World) (f : string) :
  memo_frame (ignored_file_raw cfg w f).
Proof.
  unfold ignored_file_raw. apply memo_frame_bind.
  - destruct (subtree_only cfg); [|apply memo_frame_ret].
    unfold outside_subtree. apply memo_frame_try_except.
    + apply memo_frame_bind; [apply memo_frame_normalize_path|].
      intros a. destruct (relative_to _ _); [apply memo_frame_ret | apply memo_frame_raise].
    + intros e. apply memo_frame_ret.
  - intros [|]; [apply memo_frame_ret|].
    destruct (_ || _); [apply memo_frame_ret|].
    apply memo_frame_bind.
    + apply memo_frame_try_except.
      * apply memo_frame_bind; [apply memo_frame_normalize_path|].
        intros a. apply memo_frame_ret.
      * intros e. apply memo_frame_ret.
    + intros [n|]; [apply memo_frame_match_file | apply memo_frame_ret].
Qed.

(** A refresh returns, and none is due after it. *)
Lemma refresh_aider_ignore_settles (cfg : Config) (w : World) (s : St) :
  exists sr, refresh_aider_ignore cfg w s = (Ok tt, sr) /\ settled cfg w sr.
Proof.
  unfold refresh_aider_ignore, settled.
  destruct (truthy (aider_ignore_file cfg)) eqn:Hcfg; cbn [negb].
  2: { exists s. split; [done | by left]. }
  unfold bind, gets, modify, ret.
  destruct (Z.ltb_spec (w_time w - aider_ignore_last_check s) one_second) as [Hlt|Hge].
  { exists s. split; [done | by right]. }
  assert (Hnow : (w_time w - w_time w < one_second)%Z) by (unfold one_second; lia).
  destruct (w_ignore_file w) as [[mtime lines]|].
  - case_bool_decide; eexists; (split; [reflexivity | by right]).
  - eexists. split; [reflexivity | by right].
Qed.

Lemma refresh_aider_ignore_settled (cfg : Config) (w : World) (s : St) :
  settled cfg w s -> refresh_aider_ignore cfg w s = (Ok tt, s).
Proof.
  unfold refresh_aider_ignore, settled.
  intros [->|Hlt]; [done|].
  destruct (truthy (aider_ignore_file cfg)); cbn [negb]; [|done].
  unfold bind, gets, ret.
  destruct (Z.ltb_spec (w_time w - aider_ignore_last_check s) one_second); [done|lia].
Qed.

(** [ignored_file] from the state [sr] that the refresh leaves. *)
Lemma ignored_file_after_refresh (cfg : Config) (w : World) (f : string) (s sr : St) :
  refresh_aider_ignore cfg w s = (Ok tt, sr) ->
  ignored_file cfg w f s
  = match ignore_file_cache sr !! f with
    | Some b => (Ok b, sr)
    | None =>
        match ignored_file_raw cfg w f sr with
        | (Ok b, s2) => (Ok b, with_ignore_file_cache (<[f := b]> (ignore_file_cache s2)) s2)
        | (Raise e, s2) => (Raise e, s2)
        end
    end.
Proof.
  intros Hr. unfold ignored_file, bind at 1. rewrite Hr.
  unfold bind at 1, gets at 1.
  destruct (ignore_file_cache sr !! f); [done|].
  unfold bind at 1. destruct (ignored_file_raw cfg w f sr) as [[b|e] s2]; done.
Qed.

(** X17: lines 427-435: once [ignored_file] has answered for a name, it gives the
    same answer again at the same moment, from the result cache, and leaves
    the handle as it is. *)
Theorem ignored_file_cached_answer (cfg : Config) (w : World) (f : string) (b : bool)
    (s s1 : St) :
  ignored_file cfg w f s = (Ok b, s1) ->
  ignore_file_cache s1 !! f = Some b /\
  ignored_file cfg w f s1 = (Ok b, s1).
Proof.
  destruct (refresh_aider_ignore_settles cfg w s) as (sr & Hr & Hsr).
  rewrite (ignored_file_after_refresh cfg w f s sr Hr).
  assert (Hgoal : forall s1, settled cfg w s1 -> ignore_file_cache s1 !! f = Some b ->
            ignore_file_cache s1 !! f = Some b /\ ignored_file cfg w f s1 = (Ok b, s1)).
  { intros s' Hs' Hf. split; [done|].
    rewrite (ignored_file_after_refresh cfg w f s' s'
               (refresh_aider_ignore_settled cfg w s' Hs')).
    by rewrite Hf. }
  destruct (ignore_file_cache sr !! f) as [b0|] eqn:Hf.
  - intros [= <- <-]. by apply Hgoal.
  - pose proof (memo_frame_ignored_file_raw cfg w f sr) as Hraw.
    destruct (ignored_file_raw cfg w f sr) as [[b0|e] s2]; [|done].
    cbn in Hraw. intros [= <- <-]. apply Hgoal.
    + destruct Hsr as [Hcfg|Hlt]; [by left|]. right.
      rewrite Hraw. exact Hlt.
    + cbn. apply lookup_insert_eq.
Qed.

Lemma ignored_file_cached_answer_witness :
  let s1 := snd (ignored_file Examples.files_config_ignore
                   Examples.world_ignore_file_read "a.txt" init_state) in
  ignore_file_cache s1 !! "a.txt" = Some true /\
  ignored_file Examples.files_config_ignore Examples.world_ignore_file_read
    "a.txt" s1 = (Ok true, s1).
Proof.
  intros s1.
  apply (ignored_file_cached_answer Examples.files_config_ignore
           Examples.world_ignore_file_read "a.txt" true init_state s1).
  reflexivity.
Defined.

(** What [ignored_file_raw] does for a path under the root when the
    subtree rule is off and the ignore-pattern file exists. *)
Lemma ignored_file_raw_matches (cfg : Config) (w : World) (f q : string) (s : St) :
  subtree_only cfg = false ->
  truthy (aider_ignore_file cfg) = true ->
  is_Some (w_ignore_file w) ->
  memo_ok cfg s ->
  relative_to_root cfg f = Ok q ->
  exists s2,
    memo_only s s2 /\
    ignored_file_raw cfg w f s
    = match aider_ignore_spec s with
      | Some lines => (Ok (w_match_file w lines q), s2)
      | None => (Raise (Exn AttributeError
                          "'NoneType' object has no attribute 'match_file'"), s2)
      end.
Proof.
  intros Hsub Hcfg Hfile Hmemo Hrel.
  destruct (normalize_path_runs cfg f q s Hmemo Hrel) as (s2 & Hn & _).
  pose proof (memo_frame_normalize_path cfg f s) as Hs2. rewrite Hn in Hs2. cbn in Hs2.
  exists s2. split; [done|].
  unfold ignored_file_raw. rewrite Hsub, Hcfg.
  rewrite (bool_decide_eq_true_2 _ Hfile). cbn [negb orb].
  unfold bind at 1, ret at 1. unfold bind at 1, try_except, bind at 1.
  rewrite Hn. unfold ret at 1. unfold match_file, bind, gets.
  rewrite Hs2. cbn [aider_ignore_spec with_normalized_path]. rewrite <- Hs2.
  by destruct (aider_ignore_spec s).
Qed.



(** X19: lines 399-401: within a second of the last check the file is not looked
    at; the rules loaded before keep deciding, whatever the file holds by
    now, and a cached answer is given as it is. *)
Theorem ignore_rules_are_throttled (cfg : Config) (w : World) (f q : string)
    (old : list string) (s : St) :
  subtree_only cfg = false ->
  truthy (aider_ignore_file cfg) = true ->
  (w_time w - aider_ignore_last_check s < one_second)%Z ->
  is_Some (w_ignore_file w) ->
  aider_ignore_spec s = Some old ->
  memo_ok cfg s ->
  relative_to_root cfg f = Ok q ->
  exists s1,
    ignored_file cfg w f s
    = (Ok (default (w_match_file w old q) (ignore_file_cache s !! f)), s1) /\
    aider_ignore_spec s1 = Some old /\
    aider_ignore_ts s1 = aider_ignore_ts s /\
    aider_ignore_last_check s1 = aider_ignore_last_check s.
Proof.
  intros Hsub Hcfg Hlt Hfile Hold Hmemo Hrel.
  rewrite (ignored_file_after_refresh cfg w f s s
             (refresh_aider_ignore_settled cfg w s (or_intror Hlt))).
  destruct (ignore_file_cache s !! f) as [b|]; cbn [default].
  { by exists s. }
  destruct (ignored_file_raw_matches cfg w f q s Hsub Hcfg Hfile Hmemo Hrel)
    as (s2 & Hs2 & ->).
  rewrite Hold. eexists. split; [reflexivity|].
  rewrite Hs2. cbn. done.
Qed.

Lemma ignore_rules_are_throttled_witness :
  let s := snd (ignored_file Examples.files_config_ignore
                  Examples.world_ignore_file_read "a.txt" init_state) in
  exists s1,
    ignored_file Examples.files_config_ignore Examples.world_ignore_file_rewritten
      "b.txt" s
    = (Ok (default (w_match_file Examples.world_ignore_file_rewritten ["a.txt"] "b.txt")
             (ignore_file_cache s !! "b.txt")), s1) /\
    aider_ignore_spec s1 = Some ["a.txt"] /\
    aider_ignore_ts s1 = aider_ignore_ts s /\
    aider_ignore_last_check s1 = aider_ignore_last_check s.
Proof.
  intros s.
  apply (ignore_rules_are_throttled Examples.files_config_ignore
           Examples.world_ignore_file_rewritten "b.txt" "b.txt" ["a.txt"] s).
  - reflexivity.
  - reflexivity.
  - vm_compute. reflexivity.
  - vm_compute. eexists. reflexivity.
  - reflexivity.
  - pose proof (ext0_frame_ignored_file Examples.files_config_ignore
                  Examples.world_ignore_file_read "a.txt" init_state)
      as (_ & _ & Hmemo & _).
    apply Hmemo, memo_ok_init.
  - reflexivity.
Defined.

(** X20: lines 399-413 and 455-460: the rules are read only by a check that is
    due and finds a new modification time.  A file that is there while no
    rules were read yet (it appeared within a second of a check that missed
    it, or its modification time is the initial time stamp) makes
    [ignored_file] raise [AttributeError] for every name it has to decide,
    and nothing is cached for the name. *)
Theorem ignored_file_before_rules_are_read (cfg : Config) (w : World) (f q : string)
    (mtime : Z) (lines : list string) (s : St) :
  subtree_only cfg = false ->
  truthy (aider_ignore_file cfg) = true ->
  w_ignore_file w = Some (mtime, lines) ->
  aider_ignore_spec s = None ->
  (w_time w - aider_ignore_last_check s < one_second)%Z \/ mtime = aider_ignore_ts s ->
  ignore_file_cache s !! f = None ->
  memo_ok cfg s ->
  relative_to_root cfg f = Ok q ->
  exists e s1,
    ignored_file cfg w f s = (Raise e, s1) /\
    exn_cls e = AttributeError /\
    ignore_file_cache s1 !! f = None /\
    aider_ignore_spec s1 = None.
Proof.
  intros Hsub Hcfg Hfile Hspec Hwhen Hf Hmemo Hrel.
  assert (Hr : exists sr, refresh_aider_ignore cfg w s = (Ok tt, sr) /\
                 (sr = s \/ sr = with_last_check (w_time w) s)).
  { unfold refresh_aider_ignore. rewrite Hcfg. cbn [negb].
    unfold bind, gets, modify, ret.
    destruct (Z.ltb_spec (w_time w - aider_ignore_last_check s) one_second) as [Hlt|Hge].
    { exists s. by split; [|left]. }
    destruct Hwhen as [Hlt|Hts]; [lia|].
    rewrite Hfile. cbn. rewrite bool_decide_eq_false_2 by (intros Hne; by apply Hne).
    eexists. by split; [|right]. }
  destruct Hr as (sr & Hr & Hsr).
  rewrite (ignored_file_after_refresh cfg w f s sr Hr).
  assert (Hsame : ignore_file_cache sr = ignore_file_cache s /\
                  aider_ignore_spec sr = aider_ignore_spec s /\ memo_ok cfg sr).
  { destruct Hsr as [->| ->]; done. }
  destruct Hsame as (Hcache & Hspec' & Hmemo').
  rewrite Hcache, Hf.
  destruct (ignored_file_raw_matches cfg w f q sr Hsub Hcfg) as (s2 & Hs2 & ->);
    [by rewrite Hfile | exact Hmemo' | exact Hrel |].
  rewrite Hspec', Hspec. eexists _, s2. split; [reflexivity|].
  split; [done|]. rewrite Hs2. cbn. by rewrite Hcache, Hf, Hspec', Hspec.
Qed.

Lemma ignored_file_before_rules_are_read_witness :
  let s := snd (ignored_file Examples.files_config_ignore
                  Examples.world_no_ignore_file "a.txt" init_state) in
  exists e s1,
    ignored_file Examples.files_config_ignore Examples.world_ignore_file_appears
      "b.txt" s = (Raise e, s1) /\
    exn_cls e = AttributeError /\
    ignore_file_cache s1 !! "b.txt" = None /\
    aider_ignore_spec s1 = None.
Proof.
  intros s.
  apply (ignored_file_before_rules_are_read Examples.files_config_ignore
           Examples.world_ignore_file_appears "b.txt" "b.txt"
           1700000000200000 ["a.txt"] s).
  - reflexivity.
  - reflexivity.
  - reflexivity.
  - reflexivity.
  - left. vm_compute. reflexivity.
  - vm_compute. reflexivity.
  - pose proof (ext0_frame_ignored_file Examples.files_config_ignore
                  Examples.world_no_ignore_file "a.txt" init_state)
      as (_ & _ & Hmemo & _).
    apply Hmemo, memo_ok_init.
  - reflexivity.
Defined.

End IgnoreFurther.

(** ** The subtree rule *)

Section SubtreeRule.
Import Files.


Lemma strip_prefix_prefix_of (pre l : list string) :
  is_Some (strip_prefix pre l) <-> pre `prefix_of` l.
Proof.
  revert l. induction pre as [|p pre IH]; intros l; cbn.
  - split; [intros _; apply prefix_nil | by eauto].
  - destruct l as [|x l].
    + split; [by intros [? ?]|]. intros Hp. by apply prefix_nil_inv in Hp.
    + destruct (String.eqb_spec p x) as [->|Hne].
      * rewrite IH. split; [apply prefix_cons | apply prefix_cons_inv_2].
      * split; [by intros [? ?]|]. intros Hp. by apply prefix_cons_inv_1 in Hp.
Qed.

(** X21: lines 438-453: with [subtree_only] and no ignore-pattern file, a path
    under the root is ignored exactly when it does not lie in the working
    directory or below; if the working directory is not under the root,
    every path is ignored. *)
Theorem subtree_rule (cfg : Config) (w : World) (f q : string) (s : St) :
  subtree_only cfg = true ->
  truthy (aider_ignore_file cfg) = false ->
  memo_ok cfg s ->
  relative_to_root cfg f = Ok q ->
  exists s',
    ignored_file_raw cfg w f s = (Ok (negb (under_cwd cfg w q)), s') /\
    memo_only s s'.
Proof.
  intros Hsub Hcfg Hmemo Hq.
  destruct (normalize_path_runs cfg f q s Hmemo Hq) as (s1 & Hrun & _).
  pose proof (memo_frame_normalize_path cfg f s) as Hs1.
  rewrite Hrun in Hs1. cbn [snd] in Hs1.
  exists s1. split; [|done].
  unfold ignored_file_raw, under_cwd. rewrite Hsub, Hcfg. cbn [negb orb].
  unfold bind at 1, outside_subtree, try_except, bind at 1. rewrite Hrun.
  destruct (relative_to (Path (w_cwd w)) (Path (root cfg))) as [cwd_path|].
  - unfold ret at 1. unfold is_self_or_parent.
    pose proof (strip_prefix_prefix_of (parts cwd_path) (parts (Path q))) as Hiff.
    destruct (strip_prefix (parts cwd_path) (parts (Path q))) as [rest|].
    + rewrite bool_decide_eq_true_2 by (apply Hiff; eauto). done.
    + rewrite bool_decide_eq_false_2; [done|].
      intros Hp. apply Hiff in Hp. by destruct Hp.
  - unfold raise at 1. cbn. done.
Qed.

Lemma subtree_rule_witness :
  exists s',
    ignored_file_raw Examples.files_config_subtree Examples.world_in_src
      "docs/readme.md" init_state
    = (Ok (negb (under_cwd Examples.files_config_subtree Examples.world_in_src
                   "docs/readme.md")), s') /\
    memo_only init_state s'.
Proof.
  apply (subtree_rule Examples.files_config_subtree Examples.world_in_src
           "docs/readme.md" "docs/readme.md" init_state).
  - reflexivity.
  - reflexivity.
  - apply memo_ok_init.
  - reflexivity.
Defined.

End SubtreeRule.

(** ** The tracked files, further *)

Section TrackedFurther.
Import Files.

(** *** The traversal of the head tree *)

Lemma yielded_app (pre post : list tree_item) (e : exn) :
  ending pre = None ->
  yielded (pre ++ ItemRaises e :: post) = pre /\
  ending (pre ++ ItemRaises e :: post) = Some e.
Proof.
  induction pre as [|it pre IH]; intros Hpre; [done|].
  destruct it as [type path|e']; [|discriminate Hpre].
  cbn in Hpre |- *. destruct (IH Hpre) as [-> ->]. done.
Qed.

Lemma yielded_all (items : list tree_item) :
  ending items = None -> yielded items = items.
Proof.
  induction items as [|it items IH]; intros Hend; [done|].
  destruct it as [type path|e']; [|discriminate Hend].
  cbn in Hend |- *. by rewrite IH.
Qed.

(** The traversal that ends with the tree or with an [IndexError]. *)
Lemma traverse_runs (items : list tree_item) (l : nat) (S : gset string)
    (s : St) :
  readable items -> heap s !! l = Some S ->
  traverse items l s
  = (Ok tt,
     with_io (io s ++ skipped items)
       (with_heap (<[l := list_to_set (omap blob_of (yielded items)) ∪ S]> (heap s)) s)).
Proof.
  revert s S. induction items as [|it items IH]; intros s S Hok Hl.
  - cbn. unfold ret. f_equal. rewrite app_nil_r, (left_id_L ∅ (∪)).
    rewrite list_insert_id by done. by destruct s.
  - destruct it as [type path|e].
    + assert (Hok' : readable items) by exact Hok.
      cbn [traverse yielded omap list_omap blob_of].
      fold (omap blob_of (yielded items)).
      change (skipped (Item type path :: items)) with (skipped items).
      destruct (String.eqb type "blob").
      * unfold bind at 1. rewrite (set_add_runs l path S s Hl).
        rewrite (IH _ ({[path]} ∪ S) Hok').
        2:{ cbn. apply list_lookup_insert_eq. by eapply lookup_lt_Some. }
        f_equal. cbn [heap with_heap io]. rewrite list_insert_insert_eq.
        rewrite (assoc_L (∪)), (comm_L (∪) _ {[path]}). by destruct s.
      * unfold bind at 1, ret at 1. by apply IH.
    + cbn [traverse yielded omap list_omap].
      rewrite bool_decide_eq_true_2 by (by apply Hok).
      unfold io_emit, modify. f_equal. cbn [list_to_set].
      rewrite (left_id_L ∅ (∪)), list_insert_id by done. by destruct s.
Qed.

(** X22: lines 347-364: the traversal adds to the set object the blob
    paths of the entries that the tree yields, and changes nothing else.
    An [IndexError] ends it: it is answered by one warning, the entries
    read before it are kept, and the rest of the tree is never read. *)
Theorem traverse_collects_blobs (pre post : list tree_item) (e : exn) (l : nat)
    (S : gset string) (s : St) :
  ending pre = None -> exn_cls e = IndexError -> heap s !! l = Some S ->
  traverse pre l s
  = (Ok tt, with_heap (<[l := list_to_set (omap blob_of pre) ∪ S]> (heap s)) s) /\
  traverse (pre ++ ItemRaises e :: post) l s
  = (Ok tt,
     with_io (io s ++ [tool_warning
       "GitRepo: Index error encountered while reading git tree object. Skipping."])
       (with_heap (<[l := list_to_set (omap blob_of pre) ∪ S]> (heap s)) s)).
Proof.
  intros Hpre Hcls Hl. split.
  - rewrite (traverse_runs pre l S s); [|by intros e'; rewrite Hpre|done].
    unfold skipped. by rewrite Hpre, (yielded_all pre Hpre), app_nil_r.
  - destruct (yielded_app pre post e Hpre) as [Hy He].
    rewrite (traverse_runs _ l S s); [|intros e'; rewrite He; by intros [= <-]|done].
    unfold skipped. by rewrite He, Hy.
Qed.

Lemma traverse_collects_blobs_witness :
  traverse [Item "tree" "src"; Item "blob" "src/a.py"] 0 (with_heap [∅] init_state)
  = (Ok tt,
     with_heap (<[0 := list_to_set (omap blob_of [Item "tree" "src";
                                                  Item "blob" "src/a.py"]) ∪ ∅]>
                  (heap (with_heap [∅] init_state)))
       (with_heap [∅] init_state)) /\
  traverse ([Item "tree" "src"; Item "blob" "src/a.py"]
            ++ ItemRaises (Exn IndexError "index out of range")
               :: [Item "blob" "src/b.py"]) 0 (with_heap [∅] init_state)
  = (Ok tt,
     with_io (io (with_heap [∅] init_state) ++ [tool_warning
       "GitRepo: Index error encountered while reading git tree object. Skipping."])
       (with_heap (<[0 := list_to_set (omap blob_of [Item "tree" "src";
                                                     Item "blob" "src/a.py"]) ∪ ∅]>
                     (heap (with_heap [∅] init_state)))
          (with_heap [∅] init_state))).
Proof.
  apply (traverse_collects_blobs [Item "tree" "src"; Item "blob" "src/a.py"]
           [Item "blob" "src/b.py"] (Exn IndexError "index out of range")
           0 ∅ (with_heap [∅] init_state)); reflexivity.
Defined.

(** *** Normalising the paths of the tree and of the index *)

Lemma normal_relative (cfg : Config) (p : string) :
  anchored (Path p) = false -> exists q, relative_to_root cfg p = Ok q /\ normal cfg p = Some q.
Proof.
  intros Hp. destruct (relative_to_root_relative cfg p Hp) as (q & Hq).
  exists q. split; [done|]. unfold normal. by rewrite Hq.
Qed.

Lemma memo_ok_normalize_path (cfg : Config) (p : string) (s : St) :
  memo_ok cfg s -> memo_ok cfg (snd (normalize_path cfg p s)).
Proof. by destruct (ext0_frame_normalize_path cfg p s) as (_ & _ & Hmemo & _). Qed.

Lemma normalize_all_exact (cfg : Config) (ps : list string) (s : St) :
  memo_ok cfg s -> relative ps ->
  exists s', normalize_all cfg ps s = (Ok (omap (normal cfg) ps), s') /\
             memo_only s s' /\ memo_ok cfg s'.
Proof.
  revert s. induction ps as [|p ps IH]; intros s Hmemo Hrel.
  - exists s. split; [done|]. split; [apply memo_only_refl | done].
  - destruct (normal_relative cfg p) as (q & Hq & Hn); [apply Hrel; by left|].
    destruct (normalize_path_runs cfg p q s Hmemo Hq) as (s1 & Hrun & _).
    pose proof (memo_frame_normalize_path cfg p s) as Hs1.
    pose proof (memo_ok_normalize_path cfg p s Hmemo) as Hmemo1.
    rewrite Hrun in Hs1, Hmemo1. cbn [snd] in Hs1, Hmemo1.
    destruct (IH s1 Hmemo1) as (s2 & Hrun2 & Hs2 & Hmemo2).
    { intros x Hx. apply Hrel. by right. }
    exists s2. cbn [normalize_all omap list_omap]. fold (omap (normal cfg) ps).
    rewrite Hn. unfold bind at 1. rewrite Hrun. unfold bind at 1. rewrite Hrun2.
    split; [done|]. split; [by eapply memo_only_trans | done].
Qed.

Lemma update_normalized_exact (cfg : Config) (l : nat) (ps : list string)
    (S : gset string) (s : St) :
  memo_ok cfg s -> heap s !! l = Some S -> relative ps ->
  exists s',
    update_normalized cfg l ps s = (Ok tt, s') /\
    heap s' = <[l := list_to_set (omap (normal cfg) ps) ∪ S]> (heap s) /\
    tree_files s' = tree_files s /\
    ignore_file_cache s' = ignore_file_cache s /\
    memo_ok cfg s'.
Proof.
  revert s S. induction ps as [|p ps IH]; intros s S Hmemo Hl Hrel.
  - exists s. cbn. rewrite (left_id_L ∅ (∪)), list_insert_id by done. done.
  - destruct (normal_relative cfg p) as (q & Hq & Hn); [apply Hrel; by left|].
    destruct (normalize_path_runs cfg p q s Hmemo Hq) as (s1 & Hrun & _).
    pose proof (memo_frame_normalize_path cfg p s) as Hs1.
    pose proof (memo_ok_normalize_path cfg p s Hmemo) as Hmemo1.
    rewrite Hrun in Hs1, Hmemo1. cbn [snd] in Hs1, Hmemo1.
    assert (Hl1 : heap s1 !! l = Some S) by (by rewrite Hs1).
    set (s2 := with_heap (<[l := {[q]} ∪ S]> (heap s1)) s1).
    destruct (IH s2 ({[q]} ∪ S)) as (s3 & Hrun3 & Hh3 & Ht3 & Hc3 & Hmemo3).
    { exact Hmemo1. }
    { cbn. apply list_lookup_insert_eq. by eapply lookup_lt_Some. }
    { intros x Hx. apply Hrel. by right. }
    exists s3. cbn [update_normalized omap list_omap]. fold (omap (normal cfg) ps).
    rewrite Hn. unfold bind at 1. rewrite Hrun.
    unfold bind at 1. rewrite (set_add_runs l q S s1 Hl1). fold s2. rewrite Hrun3.
    split; [done|]. rewrite Hh3, Ht3, Hc3. cbn [heap tree_files ignore_file_cache s2 with_heap].
    rewrite list_insert_insert_eq, Hs1. cbn.
    repeat split; [|done].
    f_equal. cbn [list_to_set].
    by rewrite (assoc_L (∪) _ {[q]} S), (comm_L (∪) _ {[q]}).
Qed.

(** *** A filter with nothing to consult keeps the set objects *)

Lemma memo_only_fields (s s' : St) :
  memo_only s s' ->
  heap s' = heap s /\ tree_files s' = tree_files s /\
  ignore_file_cache s' = ignore_file_cache s /\ io s' = io s /\
  git_repo_error s' = git_repo_error s.
Proof. by intros ->. Qed.

Lemma ignored_file_keeps_sets (cfg : Config) (w : World) (f : string) (s : St) :
  heap (snd (ignored_file cfg w f s)) = heap s /\
  tree_files (snd (ignored_file cfg w f s)) = tree_files s.
Proof.
  destruct (refresh_aider_ignore_runs cfg w s) as (sr & Hr & _ & Ht & Hh & _).
  rewrite (ignored_file_after_refresh cfg w f s sr Hr).
  destruct (ignore_file_cache sr !! f); [done|].
  pose proof (memo_frame_ignored_file_raw cfg w f sr) as Hraw.
  destruct (ignored_file_raw cfg w f sr) as [[b|e] s2]; cbn in Hraw |- *;
    apply memo_only_fields in Hraw as (Hh2 & Ht2 & _); by rewrite Hh2, Ht2.
Qed.

Lemma filter_ignored_keeps_sets (cfg : Config) (w : World) (fs : list string) (s : St) :
  heap (snd (filter_ignored cfg w fs s)) = heap s /\
  tree_files (snd (filter_ignored cfg w fs s)) = tree_files s.
Proof.
  revert s. induction fs as [|f fs IH]; intros s; [done|].
  cbn [filter_ignored]. unfold bind, ret.
  destruct (ignored_file_keeps_sets cfg w f s) as [Hh Ht].
  destruct (ignored_file cfg w f s) as [[b|e] s1]; cbn [snd] in Hh, Ht |- *; [|done].
  destruct (IH s1) as [Hh2 Ht2].
  destruct (filter_ignored cfg w fs s1) as [[res|e] s2]; cbn [snd] in Hh2, Ht2 |- *;
    by rewrite Hh2, Ht2.
Qed.

(** *** The first call for a head commit *)

Lemma elem_of_elements_blobs (l : list string) (x : string) :
  x ∈ elements (list_to_set l ∪ ∅ : gset string) <-> x ∈ l.
Proof.
  rewrite elem_of_elements, elem_of_union, elem_of_list_to_set, elem_of_empty. tauto.
Qed.

Lemma normal_elements (cfg : Config) (l : list string) :
  list_to_set (omap (normal cfg) (elements (list_to_set l ∪ ∅ : gset string)))
  = (list_to_set (omap (normal cfg) l) : gset string).
Proof.
  apply set_eq. intros x. rewrite !elem_of_list_to_set, !list_elem_of_omap.
  split; intros (y & Hy & Hf); exists y; (split; [|done]).
  - by apply elem_of_elements_blobs.
  - by apply elem_of_elements_blobs.
Qed.

(** Lines 344-371 on a cache miss: the normalised blob paths of the head
    tree go into two new set objects, of which the second is cached. *)
Lemma tree_paths_miss (cfg : Config) (w : World) (c : string) (l0 : nat) (s0 : St) :
  tree_files s0 !! c = None -> readable (w_tree w c) ->
  heap s0 !! l0 = Some ∅ -> memo_ok cfg s0 ->
  relative (omap blob_of (yielded (w_tree w c))) ->
  exists s',
    tree_paths cfg w c l0 s0 = (Ok (Some (length (heap s0))), s') /\
    heap s' !! length (heap s0)
      = Some (list_to_set (omap (normal cfg) (omap blob_of (yielded (w_tree w c))))) /\
    heap s' !! S (length (heap s0))
      = Some (list_to_set (omap (normal cfg) (omap blob_of (yielded (w_tree w c))))) /\
    tree_files s' = <[c := S (length (heap s0))]> (tree_files s0) /\
    memo_ok cfg s' /\
    ignore_file_cache s' = ignore_file_cache s0.
Proof.
  intros Hmiss Hok Hl0 Hmemo Hrel.
  set (B := list_to_set (omap blob_of (yielded (w_tree w c))) ∪ ∅ : gset string).
  set (s1 := with_io (io s0 ++ skipped (w_tree w c))
               (with_heap (<[l0 := B]> (heap s0)) s0)).
  assert (Hl1 : heap s1 !! l0 = Some B).
  { cbn. apply list_lookup_insert_eq. by eapply lookup_lt_Some. }
  destruct (normalize_all_exact cfg (elements B) s1) as (s2 & Hrun2 & Hs2 & Hmemo2).
  { exact Hmemo. }
  { intros p Hp. apply Hrel. by apply elem_of_elements_blobs. }
  apply memo_only_fields in Hs2 as (Hh2 & Ht2 & Hc2 & _).
  assert (Hlen : length (heap s2) = length (heap s0)).
  { rewrite Hh2. cbn. apply length_insert. }
  eexists. split.
  { unfold tree_paths. unfold bind at 1, gets at 1. rewrite Hmiss.
    unfold bind at 1, try_except, bind at 1.
    rewrite (traverse_runs (w_tree w c) l0 ∅ s0 Hok Hl0).
    fold B. fold s1. unfold ret at 1.
    unfold bind at 1. rewrite (set_get_runs l0 B s1 Hl1).
    unfold bind at 1. rewrite Hrun2.
    unfold bind, set_new, gets, modify, ret. cbn.
    rewrite Hlen. reflexivity. }
  cbn. rewrite !length_app, Hlen. cbn.
  unfold B. rewrite normal_elements.
  split; [|split; [|split; [|split]]].
  - rewrite lookup_app_l by (rewrite length_app; cbn; lia).
    rewrite <- Hlen. apply list_lookup_middle. done.
  - replace (S (length (heap s0))) with (length (heap s2 ++ [list_to_set
      (omap (normal cfg) (omap blob_of (yielded (w_tree w c))))]) + 0)
      by (rewrite length_app, Hlen; cbn; lia).
    rewrite lookup_app_r by lia. rewrite Nat.add_comm, Nat.add_sub. done.
  - rewrite Ht2. cbn. f_equal. lia.
  - intros k v Hk. cbn in Hk. by apply Hmemo2.
  - by rewrite Hc2.
Qed.

(** Lines 373-383 for a handle whose filter has nothing to consult: the
    normalised staged paths join the set object [l], whose elements are
    returned; no other set object changes. *)
Lemma add_staged_and_filter_exact (cfg : Config) (w : World) (l : nat)
    (N : gset string) (s : St) :
  quiet cfg -> cache_false s -> memo_ok cfg s ->
  heap s !! l = Some N ->
  relative (staged_paths w) ->
  (forall e, w_index w = Raise e -> ANY_GIT_ERROR (exn_cls e) = true) ->
  exists s',
    add_staged_and_filter cfg w l s
    = (Ok (elements (list_to_set (omap (normal cfg) (staged_paths w)) ∪ N)), s') /\
    tree_files s' = tree_files s /\
    forall l', l' <> l -> heap s' !! l' = heap s !! l'.
Proof.
  intros Hq Hcache Hmemo Hl Hrel Hsoft.
  assert (Hstep : exists s1,
    try_except
      (staged_files <- lift (w_index w) ;; update_normalized cfg l staged_files)
      (fun e => ANY_GIT_ERROR (exn_cls e))
      (fun err => io_emit (tool_error ("Unable to read staged files: " +:+ exn_str err)))
      s = (Ok tt, s1) /\
    heap s1 = <[l := list_to_set (omap (normal cfg) (staged_paths w)) ∪ N]> (heap s) /\
    tree_files s1 = tree_files s /\ ignore_file_cache s1 = ignore_file_cache s).
  { unfold try_except, bind, lift, staged_paths in *.
    destruct (w_index w) as [staged|e] eqn:Hindex.
    - destruct (update_normalized_exact cfg l staged N s Hmemo Hl Hrel)
        as (s1 & Hrun & Hh & Ht & Hc & _).
      exists s1. by rewrite Hrun.
    - rewrite (Hsoft e eq_refl). eexists. split; [reflexivity|].
      cbn. rewrite (left_id_L ∅ (∪)), list_insert_id by done. done. }
  destruct Hstep as (s1 & Hrun & Hh1 & Ht1 & Hc1).
  set (all := list_to_set (omap (normal cfg) (staged_paths w)) ∪ N) in *.
  assert (Hl1 : heap s1 !! l = Some all).
  { rewrite Hh1. apply list_lookup_insert_eq. by eapply lookup_lt_Some. }
  destruct (filter_ignored_quiet cfg w (elements all) s1 Hq) as (s2 & Hrun2).
  { intros k b. rewrite Hc1. apply Hcache. }
  destruct (filter_ignored_keeps_sets cfg w (elements all) s1) as [Hh2 Ht2].
  rewrite Hrun2 in Hh2, Ht2. cbn [snd] in Hh2, Ht2.
  exists s2. split.
  { unfold add_staged_and_filter. unfold bind at 1. rewrite Hrun.
    unfold bind at 1. rewrite (set_get_runs l all s1 Hl1). exact Hrun2. }
  split; [by rewrite Ht2|].
  intros l' Hne. rewrite Hh2, Hh1. by apply list_lookup_insert_ne.
Qed.

Lemma spec_candidates_union (cfg : Config) (w : World) :
  spec_candidates cfg w
  = list_to_set (omap (normal cfg) (staged_paths w))
    ∪ list_to_set (omap (normal cfg) (head_blobs w)).
Proof.
  unfold spec_candidates. fold (normal cfg).
  apply set_eq. intros x.
  rewrite elem_of_union, !elem_of_list_to_set, !list_elem_of_omap.
  split.
  - intros (y & Hy & Hf). apply elem_of_app in Hy as [Hy|Hy]; [right|left]; by exists y.
  - intros [(y & Hy & Hf)|(y & Hy & Hf)]; exists y; (split; [|done]);
      apply elem_of_app; [by right | by left].
Qed.

(** X23: lines 328-383, for a handle whose ignore filter has nothing to consult:
    the first call for a head commit, or a call of a repository without
    commits, returns each normalised path of the head tree and of the index
    once and no other; entries of the tree that raise [IndexError] are left
    out.  The set object cached for the head commit holds the paths of the
    tree alone. *)
Theorem get_tracked_files_first_call (cfg : Config) (w : World) (s : St) :
  quiet cfg -> cache_false s -> memo_ok cfg s ->
  match w_head_commit w with
  | Ok c => tree_files s !! c = None /\ readable (w_tree w c)
  | Raise e => exn_cls e = ValueError
  end ->
  relative (head_blobs w ++ staged_paths w) ->
  (forall e, w_index w = Raise e -> ANY_GIT_ERROR (exn_cls e) = true) ->
  exists res s',
    get_tracked_files cfg w s = (Ok res, s') /\
    NoDup res /\
    (forall x, x ∈ res <-> x ∈ spec_candidates cfg w) /\
    match w_head_commit w with
    | Ok c =>
        exists l, tree_files s' !! c = Some l /\
                  heap s' !! l = Some (list_to_set (omap (normal cfg) (head_blobs w)))
    | Raise _ => tree_files s' = tree_files s
    end.
Proof.
  intros Hq Hcache Hmemo Hhead Hrel Hsoft.
  assert (Hrel_head : relative (head_blobs w)).
  { intros p Hp. apply Hrel, elem_of_app. by left. }
  assert (Hrel_staged : relative (staged_paths w)).
  { intros p Hp. apply Hrel, elem_of_app. by right. }
  rewrite spec_candidates_union.
  unfold get_tracked_files, head_blobs in *.
  set (s0 := with_heap (heap s ++ [∅]) s).
  assert (Hl0 : heap s0 !! length (heap s) = Some ∅).
  { cbn. by apply list_lookup_middle. }
  destruct (w_head_commit w) as [c|e].
  - destruct Hhead as [Hmiss Hok]. fold blob_of in *.
    destruct (tree_paths_miss cfg w c (length (heap s)) s0 Hmiss Hok Hl0 Hmemo Hrel_head)
      as (s1 & Hrun1 & Hl1 & Hl2 & Ht1 & Hmemo1 & Hc1).
    destruct (add_staged_and_filter_exact cfg w (length (heap s0))
                (list_to_set (omap (normal cfg) (omap blob_of (yielded (w_tree w c))))) s1)
      as (s2 & Hrun2 & Ht2 & Hh2); [done | | done..|].
    { intros k b. rewrite Hc1. apply Hcache. }
    eexists _, s2. split.
    { unfold bind at 1, set_new, bind at 1, gets at 1.
      unfold bind at 1, modify at 1, ret at 1. fold s0.
      unfold bind at 1. rewrite Hrun1. exact Hrun2. }
    split; [apply NoDup_elements|].
    split; [intros x; apply elem_of_elements|].
    exists (S (length (heap s0))). split.
    + rewrite Ht2, Ht1. apply lookup_insert_eq.
    + rewrite Hh2 by lia. exact Hl2.
  - rewrite bool_decide_eq_true_2 by done.
    destruct (add_staged_and_filter_exact cfg w (length (heap s)) ∅ s0)
      as (s2 & Hrun2 & Ht2 & Hh2); [done..|].
    eexists _, s2. split.
    { unfold bind at 1, set_new, bind at 1, gets at 1.
      unfold bind at 1, modify at 1, ret at 1. fold s0. exact Hrun2. }
    split; [apply NoDup_elements|].
    split; [intros x; apply elem_of_elements|].
    by rewrite Ht2.
Qed.

Lemma get_tracked_files_first_call_witness :
  exists res s',
    get_tracked_files Examples.files_config_plain Examples.world_staged init_state
      = (Ok res, s') /\
    NoDup res /\
    (forall x, x ∈ res <->
               x ∈ spec_candidates Examples.files_config_plain Examples.world_staged) /\
    match w_head_commit Examples.world_staged with
    | Ok c =>
        exists l, tree_files s' !! c = Some l /\
                  heap s' !! l
                  = Some (list_to_set (omap (normal Examples.files_config_plain)
                                         (head_blobs Examples.world_staged)))
    | Raise _ => tree_files s' = tree_files init_state
    end.
Proof.
  apply (get_tracked_files_first_call Examples.files_config_plain Examples.world_staged
           init_state).
  - split; reflexivity.
  - apply cache_false_init.
  - apply memo_ok_init.
  - split; [reflexivity|]. intros e He. discriminate He.
  - intros p Hp. apply list_elem_of_In in Hp.
    destruct Hp as [<-|[<-|[<-|[]]]]; reflexivity.
  - intros e He. discriminate He.
Defined.

(** *** A head tree that cannot be listed *)

(** A traversal ended by another exception than [IndexError] raises it,
    with the cache of tree files and the transcript as they were. *)
Lemma traverse_raises (items : list tree_item) (l : nat) (S : gset string)
    (e : exn) (s : St) :
  ending items = Some e -> exn_cls e <> IndexError -> heap s !! l = Some S ->
  exists s1, traverse items l s = (Raise e, s1) /\
             tree_files s1 = tree_files s /\ io s1 = io s.
Proof.
  revert s S. induction items as [|it items IH]; intros s S Hend Hcls Hl;
    [discriminate Hend|].
  destruct it as [type path|e']; cbn [traverse ending] in *.
  - destruct (String.eqb type "blob").
    + unfold bind at 1. rewrite (set_add_runs l path S s Hl).
      destruct (IH (with_heap (<[l := {[path]} ∪ S]> (heap s)) s) ({[path]} ∪ S))
        as (s1 & Hrun & Ht & Hio); [done | done | |].
      { cbn. apply list_lookup_insert_eq. by eapply lookup_lt_Some. }
      exists s1. by rewrite Hrun.
    + unfold bind at 1, ret at 1. by eapply IH.
  - injection Hend as ->. rewrite bool_decide_eq_false_2 by done.
    by exists s.
Qed.

(** X24: lines 336-340 and 366-369: when the head commit cannot be read, or
    the traversal of the uncached head tree is ended by an error of
    [ANY_GIT_ERROR] other than [IndexError], the call returns the empty
    list whatever the index holds, keeps the error, reports it, and caches
    nothing. *)
Theorem get_tracked_files_listing_fails (cfg : Config) (w : World) (s : St) (e : exn) :
  ANY_GIT_ERROR (exn_cls e) = true ->
  listing_fails w s e ->
  exists s',
    get_tracked_files cfg w s = (Ok [], s') /\
    git_repo_error s' = Some e /\
    tree_files s' = tree_files s /\
    io s' = io s
            ++ [tool_error ("Unable to list files in git repo: " +:+ exn_str e);
                tool_output "Is your git repo corrupted?"].
Proof.
  intros Hany Hfails. unfold listing_fails, get_tracked_files in *.
  destruct (w_head_commit w) as [c|e'].
  - destruct Hfails as (Hmiss & Hend & Hcls).
    set (s0 := with_heap (heap s ++ [∅]) s).
    assert (Hl0 : heap s0 !! length (heap s) = Some ∅).
    { cbn. by apply list_lookup_middle. }
    destruct (traverse_raises (w_tree w c) (length (heap s)) ∅ e s0 Hend Hcls Hl0)
      as (s1 & Htr & Ht1 & Hio1).
    eexists. split.
    { unfold bind at 1, set_new, bind at 1, gets at 1.
      unfold bind at 1, modify at 1, ret at 1. fold s0.
      unfold bind at 1, tree_paths, bind at 1, gets at 1.
      change (tree_files s0) with (tree_files s). rewrite Hmiss.
      unfold bind at 1, try_except, bind at 1. rewrite Htr, Hany.
      unfold unable_to_list, bind, io_emit, modify, ret. cbn. reflexivity. }
    cbn. rewrite Ht1, Hio1, <- !app_assoc. done.
  - destruct Hfails as [-> Hcls].
    rewrite bool_decide_eq_false_2 by done. rewrite Hany.
    eexists. split.
    { unfold unable_to_list, bind, io_emit, modify, ret. cbn. reflexivity. }
    cbn. rewrite <- !app_assoc. done.
Qed.

Lemma get_tracked_files_listing_fails_witness :
  exists s',
    get_tracked_files Examples.files_config_plain Examples.world_broken_tree init_state
      = (Ok [], s') /\
    git_repo_error s' = Some (Exn ODBError "object not found") /\
    tree_files s' = tree_files init_state /\
    io s' = io init_state
            ++ [tool_error ("Unable to list files in git repo: "
                            +:+ exn_str (Exn ODBError "object not found"));
                tool_output "Is your git repo corrupted?"].
Proof.
  apply (get_tracked_files_listing_fails Examples.files_config_plain
           Examples.world_broken_tree init_state (Exn ODBError "object not found")).
  - reflexivity.
  - split; [reflexivity|]. split; [reflexivity | discriminate].
Defined.

(** *** Whether a path is tracked, and whether it is dirty *)

(** X25: lines 462-469 and 492-496: a path under the root is looked up, in its
    normal form, in the list that [get_tracked_files] returns; the
    repository is asked about a tracked path only, and an untracked path
    counts as dirty. *)
Theorem is_dirty_asks_for_tracked_paths (cfg : Config) (w : World)
    (repo_is_dirty : option string -> result bool) (path q : string)
    (res : list string) (s s1 : St) :
  path <> "" ->
  memo_ok cfg s ->
  get_tracked_files cfg w s = (Ok res, s1) ->
  relative_to_root cfg path = Ok q ->
  exists s2,
    path_in_repo cfg w (Some path) s = (Ok (Some (bool_decide (q ∈ res))), s2) /\
    is_dirty cfg w repo_is_dirty (Some path) s
    = (if bool_decide (q ∈ res) then repo_is_dirty (Some path) else Ok true, s2).
Proof.
  intros Hpath Hmemo Hrun Hq.
  assert (Htruthy : truthy (Some path) = true) by (by destruct path).
  pose proof (ext_frame_get_tracked_files cfg w s) as (_ & _ & Hmemo1 & _).
  rewrite Hrun in Hmemo1. cbn [snd] in Hmemo1.
  destruct (normalize_path_runs cfg path q s1 (Hmemo1 Hmemo) Hq) as (s2 & Hrun2 & _).
  assert (Hin : path_in_repo cfg w (Some path) s
                = (Ok (Some (bool_decide (q ∈ res))), s2)).
  { unfold path_in_repo. rewrite Htruthy. cbn [negb fmt].
    unfold bind at 1. rewrite Hrun. unfold bind at 1. rewrite Hrun2.
    unfold ret. do 3 f_equal. apply bool_decide_ext, elem_of_list_to_set. }
  exists s2. split; [done|].
  unfold is_dirty. rewrite Htruthy. unfold bind at 1, bind at 1. rewrite Hin.
  unfold ret at 1. cbn [default]. by destruct (bool_decide (q ∈ res)).
Qed.

Lemma is_dirty_asks_for_tracked_paths_witness :
  exists s2,
    path_in_repo Examples.files_config_plain Examples.world_first (Some "/repo/b.txt")
      init_state
    = (Ok (Some (bool_decide ("b.txt" ∈ ["a.txt"]))), s2) /\
    is_dirty Examples.files_config_plain Examples.world_first
      (fun _ => Raise (Exn GitCommandError "pathspec did not match any files"))
      (Some "/repo/b.txt") init_state
    = (if bool_decide ("b.txt" ∈ ["a.txt"])
       then Raise (Exn GitCommandError "pathspec did not match any files")
       else Ok true, s2).
Proof.
  apply (is_dirty_asks_for_tracked_paths Examples.files_config_plain Examples.world_first
           (fun _ => Raise (Exn GitCommandError "pathspec did not match any files"))
           "/repo/b.txt" "b.txt" ["a.txt"] init_state
           (snd (get_tracked_files Examples.files_config_plain Examples.world_first
                   init_state))).
  - discriminate.
  - apply memo_ok_init.
  - vm_compute. reflexivity.
  - reflexivity.
Defined.

(** X26: lines 462-469 and 492-496: for a path outside the root, both methods
    raise the [ValueError] of the normalisation once the tracked files are
    listed; the repository is not asked. *)
Theorem is_dirty_outside_root (cfg : Config) (w : World)
    (repo_is_dirty : option string -> result bool) (P : string)
    (res : list string) (s s1 : St) :
  outside_root cfg P ->
  memo_ok cfg s ->
  get_tracked_files cfg w s = (Ok res, s1) ->
  exists e,
    exn_cls e = ValueError /\
    path_in_repo cfg w (Some P) s = (Raise e, s1) /\
    is_dirty cfg w repo_is_dirty (Some P) s = (Raise e, s1).
Proof.
  intros Hout Hmemo Hrun.
  assert (Htruthy : truthy (Some P) = true).
  { destruct Hout as [Hanch _]. by destruct P. }
  pose proof (ext_frame_get_tracked_files cfg w s) as (_ & _ & Hmemo1 & _).
  rewrite Hrun in Hmemo1. cbn [snd] in Hmemo1.
  pose proof (normalize_path_outside cfg P s1 Hout (Hmemo1 Hmemo)) as Hrun2.
  eexists. split; [|split].
  2:{ unfold path_in_repo. rewrite Htruthy. cbn [negb fmt].
      unfold bind at 1. rewrite Hrun. unfold bind at 1. rewrite Hrun2. reflexivity. }
  - reflexivity.
  - unfold is_dirty. rewrite Htruthy. unfold bind at 1, bind at 1.
    unfold path_in_repo. rewrite Htruthy. cbn [negb fmt].
    unfold bind at 1. rewrite Hrun. unfold bind at 1. rewrite Hrun2. reflexivity.
Qed.

Lemma is_dirty_outside_root_witness :
  exists e,
    exn_cls e = ValueError /\
    path_in_repo Examples.files_config_plain Examples.world_first (Some "/elsewhere/x")
      init_state
    = (Raise e, snd (get_tracked_files Examples.files_config_plain Examples.world_first
                       init_state)) /\
    is_dirty Examples.files_config_plain Examples.world_first (fun _ => Ok false)
      (Some "/elsewhere/x") init_state
    = (Raise e, snd (get_tracked_files Examples.files_config_plain Examples.world_first
                       init_state)).
Proof.
  apply (is_dirty_outside_root Examples.files_config_plain Examples.world_first
           (fun _ => Ok false) "/elsewhere/x" ["a.txt"] init_state).
  - split; [reflexivity | right; reflexivity].
  - apply memo_ok_init.
  - vm_compute. reflexivity.
Defined.

End TrackedFurther.

Section FindingTheRepository.
Import Discovery.






End FindingTheRepository.
